(** * TGT heightmap helpers: a shallow embedding of [tgt/helpers.py]

    The module evolves terrain heightmaps with a small genetic algorithm
    over numpy arrays.  This development embeds the array operations the
    module relies on, the two random generators it draws from, and every
    function of the evolutionary pipeline, and then states and proves facts
    about them.

    Conventions.
    - A Python exception is a value of [exn]; a computation that may raise
      returns a [result].
    - Floating-point arithmetic is reached through the class [Scalar]; its
      instance [Binary64.scalar] is IEEE 754 double precision as specified
      by [SpecFloat] (it computes).  Statements about control flow, shapes,
      exceptions and aliasing are proved for every instance; statements
      about the values computed are proved on doubles.
    - A numpy array is its shape and its row-major contents ([ndarray]); a
      0-d array and a numpy scalar are not told apart, except where the
      mutation stage passes an item of the population to [mutate]
      ([mutate_item]).
    - Arithmetic is done at one precision; the cast to the grids'
      [float32] happens where a value is stored into a grid ([f_store]).
      The reductions ([np.sum], [np.var], [np.linalg.norm]) accumulate
      from the left at that precision; numpy reduces a [float32] grid in
      [float32], by pairwise summation, so the last bits of a reduction
      that rounds are not numpy's.  What is proved about reductions is
      either stated in terms of the reduction, or concerns zeros, NaN,
      signs and exceptions.
    - The global generators [random] and [np.random] are oracles: a tape of
      raw draws and a cursor ([world]); every sequence of draws is some
      tape.
    - [crossover] and [crossover2] write through their arguments, so they
      are modelled on a store of arrays, the pipeline's [float32] grids;
      the other functions are modelled by the values they return. *)

From Stdlib Require Import ZArith String List Bool Lia Permutation.
From Stdlib Require Import SpecFloat.
Import ListNotations.

Set Implicit Arguments.

(** ** Python runtime: exceptions and results *)

Module Py.

Inductive exn : Type :=
| NameError (name : string)
| ZeroDivisionError
| IndexError
| ValueError
| TypeError
| OverflowError.

(** The class name an exception prints with. *)
Definition exn_name (e : exn) : string :=
  match e with
  | NameError _ => "NameError"
  | ZeroDivisionError => "ZeroDivisionError"
  | IndexError => "IndexError"
  | ValueError => "ValueError"
  | TypeError => "TypeError"
  | OverflowError => "OverflowError"
  end.

Inductive result (A : Type) : Type :=
| Ok (a : A)
| Raise (e : exn).

Arguments Ok {A} a.
Arguments Raise {A} e.

Definition rbind {A B} (c : result A) (k : A -> result B) : result B :=
  match c with
  | Ok a => k a
  | Raise e => Raise e
  end.

Definition raises {A} (c : result A) : bool :=
  match c with Ok _ => false | Raise _ => true end.

(** [[f(x) for x in xs]], left to right, stopping at the first raise. *)
Fixpoint rmap {A B} (f : A -> result B) (xs : list A) : result (list B) :=
  match xs with
  | [] => Ok []
  | x :: xs' =>
      rbind (f x) (fun y => rbind (rmap f xs') (fun ys => Ok (y :: ys)))
  end.

(** [range(n)]: empty when [n <= 0]. *)
Definition range (n : Z) : list nat := seq 0 (Z.to_nat n).

(** [t[i]] on a tuple or list. *)
Definition index {A} (t : list A) (i : nat) : result A :=
  match nth_error t i with
  | Some x => Ok x
  | None => Raise IndexError
  end.

(** The names bound at module level in helpers.py: its imports and its
    [def]s, in source order. *)
Definition module_globals : list string :=
  [ "np"; "random"; "noise"; "math"; "time"; "CELL_LENGTH";
    "init_once"; "crossover"; "mutate"; "score"; "loc_glbl_var";
    "sea_level"; "bedrock"; "mountains"; "analyze_cell";
    "generate_original_population"; "compute_population_fitness";
    "select_from_population"; "crossover2"; "breed_population";
    "mutate2"; "mutate_population"; "generate_basic_perlin_noise";
    "run_genetic_algorithm"; "generate"; "perlin_rand" ]%string.

(** Looking a global name up: [NameError] when the module does not bind
    it (none of the names used below is a builtin). *)
Definition load_global (name : string) : result unit :=
  if existsb (String.eqb name) module_globals then Ok tt
  else Raise (NameError name).

End Py.

Export Py.

Declare Scope py_scope.
Delimit Scope py_scope with py.
Notation "x <~ c ;; k" := (rbind c (fun x => k))
  (at level 61, c at next level, right associativity) : py_scope.
Open Scope py_scope.

(** ** Floating-point scalars *)

(** The arithmetic the module performs on Python floats and on numpy
    elements.  [f_int], [f_ceil] and [f_floor] are [int(x)], [math.ceil(x)]
    and [math.floor(x)]; they raise on NaN and on infinities.  [f_store] is
    the cast applied when a value is written into a grid (the grids are
    allocated with [dtype=np.float32]). *)
Class Scalar (F : Type) : Type := {
  f_of_Z : Z -> F;
  f_add : F -> F -> F;
  f_sub : F -> F -> F;
  f_mul : F -> F -> F;
  f_div : F -> F -> F;
  f_sqrt : F -> F;
  f_ltb : F -> F -> bool;
  f_isnan : F -> bool;
  f_int : F -> result Z;
  f_ceil : F -> result Z;
  f_floor : F -> result Z;
  f_store : F -> F
}.

(** IEEE 754 binary64, the representation of a Python float. *)
Module Binary64.

Definition prec : Z := 53.
Definition emax : Z := 1024.

Definition of_Z (z : Z) : spec_float := binary_normalize prec emax z 0 false.

Definition isnan (x : spec_float) : bool :=
  match x with S754_nan => true | _ => false end.

(** [math.floor]: the mantissa shifted by the exponent, rounding down. *)
Definition floor (x : spec_float) : result Z :=
  match x with
  | S754_zero _ => Ok 0%Z
  | S754_nan => Raise ValueError
  | S754_infinity _ => Raise OverflowError
  | S754_finite s m e => Ok (Z.shiftl (cond_Zopp s (Zpos m)) e)
  end.

Definition ceil (x : spec_float) : result Z :=
  match x with
  | S754_zero _ => Ok 0%Z
  | S754_nan => Raise ValueError
  | S754_infinity _ => Raise OverflowError
  | S754_finite s m e => Ok (Z.opp (Z.shiftl (cond_Zopp (negb s) (Zpos m)) e))
  end.

(** [int(x)]: truncation toward zero. *)
Definition trunc (x : spec_float) : result Z :=
  match x with
  | S754_zero _ => Ok 0%Z
  | S754_nan => Raise ValueError
  | S754_infinity _ => Raise OverflowError
  | S754_finite s m e => Ok (cond_Zopp s (Z.shiftl (Zpos m) e))
  end.

(** The cast to [np.float32]: rounding to 24 bits of precision; the
    rounded value is then written back in binary64 form, which is
    exact. *)
Definition to_float32 (x : spec_float) : spec_float :=
  match x with
  | S754_finite s m e =>
      match binary_round 24 128 s m e with
      | S754_finite s' m' e' => binary_round prec emax s' m' e'
      | y => y
      end
  | _ => x
  end.

(** Not below zero: a zero, a NaN, or a value whose sign bit is clear. *)
Definition not_negative (x : spec_float) : Prop :=
  match x with
  | S754_zero _ | S754_nan => True
  | S754_infinity s | S754_finite s _ _ => s = false
  end.

#[global] Instance scalar : Scalar spec_float := {
  f_of_Z := of_Z;
  f_add := SFadd prec emax;
  f_sub := SFsub prec emax;
  f_mul := SFmul prec emax;
  f_div := SFdiv prec emax;
  f_sqrt := SFsqrt prec emax;
  f_ltb := SFltb;
  f_isnan := isnan;
  f_int := trunc;
  f_ceil := ceil;
  f_floor := floor;
  f_store := to_float32
}.

End Binary64.

(** ** numpy arrays *)

Module Np.

(** An array is its shape and its elements in row-major order; a 0-d
    array (and a numpy scalar) has shape [[]] and one element. *)
Record ndarray (A : Type) : Type := mk_nd {
  shape : list nat;
  data : list A
}.

Arguments mk_nd {A} shape data.

(** Number of elements of an array of the given shape. *)
Definition size (s : list nat) : nat := fold_right Nat.mul 1 s.

Definition shape_eqb (s t : list nat) : bool :=
  if list_eq_dec Nat.eq_dec s t then true else false.

(** The [i]-th run of [k] consecutive elements. *)
Definition chunk {A} (k i : nat) (d : list A) : list A :=
  firstn k (skipn (i * k) d).

Fixpoint zip_with {A B C} (f : A -> B -> C) (xs : list A) (ys : list B) : list C :=
  match xs, ys with
  | x :: xs', y :: ys' => f x y :: zip_with f xs' ys'
  | _, _ => []
  end.

(** [l[i] = x] on a Python list; out of range leaves [l] as it is (the
    callers below only write in range). *)
Fixpoint list_set {A} (l : list A) (i : nat) (x : A) : list A :=
  match l, i with
  | [], _ => []
  | _ :: t, O => x :: t
  | h :: t, S i' => h :: list_set t i' x
  end.

Section Generic.
Context {A : Type}.

Definition scalar_nd (x : A) : ndarray A := mk_nd [] [x].

(** [np.full(shape, c)]; [np.zeros(shape)] is [full shape 0]. *)
Definition full (s : list nat) (c : A) : ndarray A :=
  mk_nd s (repeat c (size s)).

(** [len(a)]: a 0-d array has no length. *)
Definition len (a : ndarray A) : result nat :=
  match shape a with
  | [] => Raise TypeError
  | n :: _ => Ok n
  end.

(** [a[i]] for an integer [0 <= i]. *)
Definition getitem (a : ndarray A) (i : nat) : result (ndarray A) :=
  match shape a with
  | [] => Raise IndexError
  | n :: s =>
      if i <? n then Ok (mk_nd s (chunk (size s) i (data a)))
      else Raise IndexError
  end.

(** [for x in a]: the items [a[0]], ..., [a[len(a)-1]]. *)
Definition items (a : ndarray A) : result (list (ndarray A)) :=
  n <~ len a ;; rmap (getitem a) (seq 0 n).

(** [np.array(xs)] for a list of arrays: the arrays are stacked when
    they all have one shape; a ragged list is refused (numpy 1.24 and
    later raise [ValueError]); the empty list gives shape [(0,)]. *)
Definition array (xs : list (ndarray A)) : result (ndarray A) :=
  match xs with
  | [] => Ok (mk_nd [0] [])
  | x :: rest =>
      if forallb (fun y => shape_eqb (shape x) (shape y)) rest
      then Ok (mk_nd (length xs :: shape x) (concat (map (@data A) xs)))
      else Raise ValueError
  end.

(** Broadcasting of shapes, aligned on the right. *)
Definition pad_shape (n : nat) (s : list nat) : list nat :=
  repeat 1 (n - length s) ++ s.

Fixpoint bshape_aligned (s t : list nat) : result (list nat) :=
  match s, t with
  | [], [] => Ok []
  | a :: s', b :: t' =>
      r <~ bshape_aligned s' t' ;;
      if a =? b then Ok (a :: r)
      else if a =? 1 then Ok (b :: r)
      else if b =? 1 then Ok (a :: r)
      else Raise ValueError
  | _, _ => Raise ValueError
  end.

Definition bshape (s t : list nat) : result (list nat) :=
  let n := Nat.max (length s) (length t) in
  bshape_aligned (pad_shape n s) (pad_shape n t).

(** The elements of an array of shape [src] seen at shape [tgt]
    (same rank): an axis of extent 1 is repeated. *)
Fixpoint stretch (src tgt : list nat) (d : list A) : result (list A) :=
  match src, tgt with
  | [], [] => Ok d
  | m :: src', n :: tgt' =>
      if m =? n then
        rows <~ rmap (fun i => stretch src' tgt' (chunk (size src') i d))
                     (seq 0 m) ;;
        Ok (concat rows)
      else if m =? 1 then
        row <~ stretch src' tgt' d ;;
        Ok (concat (repeat row n))
      else Raise ValueError
  | _, _ => Raise ValueError
  end.

Definition broadcast_to (src tgt : list nat) (d : list A) : result (list A) :=
  if shape_eqb src tgt then Ok d
  else stretch (pad_shape (length tgt) src) tgt d.

(** Leading axes of extent 1 in excess of the target rank are dropped
    when a value is assigned into an array. *)
Fixpoint strip_ones (k : nat) (s : list nat) : list nat :=
  match k, s with
  | S k', 1 :: s' => strip_ones k' s'
  | _, _ => s
  end.

(** [a[...] = v]: the contents of [a] become [v] broadcast to the shape
    of [a], each element cast by [store]. *)
Definition assign (store : A -> A) (a v : ndarray A) : result (ndarray A) :=
  let sv := strip_ones (length (shape v) - length (shape a)) (shape v) in
  d <~ broadcast_to sv (shape a) (data v) ;;
  Ok (mk_nd (shape a) (map store d)).

(** [a[i] = v] for an integer [0 <= i]: item [i] is assigned as above,
    the other items stay. *)
Definition setitem (store : A -> A) (a : ndarray A) (i : nat) (v : ndarray A)
  : result (ndarray A) :=
  slot <~ getitem a i ;;
  slot' <~ assign store slot v ;;
  let k := size (shape slot) in
  Ok (mk_nd (shape a)
        (firstn (i * k) (data a) ++ data slot' ++ skipn ((i + 1) * k) (data a))).

(** [a[i] = t] for a tuple [t] of arrays.  numpy reads the right-hand
    side as an array of at most the rank of the slot [a[i]]: a tuple of
    arrays of lower rank is stacked and assigned as above; a tuple
    holding an array of the rank of the slot (or more) is nested too
    deep and is refused with [ValueError] ("setting an array element
    with a sequence"). *)
Definition setitem_seq (store : A -> A) (a : ndarray A) (i : nat)
    (t : list (ndarray A)) : result (ndarray A) :=
  slot <~ getitem a i ;;
  if forallb (fun g => length (shape g) <? length (shape slot)) t
  then v <~ array t ;; setitem store a i v
  else Raise ValueError.

(** An elementwise binary operation with broadcasting. *)
Definition binop (f : A -> A -> A) (a b : ndarray A) : result (ndarray A) :=
  s <~ bshape (shape a) (shape b) ;;
  da <~ broadcast_to (shape a) s (data a) ;;
  db <~ broadcast_to (shape b) s (data b) ;;
  Ok (mk_nd s (zip_with f da db)).

(** [a[r0:r1, c0:c1]] on the two leading axes; as in a Python slice,
    an end beyond the extent stands for the extent. *)
Definition slice2 (a : ndarray A) (r0 r1 c0 c1 : nat) : result (ndarray A) :=
  match shape a with
  | h :: w :: rest =>
      let r1 := Nat.min r1 h in
      let c1 := Nat.min c1 w in
      let k := size rest in
      Ok (mk_nd ((r1 - r0) :: (c1 - c0) :: rest)
            (concat (map (fun r => firstn ((c1 - c0) * k)
                                     (skipn ((r * w + c0) * k) (data a)))
                         (seq r0 (r1 - r0)))))
  | _ => Raise IndexError
  end.

(** [a[idx]] for an integer array [idx] (fancy indexing on the first
    axis): the result has shape [idx.shape + a.shape[1:]]. *)
Definition take (a : ndarray A) (idx : ndarray nat) : result (ndarray A) :=
  match shape a with
  | [] => Raise IndexError
  | _ :: s =>
      picked <~ rmap (getitem a) (data idx) ;;
      Ok (mk_nd (shape idx ++ s) (concat (map (@data A) picked)))
  end.

End Generic.

(** *** Reductions and sorting on floating-point arrays *)

Section Floating.
Context {F : Type} `{Scalar F}.

Definition zero : F := f_of_Z 0.

(** [np.zeros(shape)]: a negative extent is refused. *)
Definition zeros (dims : list Z) : result (ndarray F) :=
  if forallb (fun d => (0 <=? d)%Z) dims
  then Ok (full (map Z.to_nat dims) zero)
  else Raise ValueError.

(** [np.sum], accumulating from the left (numpy sums pairwise: see
    the conventions at the head of the file). *)
Definition sum (d : list F) : F := fold_left f_add d zero.

(** [np.var(a)]: the mean of the squared deviations from the mean, at
    the one precision of the arithmetic. *)
Definition var (a : ndarray F) : F :=
  let n := f_of_Z (Z.of_nat (length (data a))) in
  let mean := f_div (sum (data a)) n in
  let dev := map (fun x => f_sub x mean) (data a) in
  f_div (sum (map (fun x => f_mul x x) dev)) n.

Definition std (a : ndarray F) : F := f_sqrt (var a).

(** [np.linalg.norm(a)]: the square root of the sum of squares. *)
Definition norm (a : ndarray F) : F :=
  f_sqrt (sum (map (fun x => f_mul x x) (data a))).

(** [np.minimum] and [np.maximum]: a NaN on the left wins. *)
Definition minimum (x y : F) : F :=
  if f_ltb x y || f_isnan x then x else y.
Definition maximum (x y : F) : F :=
  if f_ltb y x || f_isnan x then x else y.

(** [np.min(a)] and [np.max(a)]: no identity on an empty array. *)
Definition min (a : ndarray F) : result F :=
  match data a with
  | [] => Raise ValueError
  | x :: d => Ok (fold_left minimum d x)
  end.
Definition max (a : ndarray F) : result F :=
  match data a with
  | [] => Raise ValueError
  | x :: d => Ok (fold_left maximum d x)
  end.

(** The order numpy sorts floats in: NaN after everything else. *)
Definition sort_lt (x y : F) : bool :=
  f_ltb x y || (f_isnan y && negb (f_isnan x)).

(** Insertion of index [i] into a list of indices sorted by key,
    after the indices whose key is not larger (a stable sort). *)
Fixpoint insert_idx (key : nat -> F) (i : nat) (sorted : list nat) : list nat :=
  match sorted with
  | [] => [i]
  | j :: rest =>
      if sort_lt (key i) (key j) then i :: j :: rest
      else j :: insert_idx key i rest
  end.

(** [np.argsort] of one row (insertion sort, which numpy uses on short
    runs; the order of equal keys is not relied upon below). *)
Definition argsort_row (row : list F) : list nat :=
  fold_left (fun sorted i => insert_idx (fun j => nth j row zero) i sorted)
            (seq 0 (length row)) [].

(** [np.argsort(a)]: along the last axis. *)
Definition argsort (a : ndarray F) : ndarray nat :=
  let m := last (shape a) 1 in
  let rows := length (data a) / m in
  mk_nd (shape a)
        (concat (map (fun r => argsort_row (chunk m r (data a))) (seq 0 rows))).

End Floating.

End Np.

Export Np.

(** ** The random generators *)

Module Rand.

(** The state of Python's [random] module: the raw draws still to come
    and how many were consumed. *)
Record py_generator : Type := mk_py {
  py_tape : nat -> N;
  py_pos : nat
}.

(** The state of [np.random]: raw 53-bit draws (for [rand]) and standard
    normal deviates (for [normal]), and how many were consumed. *)
Record np_generator (F : Type) : Type := mk_np {
  np_bits : nat -> N;
  np_gauss : nat -> F;
  np_pos : nat
}.

(** Everything a call can read or change besides its arguments: the two
    generators and the entropy [random.seed(None)] reseeds from. *)
Record world (F : Type) : Type := mk_world {
  py_random : py_generator;
  np_random : np_generator F;
  urandom : nat -> nat -> N;
  reseeds : nat
}.

End Rand.

Export Rand.

(** Computations that read the generators and may raise. *)
Definition M (F A : Type) : Type := world F -> result (A * world F).

Definition ret {F A} (a : A) : M F A := fun w => Ok (a, w).

Definition bind {F A B} (c : M F A) (k : A -> M F B) : M F B :=
  fun w => match c w with
           | Ok (a, w') => k a w'
           | Raise e => Raise e
           end.

Definition lift {F A} (c : result A) : M F A :=
  fun w => match c with
           | Ok a => Ok (a, w)
           | Raise e => Raise e
           end.

Notation "x <- c ;; k" := (bind c (fun x => k))
  (at level 61, c at next level, right associativity) : py_scope.

(** [[f(x) for x in xs]] for an effectful [f]. *)
Fixpoint mmap {F A B} (f : A -> M F B) (xs : list A) : M F (list B) :=
  match xs with
  | [] => ret []
  | x :: xs' => y <- f x ;; ys <- mmap f xs' ;; ret (y :: ys)
  end.

(** [for x in xs: s = body(x, s)]. *)
Fixpoint for_each {S} (xs : list nat) (body : nat -> S -> result S) (s : S)
  : result S :=
  match xs with
  | [] => Ok s
  | x :: xs' => s' <~ body x s ;; for_each xs' body s'
  end.

Section Runtime.
Context {F : Type} `{Scalar F}.

(** [a / b] on Python ints (also [a / float(b)]): the quotient of the
    two operands as floats, which is Python's result for operands below
    [2**53]. *)
Definition py_truediv (a b : Z) : result F :=
  if (b =? 0)%Z then Raise ZeroDivisionError
  else Ok (f_div (f_of_Z a) (f_of_Z b)).

(** The float literal [p/q], correctly rounded. *)
Definition py_float (p q : Z) : F := f_div (f_of_Z p) (f_of_Z q).

Definition two53 : Z := 9007199254740992.

(** A raw draw as a float in [[0, 1)]: [k / 2**53]. *)
Definition unit_float (raw : N) : F :=
  f_div (f_of_Z (Z.of_N raw mod two53)) (f_of_Z two53).

(** [random.seed(None)]: a fresh tape from the operating system. *)
Definition random_seed_none : M F unit :=
  fun w =>
    Ok (tt, mk_world (mk_py (urandom w (reseeds w)) 0) (np_random w)
                     (urandom w) (S (reseeds w))).

Definition py_next : M F N :=
  fun w =>
    let g := py_random w in
    Ok (py_tape g (py_pos g),
        mk_world (mk_py (py_tape g) (S (py_pos g))) (np_random w)
                 (urandom w) (reseeds w)).

(** [random._randbelow(n)] for [n > 0]. *)
Definition randbelow (n : nat) : M F nat :=
  r <- py_next ;; ret (N.to_nat r mod n).

(** [random.random()]. *)
Definition random_random : M F F :=
  r <- py_next ;; ret (unit_float r).

(** [random.choice(seq)] on an array. *)
Definition random_choice (seq : ndarray F) : M F (ndarray F) :=
  n <- lift (len seq) ;;
  if n =? 0 then lift (Raise IndexError)
  else i <- randbelow n ;; lift (getitem seq i).

Definition swap {A} (l : list A) (i j : nat) : list A :=
  match nth_error l i, nth_error l j with
  | Some a, Some b => list_set (list_set l i b) j a
  | _, _ => l
  end.

(** [random.shuffle(x)]:
    [for i in reversed(range(1, len(x))): j = randbelow(i + 1); swap]. *)
Fixpoint shuffle_from {A} (i : nat) (x : list A) : M F (list A) :=
  match i with
  | O => ret x
  | S i' => j <- randbelow (S i) ;; shuffle_from i' (swap x i j)
  end.

Definition random_shuffle {A} (x : list A) : M F (list A) :=
  shuffle_from (length x - 1) x.

Definition np_next : M F (N * F) :=
  fun w =>
    let g := np_random w in
    Ok ((np_bits g (np_pos g), np_gauss g (np_pos g)),
        mk_world (py_random w)
                 (mk_np (np_bits g) (np_gauss g) (S (np_pos g)))
                 (urandom w) (reseeds w)).

(** [np.random.normal(loc, scale)]: [loc + scale * z] for a standard
    normal deviate [z]. *)
Definition np_random_normal (loc scale : F) : M F F :=
  d <- np_next ;; ret (f_add loc (f_mul scale (snd d))).

(** [np.random.rand] at the given shape. *)
Definition np_random_rand (s : list nat) : M F (ndarray F) :=
  ds <- mmap (fun _ => d <- np_next ;; ret (unit_float (fst d)))
             (seq 0 (size s)) ;;
  ret (mk_nd s ds).

End Runtime.

(** ** The functions of helpers.py *)

Section Helpers.
Context {F : Type} `{Scalar F}.

(** The C extension [noise.pnoise2(x, y, octaves, persistence,
    lacunarity, repeatx, repeaty, base)]: a function of its arguments. *)
Variable pnoise2 : F -> F -> Z -> F -> F -> Z -> Z -> Z -> F.

(** *** crossover

    The parents are passed by reference and written in place, so the
    function is modelled on a store of arrays: a reference is an index
    into the store. *)

Definition ref : Type := nat.
Definition heap : Type := list (ndarray F).

Definition deref (h : heap) (r : ref) : result (ndarray F) := index h r.

(** [r.copy()]: a fresh array with the contents of [r]. *)
Definition heap_copy (h : heap) (r : ref) : result (ref * heap) :=
  a <~ deref h r ;; Ok (length h, h ++ [a]).

(** [r[...] = v]; the arrays of the store are [float32] grids, so the
    values written are cast by [f_store]. *)
Definition heap_assign (h : heap) (r : ref) (v : ndarray F) : result heap :=
  a <~ deref h r ;;
  a' <~ assign f_store a v ;;
  Ok (list_set h r a').

Definition heap_binop (f : F -> F -> F) (h : heap) (r1 r2 : ref)
  : result (ndarray F) :=
  a <~ deref h r1 ;; b <~ deref h r2 ;; binop f a b.

Definition crossover (par1 par2 : ref) (h : heap) : result ((ref * ref) * heap) :=
  t1 <~ heap_copy h par1 ;;
  let '(tmp1, h1) := t1 in
  t2 <~ heap_copy h1 par2 ;;
  let '(tmp2, h2) := t2 in
  s <~ heap_binop f_add h2 tmp1 tmp2 ;;
  h3 <~ heap_assign h2 par1 s ;;
  d <~ heap_binop f_sub h3 tmp1 tmp2 ;;
  h4 <~ heap_assign h3 par2 d ;;
  Ok ((par2, par2), h4).

(** *** mutate

    [individual] is a view of a population slot and is written in
    place; the function is modelled by the array it leaves in the view,
    which is also what it returns (as a 1-tuple). *)

(** The first two lines of [mutate]: the amplitude
    [20 * int(np.random.normal(0, np.sqrt(np.std(individual))))]. *)
Definition mutate_amplitude (individual : ndarray F) : M F Z :=
  mult <- np_random_normal (f_of_Z 0) (f_sqrt (std individual)) ;;
  k <- lift (f_int mult) ;;
  ret (20 * k)%Z.

Definition mutate (individual : ndarray F) : M F (list (ndarray F)) :=
  mult <- mutate_amplitude individual ;;
  u <- np_random_rand (shape individual) ;;
  mask <- lift (binop f_mul (scalar_nd (f_of_Z mult)) u) ;;
  moved <- lift (binop f_add individual mask) ;;
  individual' <- lift (assign f_store individual moved) ;;
  ret [individual'].

(** *** The fitness metrics *)

Definition loc_glbl_var (individual : ndarray F) : result F :=
  mids <~ rmap (fun x => q <~ py_truediv (Z.of_nat x) 2 ;;
                         z <~ f_int q ;; Ok (Z.to_nat z))
               (shape individual) ;;
  m0 <~ index mids 0 ;;
  m1 <~ index mids 1 ;;
  let h := nth 0 (shape individual) 0 in
  let w := nth 1 (shape individual) 0 in
  q1 <~ slice2 individual 0 m0 0 m1 ;;
  q2 <~ slice2 individual 0 m0 m1 w ;;
  q3 <~ slice2 individual m0 h 0 m1 ;;
  q4 <~ slice2 individual m0 h m1 w ;;
  let s1 := var q1 in
  let s2 := var q2 in
  let s3 := var q3 in
  let s4 := var q4 in
  Ok (f_sub (f_add (f_add (f_add s1 s2) s3) s4)
            (f_mul (f_of_Z 10) (var individual))).

Definition sea_level (individual : ndarray F) (target : F) : result F :=
  d <~ binop f_sub individual (scalar_nd target) ;;
  Ok (norm d).

Definition bedrock (individual : ndarray F) (target : F) : result F :=
  m <~ Np.min individual ;;
  Ok (norm (scalar_nd (f_sub m target))).

Definition mountains (individual : ndarray F) (target : F) : result F :=
  m <~ Np.max individual ;;
  Ok (norm (scalar_nd (f_sub m target))).

(** The default targets: 25.0, -2000.0 and 3500.0. *)
Definition sea_level_target : F := f_of_Z 25.
Definition bedrock_target : F := f_of_Z (-2000).
Definition mountains_target : F := f_of_Z 3500.

Definition score (individual : ndarray F) : result (list F) :=
  rmap (fun metric => metric individual)
       [ loc_glbl_var;
         (fun g => sea_level g sea_level_target);
         (fun g => bedrock g bedrock_target);
         (fun g => mountains g mountains_target) ].

(** *** Seeding *)

(** [grid[i, j] = v] on a 2-d array. *)
Definition set2 (grid : ndarray F) (i j : nat) (v : F) : result (ndarray F) :=
  match shape grid with
  | [h; w] =>
      if (i <? h) && (j <? w)
      then Ok (mk_nd (shape grid) (list_set (data grid) (i * w + j) (f_store v)))
      else Raise IndexError
  | _ => Raise IndexError
  end.

(** [grid[i, j]] on a 2-d array. *)
Definition get2 (grid : ndarray F) (i j : nat) : result F :=
  match shape grid with
  | [h; w] =>
      if (i <? h) && (j <? w) then index (data grid) (i * w + j)
      else Raise IndexError
  | _ => Raise IndexError
  end.

Definition generate_basic_perlin_noise (h w : Z) (octaves : Z)
    (persistence lacunarity : F) (repeatx repeaty base : Z)
  : M F (ndarray F) :=
  _ <- random_seed_none ;;
  grid <- lift (zeros [h; w]) ;;
  lift (for_each (range h) (fun i grid =>
          for_each (range w) (fun j grid =>
            x <~ py_truediv (Z.of_nat i) h ;;
            y <~ py_truediv (Z.of_nat j) w ;;
            set2 grid i j (pnoise2 x y octaves persistence lacunarity
                                   repeatx repeaty base))
          grid)
        grid).

(** The call with every keyword argument at its default. *)
Definition default_noise (h w : Z) : M F (ndarray F) :=
  generate_basic_perlin_noise h w 8 (py_float 1 2) (f_of_Z 2) 1024 1024 0.

Definition generate_original_population (h w pop_size : Z) : M F (ndarray F) :=
  grids <- mmap (fun _ => default_noise h w) (range pop_size) ;;
  lift (array grids).

(** *** One generation *)

Definition compute_population_fitness (population : ndarray F)
  : result (ndarray F) :=
  members <~ items population ;;
  scores <~ rmap score members ;;
  population_fitness <~ array (map (fun t => mk_nd [length t] t) scores) ;;
  let order := argsort population_fitness in
  take population order.

Definition select_from_population (sorted_population : ndarray F)
    (num_from_top num_from_random : Z) : M F (ndarray F) :=
  top <- lift (rmap (getitem sorted_population) (range num_from_top)) ;;
  lucky <- mmap (fun _ => c <- random_choice sorted_population ;;
                          lift (getitem c 0))
                (range num_from_random) ;;
  next_generation <- random_shuffle (top ++ lucky) ;;
  lift (array next_generation).

(** What the global name [breed] is bound to, when it is bound. *)
Definition breed_fn : Type := ndarray F -> ndarray F -> M F (ndarray F).

Definition call_breed (binding : option breed_fn) (a b : result (ndarray F))
  : M F (ndarray F) :=
  match binding with
  | None => lift (Raise (NameError "breed"))
  | Some f => x <- lift a ;; y <- lift b ;; f x y
  end.

(** [breed_population], for a given binding of [breed]. *)
Definition breed_population_with (binding : option breed_fn)
    (breeders : ndarray F) (number_of_children : Z) : M F (ndarray F) :=
  n <- lift (len breeders) ;;
  q <- lift (py_truediv (Z.of_nat n) 2) ;;
  pairs <- lift (f_ceil q) ;;
  next_population <-
    mmap (fun i =>
            mmap (fun _ => call_breed binding (getitem breeders i)
                                      (getitem breeders (n - 1 - i)))
                 (range number_of_children))
         (range pairs) ;;
  lift (array (concat next_population)).

(** helpers.py neither defines nor imports [breed] (see
    [module_globals]): the name is unbound when the call is reached. *)
Definition breed_population : ndarray F -> Z -> M F (ndarray F) :=
  breed_population_with None.

(** [mutate(population[i])].  The item of a population of rank 2 or
    more is a view, and [mutate] writes through it.  The item of a
    population of rank 1 is a numpy scalar: [mutate] computes its
    amplitude and its mask, and [individual[...] = ...] then raises
    [TypeError], a scalar supporting no item assignment. *)
Definition mutate_item (individual : ndarray F) : M F (list (ndarray F)) :=
  match shape individual with
  | [] =>
      mult <- mutate_amplitude individual ;;
      u <- np_random_rand (shape individual) ;;
      lift (Raise TypeError)
  | _ :: _ => mutate individual
  end.

(** The loop of [mutate_population].  When the test passes, [mutate]
    runs on the view [population[i]] and returns a 1-tuple holding it;
    the statement [population[i] = mutate(population[i])] then assigns
    that tuple to the slot ([setitem_seq]).  The tuple is nested one
    level deeper than the slot, so the assignment raises [ValueError];
    by then [mutate] has written the mutated cells through the view, but
    the exception ends the stage and that array is not returned. *)
Fixpoint mutate_loop (idxs : list nat) (mutation_chance : F)
    (population : ndarray F) : M F (ndarray F) :=
  match idxs with
  | [] => ret population
  | i :: rest =>
      r <- random_random ;;
      if f_ltb (f_mul r (f_of_Z 100)) mutation_chance then
        individual <- lift (getitem population i) ;;
        t <- mutate_item individual ;;
        population' <- lift (setitem_seq f_store population i t) ;;
        mutate_loop rest mutation_chance population'
      else mutate_loop rest mutation_chance population
  end.

Definition mutate_population (population : ndarray F) (mutation_chance : F)
  : M F (ndarray F) :=
  n <- lift (len population) ;;
  mutate_loop (seq 0 n) mutation_chance population.

(** *** The driver *)

Definition generation_with (binding : option breed_fn)
    (num_from_best num_from_random num_children : Z)
    (population : ndarray F) : M F (ndarray F) :=
  population <- lift (compute_population_fitness population) ;;
  selection <- select_from_population population num_from_best num_from_random ;;
  children <- breed_population_with binding selection num_children ;;
  mutate_population children (py_float 3 10).

Fixpoint generations_with (binding : option breed_fn) (count : nat)
    (num_from_best num_from_random num_children : Z)
    (population : ndarray F) : M F (ndarray F) :=
  match count with
  | O => ret population
  | S count' =>
      population <- generation_with binding num_from_best num_from_random
                                    num_children population ;;
      generations_with binding count' num_from_best num_from_random
                       num_children population
  end.

Definition run_genetic_algorithm_with (binding : option breed_fn)
    (h w generations population_size num_children : Z) : M F (ndarray F) :=
  population <- generate_original_population h w population_size ;;
  q <- lift (py_truediv population_size num_children) ;;
  num_from_best <- lift (f_ceil (f_mul q (py_float 3 4))) ;;
  q' <- lift (py_truediv population_size num_children) ;;
  num_from_random <- lift (f_floor (f_mul q' (py_float 1 4))) ;;
  generations_with binding (Z.to_nat generations)
                   num_from_best num_from_random num_children population.

Definition run_genetic_algorithm : Z -> Z -> Z -> Z -> Z -> M F (ndarray F) :=
  run_genetic_algorithm_with None.

(** [generate(H, W, octaves=1)]: [octaves] is accepted and not used. *)
Definition generate (H0 W0 : Z) (octaves : Z) : M F (ndarray F) :=
  population <- run_genetic_algorithm H0 W0 10 4 2 ;;
  lift (getitem population 0).

End Helpers.

(** The value a computation returns, the final state of the generators
    left out. *)
Definition value {F A} (c : result (A * world F)) : result A :=
  match c with
  | Ok (a, _) => Ok a
  | Raise e => Raise e
  end.

(** ** Vocabulary of the statements *)

(** An array holds as many elements as its shape says. *)
Definition well_formed {A} (a : ndarray A) : Prop :=
  length (data a) = size (shape a).

(** The individuals [a[0]], ..., [a[k-1]] of a population. *)
Definition leading {A} (a : ndarray A) (k : nat) : list (ndarray A) :=
  match shape a with
  | [] => []
  | _ :: s => map (fun i => mk_nd s (chunk (size s) i (data a))) (seq 0 k)
  end.

(** A metric, as a function of the level [c] of a constant grid, is
    monotone when it never goes down as [c] goes up, or never goes up. *)
Definition monotone {F} `{Scalar F} (metric : F -> result F) : Prop :=
  (forall c1 c2 m1 m2,
      f_ltb c1 c2 = true -> metric c1 = Ok m1 -> metric c2 = Ok m2 ->
      f_ltb m2 m1 = false) \/
  (forall c1 c2 m1 m2,
      f_ltb c1 c2 = true -> metric c1 = Ok m1 -> metric c2 = Ok m2 ->
      f_ltb m1 m2 = false).

(** ** Concrete inputs for the examples *)

Module Demo.

(** A noise function: the sum of the two coordinates. *)
Definition noise (x y : spec_float) (octaves : Z)
           (persistence lacunarity : spec_float) (repeatx repeaty base : Z)
  : spec_float := f_add x y.

(** Generators whose raw draws are all 0 and whose normal deviates are
    all 1.0. *)
Definition world0 : world spec_float :=
  mk_world (mk_py (fun _ => 0%N) 0)
           (mk_np (fun _ => 0%N) (fun _ => Binary64.of_Z 1) 0)
           (fun _ _ => 0%N) 0.

(** A store holding two 1x1 parents, both [[1.0]]. *)
Definition parents : heap (F := spec_float) :=
  [ full [1; 1] (Binary64.of_Z 1); full [1; 1] (Binary64.of_Z 1) ].

(** Four 8x8 grids of zeros. *)
Definition flat_population : ndarray spec_float :=
  full [4; 8; 8] (Binary64.of_Z 0).

(** Two 2x2 grids of zeros, ranked. *)
Definition ranked_pair : ndarray spec_float :=
  full [2; 2; 2] (Binary64.of_Z 0).

(** One 1x2 individual, [[0.0, 8.0]]: its standard deviation is 4. *)
Definition rough_individual : ndarray spec_float :=
  mk_nd [1; 2] [Binary64.of_Z 0; Binary64.of_Z 8].

Definition rough_population : ndarray spec_float :=
  mk_nd [1; 1; 2] [Binary64.of_Z 0; Binary64.of_Z 8].

End Demo.

(** ** The functions of helpers.py outside the pipeline *)

(** [np.abs] on floats: the sign bit cleared. *)
Class ScalarAbs (F : Type) : Type := {
  f_abs : F -> F
}.

#[global] Instance binary64_abs : ScalarAbs spec_float := {
  f_abs := SFabs
}.

(** [t[i]] for a Python int [i] on an axis of extent [n]: a negative
    index counts from the end. *)
Definition py_index (i : Z) (n : nat) : result nat :=
  if ((0 <=? i) && (i <? Z.of_nat n))%Z then Ok (Z.to_nat i)
  else if ((i <? 0) && (- Z.of_nat n <=? i))%Z
       then Ok (Z.to_nat (i + Z.of_nat n))
       else Raise IndexError.

(** A bound of the slice [t[a:b]] on an axis of extent [n]: a negative
    bound counts from the end, and the bound is then clipped to
    [0 .. n]. *)
Definition slice_bound (i : Z) (n : nat) : nat :=
  if (i <? 0)%Z then Z.to_nat (Z.max 0 (i + Z.of_nat n))
  else Nat.min (Z.to_nat i) n.

Section OtherHelpers.
Context {F : Type} `{Scalar F}.

(** [init_once(cls, fn)]: [cls(fn())]. *)
Definition init_once {A B} (cls : A -> M F B) (fn : unit -> M F A) : M F B :=
  x <- fn tt ;; cls x.

(** *** crossover2

    Like [crossover], the function writes through its arguments and is
    modelled on the store.  A [.copy()] whose result is only read is the
    contents of the array. *)

(** The four lines that turn a matrix of weights into
    [(weightings - min) / (max - min)]. *)
Definition normalized_weights (weightings : ndarray F) : result (ndarray F) :=
  max_weight <~ Np.max weightings ;;
  min_weight <~ Np.min weightings ;;
  shifted <~ binop f_sub weightings (scalar_nd min_weight) ;;
  binop f_div shifted (scalar_nd (f_sub max_weight min_weight)).

(** [(member1.copy() * weightings) + (member2.copy() * (1 - weightings))]. *)
Definition weighted_blend (hp : heap (F := F)) (member1 member2 : ref)
    (weightings : ndarray F) : result (ndarray F) :=
  a <~ deref hp member1 ;;
  left <~ binop f_mul a weightings ;;
  b <~ deref hp member2 ;;
  rest <~ binop f_sub (scalar_nd (f_of_Z 1)) weightings ;;
  right <~ binop f_mul b rest ;;
  binop f_add left right.

Definition crossover2 (member1 member2 : ref) (hp : heap (F := F))
  : M F ((ref * ref) * heap (F := F)) :=
  m <- lift (deref hp member1) ;;
  h <- lift (index (shape m) 0) ;;
  w <- lift (index (shape m) 1) ;;
  weightings1 <- np_random_rand [h; w] ;;
  weightings1 <- lift (normalized_weights weightings1) ;;
  child1 <- lift (weighted_blend hp member1 member2 weightings1) ;;
  hp1 <- lift (heap_assign hp member1 child1) ;;
  weightings2 <- np_random_rand [h; w] ;;
  weightings2 <- lift (normalized_weights weightings2) ;;
  child2 <- lift (weighted_blend hp1 member1 member2 weightings2) ;;
  hp2 <- lift (heap_assign hp1 member2 child2) ;;
  ret ((member1, member2), hp2).

(** *** mutate2

    As [mutate], with [100] for [20]; modelled the same way. *)

Definition mutate2_amplitude (grid : ndarray F) : M F Z :=
  mult <- np_random_normal (f_of_Z 0) (f_sqrt (std grid)) ;;
  k <- lift (f_int mult) ;;
  ret (100 * k)%Z.

Definition mutate2 (grid : ndarray F) : M F (list (ndarray F)) :=
  mult <- mutate2_amplitude grid ;;
  u <- np_random_rand (shape grid) ;;
  mask <- lift (binop f_mul (scalar_nd (f_of_Z mult)) u) ;;
  moved <- lift (binop f_add grid mask) ;;
  grid' <- lift (assign f_store grid moved) ;;
  ret [grid'].

(** *** perlin_rand

    The arguments are passed on to [generate_basic_perlin_noise]; the
    product [100 * grid] is an array of the grid's [float32]. *)

Section PerlinRand.
Variable pnoise2 : F -> F -> Z -> F -> F -> Z -> Z -> Z -> F.

Definition perlin_rand (h w : Z) (octaves : Z)
    (persistence lacunarity : F) (repeatx repeaty base : Z)
  : M F (ndarray F) :=
  noise_grid <- generate_basic_perlin_noise pnoise2 h w octaves persistence
                                            lacunarity repeatx repeaty base ;;
  scaled <- lift (binop f_mul (scalar_nd (f_of_Z 100)) noise_grid) ;;
  let grid := mk_nd (shape scaled) (map f_store (data scaled)) in
  mult <- np_random_normal (f_of_Z 0) (f_mul (f_of_Z 3) (std grid)) ;;
  k <- lift (f_int mult) ;;
  let mult := (100 * k)%Z in
  u <- np_random_rand (shape grid) ;;
  mask <- lift (binop f_mul (scalar_nd (f_of_Z mult)) u) ;;
  lift (binop f_add grid mask).

End PerlinRand.

(** *** analyze_cell

    [CELL_LENGTH] is imported from [tgt.preferences]; the function is
    modelled for any integer value of it. *)

Section Neighbourhood.
Context `{ScalarAbs F}.
Variable CELL_LENGTH : Z.

(** [grid[x, y]]. *)
Definition getitem2 (grid : ndarray F) (x y : Z) : result (ndarray F) :=
  match shape grid with
  | h :: w :: rest =>
      i <~ py_index x h ;;
      j <~ py_index y w ;;
      Ok (mk_nd rest (chunk (size rest) (i * w + j) (data grid)))
  | _ => Raise IndexError
  end.

(** The lines from [h = grid.shape[0]] to [cell = grid[a:b, c:d]]: the
    row bounds [a], [b] are compared with the width and the column
    bounds [c], [d] with the height, as the source has it. *)
Definition analyze_window (grid : ndarray F) (x y : Z) : result (ndarray F) :=
  h <~ index (shape grid) 0 ;;
  w <~ index (shape grid) 1 ;;
  let a := if (CELL_LENGTH <=? x)%Z then (x - CELL_LENGTH)%Z else 0%Z in
  let b := if (x + CELL_LENGTH <? Z.of_nat w)%Z then (x + CELL_LENGTH)%Z
           else (Z.of_nat w - 1)%Z in
  let c := if (CELL_LENGTH <=? y)%Z then (y - CELL_LENGTH)%Z else 0%Z in
  let d := if (y + CELL_LENGTH <? Z.of_nat h)%Z then (y + CELL_LENGTH)%Z
           else (Z.of_nat h - 1)%Z in
  slice2 grid (slice_bound a h) (slice_bound b h)
              (slice_bound c w) (slice_bound d w).

Definition analyze_cell (grid : ndarray F) (x y : Z) : result (F * F) :=
  compare <~ getitem2 grid x y ;;
  cell <~ analyze_window grid x y ;;
  diff <~ binop f_sub cell compare ;;
  let total_diff := sum (map f_abs (data diff)) in
  let total_height := sum (data cell) in
  Ok (total_diff, f_div total_height (f_of_Z ((CELL_LENGTH + 1) ^ 2))).

End Neighbourhood.

End OtherHelpers.

(** ** Further vocabulary of the statements *)

(** The state after [n] draws from [np.random]. *)
Definition np_advance {F} (n : nat) (w : world F) : world F :=
  mk_world (py_random w)
           (mk_np (np_bits (np_random w)) (np_gauss (np_random w))
                  (np_pos (np_random w) + n))
           (urandom w) (reseeds w).

(** The uniform number the [i]-th coming draw of [np.random] gives. *)
Definition np_coming {F} `{Scalar F} (w : world F) (i : nat) : F :=
  unit_float (np_bits (np_random w) (np_pos (np_random w) + i)).

(** The state after [n] values were drawn from [random]. *)
Definition py_advance {F} (n : nat) (w : world F) : world F :=
  mk_world (mk_py (py_tape (py_random w)) (py_pos (py_random w) + n))
           (np_random w) (urandom w) (reseeds w).

(** The [i]-th coming value of [random.random()]. *)
Definition py_coming {F} `{Scalar F} (w : world F) (i : nat) : F :=
  unit_float (py_tape (py_random w) (py_pos (py_random w) + i)).

(** Above zero: a finite number or an infinity whose sign bit is
    clear. *)
Definition above_zero (x : spec_float) : Prop :=
  match x with
  | S754_finite false _ _ | S754_infinity false => True
  | _ => False
  end.

(** The weights [crossover2] computes from one batch of draws,
    [(u - min) / (max - min)], and the cells of a blend
    [p1 * t + p2 * (1 - t)]. *)
Definition batch_weights {F} `{Scalar F} (us : list F) : list F :=
  match us with
  | [] => []
  | u :: rest =>
      let mx := fold_left maximum rest u in
      let mn := fold_left minimum rest u in
      map (fun x => f_div (f_sub x mn) (f_sub mx mn)) us
  end.

Definition blend_cells {F} `{Scalar F} (d1 d2 t : list F) : list F :=
  zip_with f_add (zip_with f_mul d1 t)
           (zip_with f_mul d2 (map (fun x => f_sub (f_of_Z 1) x) t)).

(** ** Further concrete inputs for the examples *)

Module Samples.

(** Two 1x2 individuals, both [[0.0, 8.0]]. *)
Definition rough_pair : ndarray spec_float :=
  mk_nd [2; 1; 2] [Binary64.of_Z 0; Binary64.of_Z 8;
                   Binary64.of_Z 0; Binary64.of_Z 8].

(** Generators as [Demo.world0], except that the first value of
    [random.random()] is 0.5. *)
Definition late_world : world spec_float :=
  mk_world (mk_py (fun i => if i =? 0 then 4503599627370496%N else 0%N) 0)
           (mk_np (fun _ => 0%N) (fun _ => Binary64.of_Z 1) 0)
           (fun _ _ => 0%N) 0.

(** The 1-d array [0.0, 8.0]. *)
Definition flat_row : ndarray spec_float :=
  mk_nd [2] [Binary64.of_Z 0; Binary64.of_Z 8].

(** A grid with no row, of shape [(0, 2)]. *)
Definition empty_grid : ndarray spec_float := mk_nd [0; 2] [].

(** A 3x1 grid of zeros: more rows than columns. *)
Definition tall_grid : ndarray spec_float := full [3; 1] (Binary64.of_Z 0).

End Samples.

(** * Proofs *)

Unset Implicit Arguments.

(** * Facts about lists and arrays *)

Section ListFacts.
Context {A : Type}.

Lemma list_set_length (l : list A) i x : length (list_set l i x) = length l.
Proof.
  revert i; induction l as [|a l IH]; intros [|i]; simpl; auto.
Qed.

Lemma list_set_nth_same (l : list A) i x :
  i < length l -> nth_error (list_set l i x) i = Some x.
Proof.
  revert i; induction l as [|a l IH]; intros [|i] Hi; simpl in *; try lia; auto.
  apply IH; lia.
Qed.

Lemma list_set_nth_other (l : list A) i j x :
  i <> j -> nth_error (list_set l i x) j = nth_error l j.
Proof.
  revert i j; induction l as [|a l IH]; intros [|i] [|j] Hij; simpl; auto;
    try congruence.
Qed.

Lemma chunk_length (k i : nat) (d : list A) :
  (i + 1) * k <= length d -> length (chunk k i d) = k.
Proof.
  intros Hk. unfold chunk. rewrite length_firstn, length_skipn. lia.
Qed.

Lemma chunk_concat (k : nat) (blocks : list (list A)) i b :
  Forall (fun x => length x = k) blocks ->
  nth_error blocks i = Some b ->
  chunk k i (concat blocks) = b.
Proof.
  unfold chunk. revert i.
  induction blocks as [|c blocks IH]; intros [|i] Hall Hnth;
    simpl in *; try discriminate.
  - inversion Hnth; subst c. inversion Hall; subst.
    rewrite firstn_app, Nat.sub_diag, firstn_all. simpl. apply app_nil_r.
  - inversion Hall as [|? ? Hc Hrest]; subst.
    rewrite skipn_app.
    rewrite (skipn_all2 c) by lia. simpl.
    replace (length c + i * length c - length c) with (i * length c) by lia.
    apply IH; auto.
Qed.

Lemma concat_length_uniform (k : nat) (blocks : list (list A)) :
  Forall (fun x => length x = k) blocks ->
  length (concat blocks) = length blocks * k.
Proof.
  induction 1 as [|c blocks Hc _ IH]; simpl; auto.
  rewrite length_app, IH, Hc. reflexivity.
Qed.

End ListFacts.

Lemma size_cons n s : size (n :: s) = n * size s.
Proof. reflexivity. Qed.

Lemma shape_eqb_refl s : shape_eqb s s = true.
Proof. unfold shape_eqb. destruct (list_eq_dec Nat.eq_dec s s); congruence. Qed.

Lemma shape_eqb_eq s t : shape_eqb s t = true <-> s = t.
Proof.
  unfold shape_eqb. destruct (list_eq_dec Nat.eq_dec s t); split; congruence.
Qed.

(** ** Results and the generator monad *)

Lemma rmap_ok {A B} (f : A -> result B) (g : A -> B) (xs : list A) :
  (forall x, In x xs -> f x = Ok (g x)) -> rmap f xs = Ok (map g xs).
Proof.
  induction xs as [|x xs IH]; intros Hf; simpl; auto.
  rewrite (Hf x) by (left; reflexivity). simpl.
  rewrite IH by (intros; apply Hf; right; assumption). reflexivity.
Qed.

Lemma rmap_length {A B} (f : A -> result B) xs ys :
  rmap f xs = Ok ys -> length ys = length xs.
Proof.
  revert ys; induction xs as [|x xs IH]; simpl; intros ys Hr.
  - inversion Hr; reflexivity.
  - destruct (f x); simpl in Hr; try discriminate.
    destruct (rmap f xs); simpl in Hr; try discriminate.
    inversion Hr; subst; simpl. f_equal. apply IH. reflexivity.
Qed.

Lemma rmap_Forall {A B} (f : A -> result B) (P : B -> Prop) xs ys :
  (forall x y, In x xs -> f x = Ok y -> P y) ->
  rmap f xs = Ok ys -> Forall P ys.
Proof.
  revert ys; induction xs as [|x xs IH]; simpl; intros ys Hp Hr.
  - inversion Hr; constructor.
  - destruct (f x) eqn:Hx; simpl in Hr; try discriminate.
    destruct (rmap f xs) eqn:Hxs; simpl in Hr; try discriminate.
    inversion Hr; subst. constructor.
    + apply (Hp x); [left; reflexivity | assumption].
    + apply IH; [ | reflexivity].
      intros x' y' Hin Hy. apply (Hp x'); [right; assumption | assumption].
Qed.

Lemma rmap_total {A B} (f : A -> result B) (P : B -> Prop) (xs : list A) :
  (forall x, In x xs -> exists y, f x = Ok y /\ P y) ->
  exists ys, rmap f xs = Ok ys /\ Forall P ys /\ length ys = length xs.
Proof.
  induction xs as [|x xs IH]; intros Hf; simpl.
  - exists []. repeat split; constructor.
  - destruct (Hf x) as (y & Hy & Py); [left; reflexivity|].
    destruct IH as (ys & Hys & Pys & Hl);
      [intros x' Hx'; apply Hf; right; assumption|].
    exists (y :: ys). rewrite Hy, Hys. simpl. repeat split; auto.
Qed.

Lemma lin_index_div i j W : j < W -> (i * W + j) / W = i.
Proof.
  intros Hj. symmetry. apply (Nat.div_unique _ _ _ j); auto. lia.
Qed.

Lemma lin_index_mod i j W : j < W -> (i * W + j) mod W = j.
Proof.
  intros Hj. symmetry. apply (Nat.mod_unique _ _ i); auto. lia.
Qed.

(** ** The noise field *)

Section NoiseFacts.
Context {F : Type} `{Scalar F}.
Variable pnoise2 : F -> F -> Z -> F -> F -> Z -> Z -> Z -> F.
Variables (h w octaves : Z) (persistence lacunarity : F)
          (repeatx repeaty base : Z).

(** The sample stored at row [i], column [j]. *)
Local Abbreviation sample i j :=
  (f_store (pnoise2 (f_div (f_of_Z (Z.of_nat i)) (f_of_Z h))
                    (f_div (f_of_Z (Z.of_nat j)) (f_of_Z w))
                    octaves persistence lacunarity repeatx repeaty base)).

Local Abbreviation cell W p := (sample (p / W) (p mod W)).

Local Abbreviation body i :=
  (fun (j : nat) (grid : ndarray F) =>
     x <~ py_truediv (Z.of_nat i) h ;;
     y <~ py_truediv (Z.of_nat j) w ;;
     set2 grid i j (pnoise2 x y octaves persistence lacunarity
                            repeatx repeaty base)).

Local Abbreviation n_rows := (Z.to_nat h).
Local Abbreviation n_cols := (Z.to_nat w).

Lemma noise_body_ok (i j : nat) (grid : ndarray F) :
  shape grid = [n_rows; n_cols] -> i < n_rows -> j < n_cols ->
  body i j grid =
    Ok (mk_nd [n_rows; n_cols] (list_set (data grid) (i * n_cols + j) (sample i j))).
Proof.
  intros Hs Hi Hj. unfold py_truediv.
  destruct (Z.eqb_spec h 0); [lia|].
  destruct (Z.eqb_spec w 0); [lia|].
  simpl. unfold set2. rewrite Hs.
  apply Nat.ltb_lt in Hi, Hj. rewrite Hi, Hj. reflexivity.
Qed.

Lemma noise_row_ok (i : nat) :
  i < n_rows ->
  forall n j0 grid,
    shape grid = [n_rows; n_cols] -> length (data grid) = n_rows * n_cols -> j0 + n <= n_cols ->
    exists grid',
      for_each (seq j0 n) (body i) grid = Ok grid' /\
      shape grid' = [n_rows; n_cols] /\
      length (data grid') = n_rows * n_cols /\
      forall p, nth_error (data grid') p =
                if (i * n_cols + j0 <=? p) && (p <? i * n_cols + j0 + n)
                then Some (cell n_cols p) else nth_error (data grid) p.
Proof.
  intros Hi. induction n as [|n IH]; intros j0 grid Hs Hl Hn.
  - exists grid. simpl. repeat split; auto. intros p.
    destruct (i * n_cols + j0 <=? p) eqn:E1; simpl; auto.
    destruct (p <? i * n_cols + j0 + 0) eqn:E2; auto.
    apply Nat.leb_le in E1. apply Nat.ltb_lt in E2. lia.
  - simpl. rewrite (noise_body_ok i j0 grid) by (auto; lia).
    simpl.
    destruct (IH (S j0)
                (mk_nd [n_rows; n_cols] (list_set (data grid) (i * n_cols + j0) (sample i j0))))
      as (grid' & He & Hs' & Hl' & Hp); simpl; auto.
    { rewrite list_set_length; auto. }
    { lia. }
    exists grid'. repeat split; auto. intros p. rewrite Hp. simpl.
    assert (Hlt : i * n_cols + j0 < length (data grid)) by nia.
    destruct (Nat.eq_dec p (i * n_cols + j0)) as [->|Hne].
    + rewrite list_set_nth_same by assumption.
      replace (i * n_cols + S j0 <=? i * n_cols + j0) with false
        by (symmetry; apply Nat.leb_gt; lia).
      replace (i * n_cols + j0 <=? i * n_cols + j0) with true
        by (symmetry; apply Nat.leb_le; lia).
      replace (i * n_cols + j0 <? i * n_cols + j0 + S n) with true
        by (symmetry; apply Nat.ltb_lt; lia).
      simpl.
      rewrite lin_index_div, lin_index_mod by lia. reflexivity.
    + rewrite list_set_nth_other by congruence.
      destruct (i * n_cols + S j0 <=? p) eqn:E1;
        destruct (i * n_cols + j0 <=? p) eqn:E2;
        destruct (p <? i * n_cols + S j0 + n) eqn:E3;
        destruct (p <? i * n_cols + j0 + S n) eqn:E4; simpl; auto;
        repeat match goal with
               | E : (_ <=? _) = true |- _ => apply Nat.leb_le in E
               | E : (_ <=? _) = false |- _ => apply Nat.leb_gt in E
               | E : (_ <? _) = true |- _ => apply Nat.ltb_lt in E
               | E : (_ <? _) = false |- _ => apply Nat.ltb_ge in E
               end; lia.
Qed.

Lemma noise_rows_ok :
  forall n i0 grid,
    shape grid = [n_rows; n_cols] -> length (data grid) = n_rows * n_cols -> i0 + n <= n_rows ->
    exists grid',
      for_each (seq i0 n)
               (fun i g => for_each (seq 0 n_cols) (body i) g) grid = Ok grid' /\
      shape grid' = [n_rows; n_cols] /\
      length (data grid') = n_rows * n_cols /\
      forall p, nth_error (data grid') p =
                if (i0 * n_cols <=? p) && (p <? (i0 + n) * n_cols)
                then Some (cell n_cols p) else nth_error (data grid) p.
Proof.
  induction n as [|n IH]; intros i0 grid Hs Hl Hn.
  - exists grid. simpl. repeat split; auto. intros p.
    destruct (i0 * n_cols <=? p) eqn:E1; simpl; auto.
    destruct (p <? (i0 + 0) * n_cols) eqn:E2; auto.
    apply Nat.leb_le in E1. apply Nat.ltb_lt in E2. lia.
  - simpl.
    destruct (noise_row_ok i0 ltac:(lia) n_cols 0 grid Hs Hl ltac:(lia))
      as (g1 & He1 & Hs1 & Hl1 & Hp1).
    rewrite He1. simpl.
    destruct (IH (S i0) g1 Hs1 Hl1 ltac:(lia)) as (g2 & He2 & Hs2 & Hl2 & Hp2).
    exists g2. repeat split; auto. intros p. rewrite Hp2, Hp1.
    destruct (S i0 * n_cols <=? p) eqn:E1;
      destruct (p <? (S i0 + n) * n_cols) eqn:E2;
      destruct (i0 * n_cols + 0 <=? p) eqn:E3;
      destruct (p <? i0 * n_cols + 0 + n_cols) eqn:E4;
      destruct (i0 * n_cols <=? p) eqn:E5;
      destruct (p <? (i0 + S n) * n_cols) eqn:E6; simpl; auto;
      repeat match goal with
             | E : (_ <=? _) = true |- _ => apply Nat.leb_le in E
             | E : (_ <=? _) = false |- _ => apply Nat.leb_gt in E
             | E : (_ <? _) = true |- _ => apply Nat.ltb_lt in E
             | E : (_ <? _) = false |- _ => apply Nat.ltb_ge in E
             end; nia.
Qed.

(** The call reseeds [random] and, that apart, is a function of its
    arguments. *)
Lemma noise_reads_no_generator (world : world F) :
  generate_basic_perlin_noise pnoise2 h w octaves persistence lacunarity
                              repeatx repeaty base world =
  match (grid <~ zeros [h; w] ;;
         for_each (range h) (fun i g => for_each (range w) (body i) g) grid)
  with
  | Ok grid => Ok (grid, mk_world (mk_py (urandom world (reseeds world)) 0)
                                  (np_random world) (urandom world)
                                  (S (reseeds world)))
  | Raise e => Raise e
  end.
Proof.
  unfold generate_basic_perlin_noise, bind, random_seed_none, lift.
  destruct (zeros [h; w]) as [grid|e]; simpl; auto.
Qed.

Lemma noise_grid_ok :
  (0 <= h)%Z -> (0 <= w)%Z ->
  exists grid,
    (grid0 <~ zeros [h; w] ;;
     for_each (range h) (fun i g => for_each (range w) (body i) g) grid0)
    = Ok grid /\
    shape grid = [n_rows; n_cols] /\
    length (data grid) = n_rows * n_cols /\
    forall i j, i < n_rows -> j < n_cols -> get2 grid i j = Ok (sample i j).
Proof.
  intros Hh Hw. unfold zeros. simpl.
  destruct (Z.leb_spec 0 h); [|lia]. destruct (Z.leb_spec 0 w); [|lia].
  simpl. unfold range.
  destruct (noise_rows_ok n_rows 0 (full [n_rows; n_cols] zero))
    as (grid & He & Hs & Hl & Hp); simpl; auto.
  { rewrite repeat_length. lia. }
  exists grid. repeat split; auto.
  intros i j Hi Hj. unfold get2. rewrite Hs.
  apply Nat.ltb_lt in Hi, Hj. rewrite Hi, Hj. simpl.
  unfold Py.index. rewrite Hp. simpl.
  apply Nat.ltb_lt in Hi, Hj.
  replace (0 <=? i * n_cols + j) with true by (symmetry; apply Nat.leb_le; lia).
  replace (i * n_cols + j <? n_rows * n_cols) with true
    by (symmetry; apply Nat.ltb_lt; nia).
  simpl. rewrite lin_index_div, lin_index_mod by lia.
  reflexivity.
Qed.

End NoiseFacts.

Section MonadFacts.
Context {F : Type}.

Lemma bind_ok {A B} (c : M F A) (k : A -> M F B) w a w' :
  c w = Ok (a, w') -> bind c k w = k a w'.
Proof. intros Hc. unfold bind. rewrite Hc. reflexivity. Qed.

Lemma bind_raise {A B} (c : M F A) (k : A -> M F B) w e :
  c w = Raise e -> bind c k w = Raise e.
Proof. intros Hc. unfold bind. rewrite Hc. reflexivity. Qed.

Lemma bind_inv {A B} (c : M F A) (k : A -> M F B) w b w' :
  bind c k w = Ok (b, w') ->
  exists a w1, c w = Ok (a, w1) /\ k a w1 = Ok (b, w').
Proof.
  unfold bind. destruct (c w) as [[a w1]|e]; [|discriminate].
  intros Hk. exists a, w1. auto.
Qed.

Lemma lift_ok {A} (a : A) (w : world F) : lift (Ok a) w = Ok (a, w).
Proof. reflexivity. Qed.

Lemma lift_inv {A} (c : result A) (w : world F) a w' :
  lift c w = Ok (a, w') -> c = Ok a /\ w' = w.
Proof.
  unfold lift. destruct c; [|discriminate]. intros E; inversion E; auto.
Qed.

Lemma mmap_length {A B} (f : A -> M F B) xs :
  forall w ys w', mmap f xs w = Ok (ys, w') -> length ys = length xs.
Proof.
  induction xs as [|x xs IH]; simpl; intros w ys w' Hm.
  - inversion Hm; reflexivity.
  - apply bind_inv in Hm. destruct Hm as (y & w1 & _ & Hm).
    apply bind_inv in Hm. destruct Hm as (ys' & w2 & Hxs & Hm).
    inversion Hm; subst. simpl. f_equal. eapply IH; eauto.
Qed.

Lemma mmap_Forall {A B} (f : A -> M F B) (P : B -> Prop) xs :
  (forall x w y w', f x w = Ok (y, w') -> P y) ->
  forall w ys w', mmap f xs w = Ok (ys, w') -> Forall P ys.
Proof.
  intros Hp. induction xs as [|x xs IH]; simpl; intros w ys w' Hm.
  - inversion Hm; constructor.
  - apply bind_inv in Hm. destruct Hm as (y & w1 & Hy & Hm).
    apply bind_inv in Hm. destruct Hm as (ys' & w2 & Hxs & Hm).
    inversion Hm; subst. constructor; eauto.
Qed.

(** A comprehension whose body always returns the same value. *)
Lemma mmap_const {A B} (c : M F B) (b : B) :
  (forall w, exists w', c w = Ok (b, w')) ->
  forall (xs : list A) w,
    exists w', mmap (fun _ => c) xs w = Ok (repeat b (length xs), w').
Proof.
  intros Hc. induction xs as [|x xs IH]; intros w; simpl.
  - exists w. reflexivity.
  - destruct (Hc w) as (w1 & H1). destruct (IH w1) as (w2 & H2).
    exists w2. erewrite bind_ok by exact H1. erewrite bind_ok by exact H2. reflexivity.
Qed.

End MonadFacts.

(** ** Arrays: stacking, items, broadcasting *)

Section ArrayFacts.
Context {A : Type}.

Lemma array_uniform (xs : list (ndarray A)) (s : list nat) :
  xs <> [] -> Forall (fun x => shape x = s) xs ->
  array xs = Ok (mk_nd (length xs :: s) (concat (map (@data A) xs))).
Proof.
  intros Hne Hall. destruct xs as [|x rest]; [congruence|].
  inversion Hall as [|? ? Hx Hrest]; subst. unfold array.
  replace (forallb (fun y => shape_eqb (shape x) (shape y)) rest) with true.
  - reflexivity.
  - symmetry. apply forallb_forall. intros y Hy.
    rewrite Forall_forall in Hrest. rewrite (Hrest y Hy).
    apply shape_eqb_refl.
Qed.

Lemma array_len (xs : list (ndarray A)) a :
  array xs = Ok a -> len a = Ok (length xs).
Proof.
  unfold array. destruct xs as [|x rest].
  - intros E; inversion E; reflexivity.
  - destruct (forallb _ rest); [|discriminate].
    intros E; inversion E; reflexivity.
Qed.

Lemma array_ragged (xs : list (ndarray A)) x y :
  In x xs -> In y xs -> shape x <> shape y -> array xs = Raise ValueError.
Proof.
  intros Hx Hy Hne. unfold array. destruct xs as [|z rest]; [contradiction|].
  destruct (forallb (fun y0 => shape_eqb (shape z) (shape y0)) rest) eqn:E;
    [|reflexivity].
  exfalso. rewrite forallb_forall in E.
  assert (Hz : forall u, In u (z :: rest) -> shape u = shape z).
  { intros u [->|Hu]; auto. symmetry. apply shape_eqb_eq. apply E; auto. }
  apply Hne. rewrite (Hz x Hx), (Hz y Hy). reflexivity.
Qed.

Lemma getitem_ok (a : ndarray A) n s i :
  shape a = n :: s -> i < n ->
  getitem a i = Ok (mk_nd s (chunk (size s) i (data a))).
Proof.
  intros Hs Hi. unfold getitem. rewrite Hs.
  apply Nat.ltb_lt in Hi. rewrite Hi. reflexivity.
Qed.

Lemma getitem_out (a : ndarray A) n s i :
  shape a = n :: s -> n <= i -> getitem a i = Raise IndexError.
Proof.
  intros Hs Hi. unfold getitem. rewrite Hs.
  apply Nat.ltb_ge in Hi. rewrite Hi. reflexivity.
Qed.

Lemma getitem_shape (a b : ndarray A) n s i :
  shape a = n :: s -> getitem a i = Ok b -> shape b = s.
Proof.
  intros Hs. unfold getitem. rewrite Hs.
  destruct (i <? n); [|discriminate]. intros E; inversion E; reflexivity.
Qed.

Lemma items_ok (a : ndarray A) n s :
  shape a = n :: s ->
  items a = Ok (map (fun i => mk_nd s (chunk (size s) i (data a))) (seq 0 n)).
Proof.
  intros Hs. unfold items, len. rewrite Hs. simpl.
  apply rmap_ok. intros i Hi. apply in_seq in Hi.
  apply getitem_ok with (n := n); auto. lia.
Qed.

Lemma take_ok (a : ndarray A) (idx : ndarray nat) n s :
  shape a = n :: s -> Forall (fun i => i < n) (data idx) ->
  exists d, take a idx = Ok (mk_nd (shape idx ++ s) d).
Proof.
  intros Hs Hall. unfold take. rewrite Hs.
  rewrite (rmap_ok _ (fun i => mk_nd s (chunk (size s) i (data a)))).
  - simpl. eexists. reflexivity.
  - intros i Hi. rewrite Forall_forall in Hall.
    apply getitem_ok with (n := n); auto.
Qed.

End ArrayFacts.

Lemma lift_ok_eq {F A} (c : result A) (a : A) (w : world F) :
  c = Ok a -> lift c w = Ok (a, w).
Proof. intros ->. reflexivity. Qed.

Lemma lift_ok_raise {F A} (c : result A) (e : exn) (w : world F) :
  c = Raise e -> lift c w = Raise e.
Proof. intros ->. reflexivity. Qed.

Section BroadcastFacts.
Context {A : Type}.

Lemma size_ones k : size (repeat 1 k) = 1.
Proof.
  induction k as [|k IH]; [reflexivity|].
  change (repeat 1 (S k)) with (1 :: repeat 1 k).
  rewrite size_cons, IH. reflexivity.
Qed.

Lemma concat_repeat (x : A) (m n : nat) :
  concat (repeat (repeat x m) n) = repeat x (n * m).
Proof.
  induction n as [|n IH]; simpl; auto.
  rewrite IH, repeat_app. reflexivity.
Qed.

Lemma bshape_aligned_refl s : bshape_aligned s s = Ok s.
Proof.
  induction s as [|a s IH]; simpl; auto.
  rewrite IH. simpl. rewrite Nat.eqb_refl. reflexivity.
Qed.

Lemma bshape_refl s : bshape s s = Ok s.
Proof.
  unfold bshape, pad_shape. rewrite Nat.max_id, Nat.sub_diag. simpl.
  apply bshape_aligned_refl.
Qed.

Lemma bshape_aligned_ones s : bshape_aligned s (repeat 1 (length s)) = Ok s.
Proof.
  induction s as [|a s IH]; simpl; auto.
  rewrite IH. simpl.
  destruct (a =? 1) eqn:E; auto.
Qed.

Lemma bshape_scalar_r s : bshape s [] = Ok s.
Proof.
  unfold bshape, pad_shape. simpl. rewrite Nat.max_0_r, Nat.sub_diag, Nat.sub_0_r.
  simpl. rewrite app_nil_r. apply bshape_aligned_ones.
Qed.

Lemma bshape_aligned_ones_l s : bshape_aligned (repeat 1 (length s)) s = Ok s.
Proof.
  induction s as [|a s IH]; simpl; auto.
  rewrite IH. simpl. destruct a as [|[|a]]; reflexivity.
Qed.

Lemma bshape_scalar_l s : bshape [] s = Ok s.
Proof.
  unfold bshape, pad_shape. simpl. rewrite Nat.sub_diag, Nat.sub_0_r.
  simpl. rewrite app_nil_r. apply bshape_aligned_ones_l.
Qed.

(** A single element stretched to any shape fills it. *)
Lemma stretch_scalar (s : list nat) (x : A) :
  stretch (repeat 1 (length s)) s [x] = Ok (repeat x (size s)).
Proof.
  induction s as [|n s IH]; [reflexivity|].
  change (stretch (repeat 1 (length (n :: s))) (n :: s) [x])
    with (if 1 =? n then
            rows <~ rmap (fun i => stretch (repeat 1 (length s)) s
                                   (chunk (size (repeat 1 (length s))) i [x]))
                         (seq 0 1) ;;
            Ok (concat rows)
          else if 1 =? 1 then
            row <~ stretch (repeat 1 (length s)) s [x] ;;
            Ok (concat (repeat row n))
          else Raise ValueError).
  rewrite size_cons.
  destruct (Nat.eqb_spec 1 n) as [<-|Hn].
  - unfold chunk. rewrite size_ones. simpl. rewrite IH. simpl.
    rewrite app_nil_r, Nat.add_0_r. reflexivity.
  - rewrite Nat.eqb_refl, IH. simpl. f_equal. apply concat_repeat.
Qed.

Lemma broadcast_scalar (s : list nat) (x : A) :
  broadcast_to [] s [x] = Ok (repeat x (size s)).
Proof.
  unfold broadcast_to. destruct (shape_eqb [] s) eqn:E.
  - apply shape_eqb_eq in E. subst s. reflexivity.
  - unfold pad_shape. simpl. rewrite Nat.sub_0_r, app_nil_r.
    apply stretch_scalar.
Qed.

Lemma broadcast_same (s : list nat) (d : list A) : broadcast_to s s d = Ok d.
Proof. unfold broadcast_to. rewrite shape_eqb_refl. reflexivity. Qed.

Lemma zip_with_repeat_r (f : A -> A -> A) (d : list A) (x : A) n :
  length d = n -> zip_with f d (repeat x n) = map (fun y => f y x) d.
Proof.
  revert n; induction d as [|y d IH]; intros [|n] Hn; simpl in *;
    try discriminate; auto.
  f_equal. apply IH. lia.
Qed.

Lemma zip_with_repeat_l (f : A -> A -> A) (d : list A) (x : A) n :
  length d = n -> zip_with f (repeat x n) d = map (fun y => f x y) d.
Proof.
  revert n; induction d as [|y d IH]; intros [|n] Hn; simpl in *;
    try discriminate; auto.
  f_equal. apply IH. lia.
Qed.

Lemma zip_with_length (f : A -> A -> A) (xs ys : list A) :
  length xs = length ys -> length (zip_with f xs ys) = length xs.
Proof.
  revert ys; induction xs as [|x xs IH]; intros [|y ys] Hl; simpl in *;
    try discriminate; auto.
Qed.

Lemma binop_same_shape (f : A -> A -> A) (a b : ndarray A) :
  shape a = shape b ->
  binop f a b = Ok (mk_nd (shape a) (zip_with f (data a) (data b))).
Proof.
  intros Hs. unfold binop. rewrite <- Hs, bshape_refl. simpl.
  rewrite !broadcast_same. reflexivity.
Qed.

Lemma binop_scalar_r (f : A -> A -> A) (a : ndarray A) (x : A) :
  well_formed a ->
  binop f a (scalar_nd x) = Ok (mk_nd (shape a) (map (fun y => f y x) (data a))).
Proof.
  intros Hwf. unfold binop. simpl. rewrite bshape_scalar_r. simpl.
  rewrite broadcast_same. simpl. rewrite broadcast_scalar. simpl.
  rewrite zip_with_repeat_r; auto.
Qed.

Lemma binop_scalar_l (f : A -> A -> A) (a : ndarray A) (x : A) :
  well_formed a ->
  binop f (scalar_nd x) a = Ok (mk_nd (shape a) (map (fun y => f x y) (data a))).
Proof.
  intros Hwf. unfold binop. simpl.
  rewrite bshape_scalar_l. simpl. rewrite broadcast_scalar. simpl.
  rewrite broadcast_same. simpl.
  rewrite zip_with_repeat_l; auto.
Qed.

Lemma assign_same_shape (store : A -> A) (a v : ndarray A) :
  shape v = shape a ->
  assign store a v = Ok (mk_nd (shape a) (map store (data v))).
Proof.
  intros Hs. unfold assign. rewrite Hs, Nat.sub_diag. simpl.
  rewrite broadcast_same. reflexivity.
Qed.

End BroadcastFacts.

(** ** Sorting and shuffling *)

Section SortFacts.
Context {F : Type} `{Scalar F}.

Lemma insert_idx_bound (key : nat -> F) (n i : nat) (sorted : list nat) :
  i < n -> Forall (fun j => j < n) sorted ->
  Forall (fun j => j < n) (insert_idx key i sorted).
Proof.
  intros Hi. induction 1 as [|j rest Hj Hrest IH]; simpl.
  - constructor; auto.
  - destruct (sort_lt (key i) (key j)); repeat constructor; auto.
Qed.

Lemma argsort_row_bound (row : list F) :
  Forall (fun j => j < length row) (argsort_row row).
Proof.
  unfold argsort_row.
  assert (Hgen : forall idxs acc,
             Forall (fun j => j < length row) idxs ->
             Forall (fun j => j < length row) acc ->
             Forall (fun j => j < length row)
                    (fold_left (fun sorted i =>
                                  insert_idx (fun j => nth j row zero) i sorted)
                               idxs acc)).
  { induction idxs as [|i idxs IH]; intros acc Hidx Hacc; simpl; auto.
    inversion Hidx; subst. apply IH; auto. apply insert_idx_bound; auto. }
  apply Hgen; [|constructor].
  apply Forall_forall. intros j Hj. apply in_seq in Hj. lia.
Qed.

Lemma argsort_bound (a : ndarray F) :
  Forall (fun j => j < last (shape a) 1) (data (argsort a)).
Proof.
  unfold argsort. simpl. apply Forall_concat. apply Forall_map.
  apply Forall_forall. intros r _.
  eapply Forall_impl; [|apply argsort_row_bound].
  intros j Hj. simpl in Hj. unfold chunk in Hj.
  rewrite length_firstn in Hj. lia.
Qed.

Lemma argsort_shape (a : ndarray F) : shape (argsort a) = shape a.
Proof. reflexivity. Qed.

End SortFacts.

Section ShuffleFacts.
Context {F : Type} `{Scalar F} {A : Type}.

Lemma swap_length (l : list A) i j : length (swap l i j) = length l.
Proof.
  unfold swap. destruct (nth_error l i), (nth_error l j); auto.
  rewrite !list_set_length. reflexivity.
Qed.

Lemma swap_nth (l : list A) i j n :
  i < length l -> j < length l ->
  nth_error (swap l i j) n =
  nth_error l (if n =? i then j else if n =? j then i else n).
Proof.
  intros Hi Hj. unfold swap.
  destruct (nth_error l i) as [a|] eqn:Ei;
    [|apply nth_error_None in Ei; lia].
  destruct (nth_error l j) as [b|] eqn:Ej;
    [|apply nth_error_None in Ej; lia].
  destruct (Nat.eqb_spec n j) as [->|Hnj].
  - rewrite list_set_nth_same by (rewrite list_set_length; lia).
    destruct (Nat.eqb_spec j i) as [->|Hji]; congruence.
  - rewrite list_set_nth_other by congruence.
    destruct (Nat.eqb_spec n i) as [->|Hni].
    + rewrite list_set_nth_same by lia. congruence.
    + rewrite list_set_nth_other by congruence. reflexivity.
Qed.

Lemma swap_permutation (l : list A) i j : Permutation l (swap l i j).
Proof.
  destruct (nth_error l i) as [a|] eqn:Ei;
    [|unfold swap; rewrite Ei; apply Permutation_refl].
  destruct (nth_error l j) as [b|] eqn:Ej;
    [|unfold swap; rewrite Ei, Ej; apply Permutation_refl].
  assert (Hi : i < length l) by (apply nth_error_Some; congruence).
  assert (Hj : j < length l) by (apply nth_error_Some; congruence).
  apply Permutation_nth_error. split.
  - symmetry. apply swap_length.
  - exists (fun n => if n =? i then j else if n =? j then i else n).
    split.
    + intros x y.
      destruct (Nat.eqb_spec x i), (Nat.eqb_spec x j),
               (Nat.eqb_spec y i), (Nat.eqb_spec y j); intros; subst; congruence.
    + intros n. apply swap_nth; assumption.
Qed.

Lemma shuffle_from_permutation (i : nat) :
  forall (x : list A) (w : world F),
  exists x' w', shuffle_from i x w = Ok (x', w') /\ Permutation x x'.
Proof.
  induction i as [|i IH]; intros x w; simpl.
  - exists x, w. split; auto.
  - unfold bind at 1. unfold randbelow, bind, py_next, ret. simpl.
    match goal with
    | |- context [shuffle_from i (swap x (S i) ?j) ?w1] =>
        destruct (IH (swap x (S i) j) w1) as (x' & w' & He & Hp)
    end.
    exists x', w'. split; auto.
    eapply Permutation_trans; [apply swap_permutation|exact Hp].
Qed.

Lemma random_shuffle_permutation (x : list A) (w : world F) :
  exists x' w', random_shuffle x w = Ok (x', w') /\ Permutation x x'.
Proof. apply shuffle_from_permutation. Qed.

End ShuffleFacts.

(** ** The stages of one generation *)

Section StageFacts.
Context {F : Type} `{Scalar F}.

Lemma chunk_well_formed (a : ndarray F) n s i :
  shape a = n :: s -> well_formed a -> i < n ->
  well_formed (mk_nd s (chunk (size s) i (data a))).
Proof.
  unfold well_formed. intros Hs Hwf Hi. simpl.
  rewrite Hs, size_cons in Hwf. apply chunk_length. nia.
Qed.

(** Scoring a non-empty 2-d grid returns four numbers as soon as the
    two midpoints can be computed. *)
Lemma score_ok (g : ndarray F) (h w : nat) (mh mw : Z) :
  shape g = [h; w] -> well_formed g -> 1 <= h -> 1 <= w ->
  f_int (f_div (f_of_Z (Z.of_nat h)) (f_of_Z 2)) = Ok mh ->
  f_int (f_div (f_of_Z (Z.of_nat w)) (f_of_Z 2)) = Ok mw ->
  exists t, score g = Ok t /\ length t = 4.
Proof.
  intros Hs Hwf Hh Hw Hmh Hmw.
  assert (Hd : exists x d, data g = x :: d).
  { unfold well_formed in Hwf. rewrite Hs in Hwf. simpl in Hwf.
    destruct (data g) as [|x d]; [simpl in Hwf; nia|]. eauto. }
  destruct Hd as (x & d & Hd).
  unfold score. simpl.
  unfold loc_glbl_var. rewrite Hs. simpl.
  unfold py_truediv. simpl. rewrite Hmh, Hmw. simpl.
  unfold slice2. rewrite Hs. simpl.
  unfold sea_level. rewrite binop_scalar_r by assumption. simpl.
  unfold bedrock, mountains, Np.min, Np.max. rewrite Hd. simpl.
  eexists. split; reflexivity.
Qed.

(** Ranking: every row of the score matrix has four entries, so the
    index array holds numbers below 4, and indexing a population of at
    least four grids with it succeeds; the result has one axis more. *)
Lemma compute_population_fitness_ok (population : ndarray F)
      (n h w : nat) (mh mw : Z) :
  shape population = [n; h; w] -> well_formed population ->
  4 <= n -> 1 <= h -> 1 <= w ->
  f_int (f_div (f_of_Z (Z.of_nat h)) (f_of_Z 2)) = Ok mh ->
  f_int (f_div (f_of_Z (Z.of_nat w)) (f_of_Z 2)) = Ok mw ->
  exists d,
    compute_population_fitness population = Ok (mk_nd [n; 4; h; w] d).
Proof.
  intros Hs Hwf Hn Hh Hw Hmh Hmw. unfold compute_population_fitness.
  erewrite items_ok by exact Hs. cbn [rbind].
  destruct (rmap_total score (fun t => length t = 4)
              (map (fun i => mk_nd [h; w]
                               (chunk (size [h; w]) i (data population)))
                   (seq 0 n)))
    as (scores & Hsc & Hlen4 & Hlen).
  { intros g Hg. apply in_map_iff in Hg. destruct Hg as (i & <- & Hi).
    apply in_seq in Hi.
    apply score_ok with (h := h) (w := w) (mh := mh) (mw := mw); auto.
    eapply chunk_well_formed; eauto. lia. }
  rewrite Hsc. cbn [rbind].
  rewrite length_map, length_seq in Hlen.
  rewrite (array_uniform (map (fun t => mk_nd [length t] t) scores) [4]).
  - simpl.
    match goal with
    | |- context [argsort ?a] =>
        pose proof (argsort_bound a) as Hb; set (order := argsort a) in *
    end.
    simpl in Hb.
    destruct (take_ok population order n [h; w] Hs) as (d & Hd).
    { eapply Forall_impl; [|exact Hb]. simpl. intros; lia. }
    rewrite Hd. subst order. simpl. rewrite length_map, Hlen.
    exists d. reflexivity.
  - destruct scores; [simpl in Hlen; lia|discriminate].
  - apply Forall_map. eapply Forall_impl; [|exact Hlen4].
    simpl. intros t Ht. rewrite Ht. reflexivity.
Qed.

End StageFacts.

Section SelectionFacts.
Context {F : Type} `{Scalar F}.

(** Selection without random picks: the leading individuals, in some
    order, stacked. *)
Lemma select_top_only (sorted : ndarray F) (n : nat) (s : list nat)
      (num_from_top num_from_random : Z) (w : world F) :
  shape sorted = n :: s ->
  Z.to_nat num_from_top <= n -> (num_from_random <= 0)%Z ->
  exists picked w',
    Permutation (leading sorted (Z.to_nat num_from_top)) picked /\
    select_from_population sorted num_from_top num_from_random w
    = match array picked with
      | Ok a => Ok (a, w')
      | Raise e => Raise e
      end.
Proof.
  intros Hs Hk Hr. unfold select_from_population.
  set (k := Z.to_nat num_from_top) in *.
  assert (Htop : rmap (getitem sorted) (range num_from_top)
                 = Ok (leading sorted k)).
  { unfold leading, range. rewrite Hs. apply rmap_ok.
    intros i Hi. apply in_seq in Hi.
    apply getitem_ok with (n := n); auto. fold k in Hi. lia. }
  rewrite Htop.
  erewrite bind_ok by apply lift_ok.
  assert (Hnone : range num_from_random = []).
  { unfold range. replace (Z.to_nat num_from_random) with 0 by lia.
    reflexivity. }
  rewrite Hnone. simpl mmap.
  erewrite bind_ok by reflexivity.
  rewrite app_nil_r.
  destruct (random_shuffle_permutation (leading sorted k) w)
    as (picked & w' & Hsh & Hperm).
  erewrite bind_ok by exact Hsh.
  exists picked, w'. split; auto.
Qed.

Lemma leading_shape (a : ndarray F) n s k :
  shape a = n :: s -> Forall (fun x => shape x = s) (leading a k).
Proof.
  intros Hs. unfold leading. rewrite Hs. apply Forall_map.
  apply Forall_forall. intros; reflexivity.
Qed.

Lemma leading_length (a : ndarray F) n s k :
  shape a = n :: s -> length (leading a k) = k.
Proof.
  intros Hs. unfold leading. rewrite Hs, length_map, length_seq. reflexivity.
Qed.

Lemma select_top_only_shape (sorted : ndarray F) (n : nat) (s : list nat)
      (num_from_top num_from_random : Z) (w : world F) :
  shape sorted = n :: s ->
  1 <= Z.to_nat num_from_top <= n -> (num_from_random <= 0)%Z ->
  exists d w',
    select_from_population sorted num_from_top num_from_random w
    = Ok (mk_nd (Z.to_nat num_from_top :: s) d, w').
Proof.
  intros Hs Hk Hr.
  destruct (select_top_only sorted n s num_from_top num_from_random w Hs)
    as (picked & w' & Hperm & Hsel); [lia|assumption|].
  rewrite Hsel.
  rewrite (array_uniform picked s).
  - exists (concat (map (@data F) picked)), w'.
    rewrite <- (Permutation_length Hperm).
    erewrite leading_length by exact Hs. reflexivity.
  - intros ->. apply Permutation_length in Hperm.
    erewrite leading_length in Hperm by exact Hs. simpl in Hperm. lia.
  - eapply Permutation_Forall; [exact Hperm|].
    eapply leading_shape; eauto.
Qed.

End SelectionFacts.

Section BreedingFacts.
Context {F : Type} `{Scalar F}.

(** With [breed] unbound, the first call raises: it is reached as soon
    as there is one pair and one child to make. *)
Lemma breed_population_unbound (breeders : ndarray F) (n : nat) (s : list nat)
      (number_of_children pairs : Z) (w : world F) :
  shape breeders = n :: s ->
  f_ceil (f_div (f_of_Z (Z.of_nat n)) (f_of_Z 2)) = Ok pairs ->
  (1 <= pairs)%Z -> (1 <= number_of_children)%Z ->
  breed_population breeders number_of_children w = Raise (NameError "breed").
Proof.
  intros Hs Hp Hp1 Hk. unfold breed_population, breed_population_with, len.
  rewrite Hs. erewrite bind_ok by apply lift_ok.
  unfold py_truediv. simpl (2 =? 0)%Z. cbv iota.
  erewrite bind_ok by apply lift_ok.
  rewrite Hp. erewrite bind_ok by apply lift_ok.
  apply bind_raise. unfold range.
  destruct (Z.to_nat pairs) as [|p] eqn:Ep; [lia|].
  destruct (Z.to_nat number_of_children) as [|k] eqn:Ek; [lia|].
  reflexivity.
Qed.

(** With [breed] bound, the number of children is the number of pairs
    times the number of children per pair. *)
Lemma breed_population_size (f : breed_fn) (breeders children : ndarray F)
      (n : nat) (s : list nat) (number_of_children pairs : Z) (w w' : world F) :
  shape breeders = n :: s ->
  f_ceil (f_div (f_of_Z (Z.of_nat n)) (f_of_Z 2)) = Ok pairs ->
  breed_population_with (Some f) breeders number_of_children w
    = Ok (children, w') ->
  len children = Ok (Z.to_nat pairs * Z.to_nat number_of_children).
Proof.
  intros Hs Hp. unfold breed_population_with, len at 1.
  rewrite Hs. erewrite bind_ok by apply lift_ok.
  unfold py_truediv. simpl (2 =? 0)%Z. cbv iota.
  erewrite bind_ok by apply lift_ok.
  rewrite Hp. erewrite bind_ok by apply lift_ok.
  intros Hb. apply bind_inv in Hb. destruct Hb as (nested & w1 & Hm & Ha).
  apply lift_inv in Ha. destruct Ha as [Ha _].
  rewrite (array_len _ _ Ha). f_equal.
  pose proof (mmap_length _ _ _ _ _ Hm) as Hlen.
  assert (Hin : Forall (fun l => length l = Z.to_nat number_of_children) nested).
  { eapply mmap_Forall; [|exact Hm]. simpl.
    intros i w2 l w3 Hl. apply mmap_length in Hl.
    unfold range in Hl. rewrite length_seq in Hl. exact Hl. }
  rewrite (concat_length_uniform _ _ Hin), Hlen.
  unfold range. rewrite length_seq. reflexivity.
Qed.

Lemma mutate_loop_shape (chance : F) (idxs : list nat) :
  forall (population population' : ndarray F) (w w' : world F),
    mutate_loop idxs chance population w = Ok (population', w') ->
    shape population' = shape population.
Proof.
  induction idxs as [|i idxs IH]; intros p p' w w' Hm; simpl in Hm.
  - inversion Hm; reflexivity.
  - apply bind_inv in Hm. destruct Hm as (r & w1 & _ & Hm).
    destruct (f_ltb (f_mul r (f_of_Z 100)) chance).
    + apply bind_inv in Hm. destruct Hm as (ind & w2 & _ & Hm).
      apply bind_inv in Hm. destruct Hm as (t & w3 & _ & Hm).
      apply bind_inv in Hm. destruct Hm as (p1 & w4 & Hset & Hm).
      apply IH in Hm. rewrite Hm.
      apply lift_inv in Hset. destruct Hset as [Hset _].
      unfold setitem_seq in Hset.
      destruct (getitem p i) as [slot|]; simpl in Hset; [|discriminate].
      destruct (forallb _ t); [|discriminate].
      destruct (array t) as [v|]; simpl in Hset; [|discriminate].
      unfold setitem in Hset.
      destruct (getitem p i); simpl in Hset; [|discriminate].
      destruct (assign f_store _ v); simpl in Hset; [|discriminate].
      inversion Hset. reflexivity.
    + eapply IH; eauto.
Qed.

Lemma mutate_population_shape (chance : F) (population population' : ndarray F)
      (w w' : world F) :
  mutate_population population chance w = Ok (population', w') ->
  shape population' = shape population.
Proof.
  unfold mutate_population. intros Hm.
  apply bind_inv in Hm. destruct Hm as (n & w1 & _ & Hm).
  eapply mutate_loop_shape; eauto.
Qed.

End BreedingFacts.

(** ** The first generation *)

Section FirstGeneration.
Context {F : Type} `{Scalar F}.
Variable pnoise2 : F -> F -> Z -> F -> F -> Z -> Z -> Z -> F.

(** Seeding returns as many copies of one grid as asked for. *)
Lemma generate_original_population_ok (h w pop_size : Z) (world : world F) :
  (0 <= h)%Z -> (0 <= w)%Z -> (1 <= pop_size)%Z ->
  exists d world',
    generate_original_population pnoise2 h w pop_size world
    = Ok (mk_nd [Z.to_nat pop_size; Z.to_nat h; Z.to_nat w] d, world') /\
    length d = Z.to_nat pop_size * (Z.to_nat h * Z.to_nat w).
Proof.
  intros Hh Hw Hn. unfold generate_original_population, default_noise.
  destruct (noise_grid_ok pnoise2 h w 8 (py_float 1 2) (f_of_Z 2)
                          1024 1024 0 Hh Hw)
    as (grid & Hgrid & Hs & Hl & _).
  destruct (mmap_const (A := nat)
              (generate_basic_perlin_noise pnoise2 h w 8 (py_float 1 2)
                                           (f_of_Z 2) 1024 1024 0) grid)
    with (xs := range pop_size) (w := world) as (world' & Hm).
  { intros w0. rewrite noise_reads_no_generator, Hgrid. eauto. }
  erewrite bind_ok by exact Hm.
  unfold range. rewrite length_seq.
  rewrite (array_uniform (repeat grid (Z.to_nat pop_size))
                         [Z.to_nat h; Z.to_nat w]).
  - rewrite repeat_length. eexists. exists world'. split; [reflexivity|].
    rewrite map_repeat.
    rewrite (concat_length_uniform (length (data grid))).
    + rewrite repeat_length, Hl. reflexivity.
    + apply Forall_forall. intros x Hx. apply repeat_spec in Hx. congruence.
  - destruct (Z.to_nat pop_size) eqn:E; [lia|discriminate].
  - apply Forall_forall. intros x Hx. apply repeat_spec in Hx. congruence.
Qed.

Lemma generate_original_population_total (h w pop_size : Z) (world : world F) :
  (0 <= h)%Z -> (0 <= w)%Z ->
  exists population world',
    generate_original_population pnoise2 h w pop_size world
    = Ok (population, world').
Proof.
  intros Hh Hw. destruct (Z.le_gt_cases 1 pop_size) as [Hn|Hn].
  - destruct (generate_original_population_ok h w pop_size world Hh Hw Hn)
      as (d & world' & Hpop & _). eauto.
  - unfold generate_original_population, range.
    replace (Z.to_nat pop_size) with 0 by lia. simpl.
    erewrite bind_ok by reflexivity. eexists. eexists. reflexivity.
Qed.

Variables (h w population_size num_children : Z).
Variables (mh mw num_from_best num_from_random pairs : Z).

Hypothesis grid_rows : (1 <= h)%Z.
Hypothesis grid_columns : (1 <= w)%Z.
Hypothesis four_individuals : (4 <= population_size)%Z.
Hypothesis some_children : (1 <= num_children)%Z.
Hypothesis mid_row : f_int (f_div (f_of_Z h) (f_of_Z 2)) = Ok mh.
Hypothesis mid_column : f_int (f_div (f_of_Z w) (f_of_Z 2)) = Ok mw.
Hypothesis best_count :
  f_ceil (f_mul (f_div (f_of_Z population_size) (f_of_Z num_children))
                (py_float 3 4)) = Ok num_from_best.
Hypothesis random_count :
  f_floor (f_mul (f_div (f_of_Z population_size) (f_of_Z num_children))
                 (py_float 1 4)) = Ok num_from_random.
Hypothesis best_in_range : (1 <= num_from_best <= population_size)%Z.
Hypothesis no_random_pick : (num_from_random <= 0)%Z.
Hypothesis pair_count :
  f_ceil (f_div (f_of_Z num_from_best) (f_of_Z 2)) = Ok pairs.
Hypothesis some_pair : (1 <= pairs)%Z.

Lemma generation_unbound (population : ndarray F) (world : world F) :
  shape population = [Z.to_nat population_size; Z.to_nat h; Z.to_nat w] ->
  well_formed population ->
  generation_with None num_from_best num_from_random num_children
                  population world
  = Raise (NameError "breed").
Proof.
  intros Hs Hwf. unfold generation_with.
  destruct (compute_population_fitness_ok population
              (Z.to_nat population_size) (Z.to_nat h) (Z.to_nat w) mh mw)
    as (d & Hfit); auto; try lia.
  { rewrite Z2Nat.id by lia. exact mid_row. }
  { rewrite Z2Nat.id by lia. exact mid_column. }
  rewrite Hfit. erewrite bind_ok by apply lift_ok.
  destruct (select_top_only_shape
              (mk_nd [Z.to_nat population_size; 4; Z.to_nat h; Z.to_nat w] d)
              (Z.to_nat population_size) [4; Z.to_nat h; Z.to_nat w]
              num_from_best num_from_random world)
    as (d' & world' & Hsel); auto; try lia.
  erewrite bind_ok by exact Hsel.
  apply bind_raise.
  apply breed_population_unbound
    with (n := Z.to_nat num_from_best) (s := [4; Z.to_nat h; Z.to_nat w])
         (pairs := pairs); auto.
  rewrite Z2Nat.id by lia. exact pair_count.
Qed.

(** Were [breed] bound, the next population would hold
    [pairs * num_children] individuals. *)
Lemma generation_size (f : breed_fn) (population children : ndarray F)
      (world world' : world F) :
  shape population = [Z.to_nat population_size; Z.to_nat h; Z.to_nat w] ->
  well_formed population ->
  generation_with (Some f) num_from_best num_from_random num_children
                  population world
  = Ok (children, world') ->
  len children = Ok (Z.to_nat pairs * Z.to_nat num_children).
Proof.
  intros Hs Hwf. unfold generation_with.
  destruct (compute_population_fitness_ok population
              (Z.to_nat population_size) (Z.to_nat h) (Z.to_nat w) mh mw)
    as (d & Hfit); auto; try lia.
  { rewrite Z2Nat.id by lia. exact mid_row. }
  { rewrite Z2Nat.id by lia. exact mid_column. }
  rewrite Hfit. erewrite bind_ok by apply lift_ok.
  destruct (select_top_only_shape
              (mk_nd [Z.to_nat population_size; 4; Z.to_nat h; Z.to_nat w] d)
              (Z.to_nat population_size) [4; Z.to_nat h; Z.to_nat w]
              num_from_best num_from_random world)
    as (d' & world1 & Hsel); auto; try lia.
  erewrite bind_ok by exact Hsel.
  intros Hrun. apply bind_inv in Hrun.
  destruct Hrun as (bred & world2 & Hbred & Hmut).
  apply mutate_population_shape in Hmut.
  apply breed_population_size
    with (n := Z.to_nat num_from_best) (s := [4; Z.to_nat h; Z.to_nat w])
         (pairs := pairs) in Hbred; auto.
  - unfold len in *. rewrite Hmut. exact Hbred.
  - rewrite Z2Nat.id by lia. exact pair_count.
Qed.

Lemma run_genetic_algorithm_unbound (generations : Z) (world : world F) :
  (1 <= generations)%Z ->
  run_genetic_algorithm pnoise2 h w generations population_size num_children
                        world
  = Raise (NameError "breed").
Proof.
  intros Hg. unfold run_genetic_algorithm, run_genetic_algorithm_with.
  destruct (generate_original_population_ok h w population_size world)
    as (d & world' & Hpop & Hlen); try lia.
  erewrite bind_ok by exact Hpop.
  unfold py_truediv. destruct (Z.eqb_spec num_children 0); [lia|].
  erewrite bind_ok by apply lift_ok.
  rewrite best_count. erewrite bind_ok by apply lift_ok.
  erewrite bind_ok by apply lift_ok.
  rewrite random_count. erewrite bind_ok by apply lift_ok.
  destruct (Z.to_nat generations) as [|g] eqn:Eg; [lia|].
  simpl. apply bind_raise. apply generation_unbound; auto.
  unfold well_formed. simpl. rewrite Hlen. lia.
Qed.

End FirstGeneration.

(** ** The driver on IEEE doubles *)

Section DriverBinary64.
Variable pnoise2 : spec_float -> spec_float -> Z -> spec_float -> spec_float
                   -> Z -> Z -> Z -> spec_float.

Lemma default_run_unbound (h w generations : Z) (world : world spec_float) :
  (h = 8)%Z -> (w = 8)%Z -> (1 <= generations)%Z ->
  run_genetic_algorithm pnoise2 h w generations 4 2 world
  = Raise (NameError "breed").
Proof.
  intros -> -> Hg.
  apply run_genetic_algorithm_unbound
    with (mh := 4%Z) (mw := 4%Z) (num_from_best := 2%Z)
         (num_from_random := 0%Z) (pairs := 1%Z);
    try lia; vm_compute; reflexivity.
Qed.

End DriverBinary64.

(** ** crossover *)

Section CrossoverFacts.
Context {F : Type} `{Scalar F}.

Lemma deref_app_l (h h' : heap) (r : ref) (a : ndarray F) :
  deref h r = Ok a -> deref (h ++ h') r = Ok a.
Proof.
  unfold deref, Py.index. destruct (nth_error h r) eqn:E; [|discriminate].
  intros Ha. rewrite nth_error_app1 by (apply nth_error_Some; congruence).
  rewrite E. exact Ha.
Qed.

Lemma deref_app_new (h : heap) (a : ndarray F) :
  deref (h ++ [a]) (length h) = Ok a.
Proof.
  unfold deref, Py.index. rewrite nth_error_app2 by lia.
  rewrite Nat.sub_diag. reflexivity.
Qed.

Lemma deref_bound (h : heap) (r : ref) (a : ndarray F) :
  deref h r = Ok a -> r < length h.
Proof.
  unfold deref, Py.index. destruct (nth_error h r) eqn:E; [|discriminate].
  intros _. apply nth_error_Some. congruence.
Qed.

Lemma deref_set_same (h : heap) (r : ref) (a : ndarray F) :
  r < length h -> deref (list_set h r a) r = Ok a.
Proof.
  intros Hr. unfold deref, Py.index. rewrite list_set_nth_same by assumption.
  reflexivity.
Qed.

Lemma deref_set_other (h : heap) (r r' : ref) (a : ndarray F) :
  r <> r' -> deref (list_set h r a) r' = deref h r'.
Proof.
  intros Hr. unfold deref, Py.index. rewrite list_set_nth_other by assumption.
  reflexivity.
Qed.

(** C2.  Sum/difference crossover on two distinct parents of one shape:
    the sum is written into the first parent and the difference into the
    second, in place; both returned references are the second parent.
    So the two outputs are one array, each aliases an input, and the
    array returned as the first child holds [p1 - p2], not [p1 + p2]. *)
Theorem crossover_returns_difference_twice
        (h : heap) (par1 par2 : ref) (p1 p2 : ndarray F) :
  par1 <> par2 ->
  deref h par1 = Ok p1 -> deref h par2 = Ok p2 -> shape p1 = shape p2 ->
  exists h',
    crossover par1 par2 h = Ok ((par2, par2), h') /\
    deref h' par1
    = Ok (mk_nd (shape p1) (map f_store (zip_with f_add (data p1) (data p2)))) /\
    deref h' par2
    = Ok (mk_nd (shape p2) (map f_store (zip_with f_sub (data p1) (data p2)))).
Proof.
  intros Hne H1 H2 Hs.
  pose proof (deref_bound _ _ _ H1) as Hb1.
  pose proof (deref_bound _ _ _ H2) as Hb2.
  unfold crossover, heap_copy. rewrite H1. cbn [rbind].
  rewrite (deref_app_l h [p1] par2 p2 H2). cbn [rbind].
  set (h2 := (h ++ [p1]) ++ [p2]).
  assert (Ht1 : deref h2 (length h) = Ok p1).
  { unfold h2. apply deref_app_l. apply deref_app_new. }
  assert (Ht2 : deref h2 (length (h ++ [p1])) = Ok p2).
  { unfold h2. apply deref_app_new. }
  assert (Hp1 : deref h2 par1 = Ok p1).
  { unfold h2. rewrite <- app_assoc. apply deref_app_l. exact H1. }
  assert (Hp2 : deref h2 par2 = Ok p2).
  { unfold h2. rewrite <- app_assoc. apply deref_app_l. exact H2. }
  assert (Hl2 : length h2 = length h + 2).
  { unfold h2. rewrite !length_app. simpl. lia. }
  unfold heap_binop at 1. rewrite Ht1, Ht2. cbn [rbind].
  rewrite (binop_same_shape _ _ _ Hs). cbn [rbind].
  unfold heap_assign at 1. rewrite Hp1. cbn [rbind].
  rewrite assign_same_shape by reflexivity. cbn [rbind data shape].
  set (p1' := mk_nd (shape p1)
                    (map f_store (zip_with f_add (data p1) (data p2)))).
  set (h3 := list_set h2 par1 p1').
  assert (Hl1 : length (h ++ [p1]) = length h + 1).
  { rewrite length_app. simpl. lia. }
  unfold heap_binop.
  replace (deref h3 (length h)) with (Ok p1)
    by (unfold h3; rewrite deref_set_other by lia; symmetry; exact Ht1).
  replace (deref h3 (length (h ++ [p1]))) with (Ok p2)
    by (unfold h3; rewrite deref_set_other by lia; symmetry; exact Ht2).
  cbn [rbind]. rewrite (binop_same_shape _ _ _ Hs). cbn [rbind].
  unfold heap_assign.
  replace (deref h3 par2) with (Ok p2)
    by (unfold h3; rewrite deref_set_other by assumption; symmetry; exact Hp2).
  cbn [rbind]. rewrite assign_same_shape by exact Hs.
  cbn [rbind data shape].
  eexists. split; [reflexivity|]. split.
  - rewrite deref_set_other by congruence.
    unfold h3. apply deref_set_same. lia.
  - apply deref_set_same. unfold h3. rewrite list_set_length. lia.
Qed.

End CrossoverFacts.

(** ** The noise-field generator *)

Section NoiseTheorem.
Context {F : Type} `{Scalar F}.
Variable pnoise2 : F -> F -> Z -> F -> F -> Z -> Z -> Z -> F.

(** C9.  Two calls of the noise-field generator with the same arguments
    return the same grid whatever the state of the random generators
    (the noise function itself has no state); for non-negative extents
    the call succeeds, the grid has shape [(h, w)], and cell [(i, j)] is
    the noise function sampled at [(i/h, j/w)] with the given layering
    parameters, cast to the grid's element type. *)
Theorem noise_field_deterministic
        (h w octaves : Z) (persistence lacunarity : F)
        (repeatx repeaty base : Z) (world1 world2 : world F) :
  value (generate_basic_perlin_noise pnoise2 h w octaves persistence
           lacunarity repeatx repeaty base world1)
  = value (generate_basic_perlin_noise pnoise2 h w octaves persistence
             lacunarity repeatx repeaty base world2)
  /\
  ((0 <= h)%Z -> (0 <= w)%Z ->
   exists grid,
     value (generate_basic_perlin_noise pnoise2 h w octaves persistence
              lacunarity repeatx repeaty base world1) = Ok grid /\
     shape grid = [Z.to_nat h; Z.to_nat w] /\
     forall i j, i < Z.to_nat h -> j < Z.to_nat w ->
       get2 grid i j
       = Ok (f_store (pnoise2 (f_div (f_of_Z (Z.of_nat i)) (f_of_Z h))
                              (f_div (f_of_Z (Z.of_nat j)) (f_of_Z w))
                              octaves persistence lacunarity
                              repeatx repeaty base))).
Proof.
  split.
  - rewrite !noise_reads_no_generator.
    destruct (rbind (zeros [h; w]) _); reflexivity.
  - intros Hh Hw.
    destruct (noise_grid_ok pnoise2 h w octaves persistence lacunarity
                            repeatx repeaty base Hh Hw)
      as (grid & Hgrid & Hs & _ & Hcell).
    exists grid. rewrite noise_reads_no_generator, Hgrid.
    repeat split; auto.
Qed.

End NoiseTheorem.

(** ** Selection *)

Lemma mmap_total {F A B} (f : A -> M F B) (P : B -> Prop) (xs : list A) :
  (forall x w, exists y w', f x w = Ok (y, w') /\ P y) ->
  forall w, exists ys w',
    mmap f xs w = Ok (ys, w') /\ Forall P ys /\ length ys = length xs.
Proof.
  intros Hf. induction xs as [|x xs IH]; intros w; simpl.
  - exists [], w. repeat split; constructor.
  - destruct (Hf x w) as (y & w1 & Hy & Py).
    destruct (IH w1) as (ys & w2 & Hys & Pys & Hl).
    exists (y :: ys), w2.
    erewrite bind_ok by exact Hy. erewrite bind_ok by exact Hys.
    repeat split; simpl; auto.
Qed.

Lemma map_seq_nth {A} (g : nat -> A) (xs : list A) :
  (forall i x, nth_error xs i = Some x -> g i = x) ->
  map g (seq 0 (length xs)) = xs.
Proof.
  revert g. induction xs as [|x xs IH]; intros g Hg; simpl; auto.
  rewrite (Hg 0 x) by reflexivity. f_equal.
  rewrite <- seq_shift, map_map. apply IH.
  intros i y Hy. apply (Hg (S i)). exact Hy.
Qed.

Section SelectionTheorems.
Context {F : Type} `{Scalar F}.

(** Stacking arrays of one shape and iterating over the stack gives the
    arrays back. *)
Lemma items_array (xs : list (ndarray F)) (s : list nat) :
  Forall (fun x => shape x = s /\ well_formed x) xs ->
  exists a, array xs = Ok a /\ items a = Ok xs.
Proof.
  intros Hall. destruct xs as [|x0 rest] eqn:Exs.
  - exists (mk_nd [0] []). split; reflexivity.
  - rewrite <- Exs in *.
    assert (Hshape : Forall (fun x => shape x = s) xs).
    { eapply Forall_impl; [|exact Hall]. simpl. tauto. }
    exists (mk_nd (length xs :: s) (concat (map (@data F) xs))). split.
    + apply array_uniform; auto. subst xs. discriminate.
    + erewrite items_ok by reflexivity. f_equal. simpl.
      apply map_seq_nth. intros i x Hx.
      rewrite (chunk_concat (size s) (map (@data F) xs) i (data x)).
      * rewrite Forall_forall in Hall.
        destruct (Hall x (nth_error_In _ _ Hx)) as [Hsx _].
        destruct x as [sx dx]. simpl in *. congruence.
      * apply Forall_map. eapply Forall_impl; [|exact Hall].
        simpl. unfold well_formed. intros y [Hy1 Hy2]. congruence.
      * rewrite nth_error_map, Hx. reflexivity.
Qed.

Lemma leading_well_formed (a : ndarray F) n s k :
  shape a = n :: s -> well_formed a -> k <= n ->
  Forall (fun x => shape x = s /\ well_formed x) (leading a k).
Proof.
  intros Hs Hwf Hk. unfold leading. rewrite Hs. apply Forall_map.
  apply Forall_forall. intros i Hi. apply in_seq in Hi. split; auto.
  apply chunk_well_formed with (n := n); auto. lia.
Qed.

(** Selection of the whole population and no random pick returns the
    individuals of the population, in some order. *)
Theorem select_all_is_permutation (sorted : ndarray F) (n : nat)
        (s : list nat) (world : world F) :
  shape sorted = n :: s -> well_formed sorted ->
  exists selection world' picked,
    select_from_population sorted (Z.of_nat n) 0 world
    = Ok (selection, world') /\
    items selection = Ok picked /\
    Permutation (leading sorted n) picked.
Proof.
  intros Hs Hwf.
  destruct (select_top_only sorted n s (Z.of_nat n) 0 world Hs)
    as (picked & world' & Hperm & Hsel); [lia|lia|].
  rewrite Nat2Z.id in Hperm.
  destruct (items_array picked s) as (a & Ha & Hitems).
  { eapply Permutation_Forall; [exact Hperm|].
    apply leading_well_formed with (n := n); auto. }
  exists a, world', picked. rewrite Hsel, Ha. auto.
Qed.

Lemma random_choice_ok (seq0 : ndarray F) (n : nat) (s : list nat)
      (world : world F) :
  shape seq0 = n :: s -> 1 <= n ->
  exists i world',
    i < n /\
    random_choice seq0 world
    = Ok (mk_nd s (chunk (size s) i (data seq0)), world').
Proof.
  intros Hs Hn. unfold random_choice, len. rewrite Hs.
  erewrite bind_ok by apply lift_ok.
  destruct (Nat.eqb_spec n 0) as [->|_]; [lia|].
  unfold randbelow, bind, py_next, ret, lift.
  set (i := N.to_nat _ mod n).
  assert (Hi : i < n) by (apply Nat.mod_upper_bound; lia).
  rewrite (getitem_ok seq0 n s i Hs Hi).
  eexists. eexists. split; [exact Hi|reflexivity].
Qed.

(** A random pick is row 0 of the chosen individual. *)
Lemma lucky_pick_is_a_row (sorted : ndarray F) (n h w : nat) (world : world F) :
  shape sorted = [n; h; w] -> 1 <= n -> 1 <= h ->
  exists row world',
    (c <- random_choice sorted ;; lift (getitem c 0)) world
    = Ok (row, world') /\ shape row = [w].
Proof.
  intros Hs Hn Hh.
  destruct (random_choice_ok sorted n [h; w] world Hs Hn)
    as (i & world' & Hi & Hc).
  erewrite bind_ok by exact Hc.
  eexists. eexists. split.
  - apply lift_ok_eq. apply getitem_ok with (n := h) (s := [w]); auto.
  - reflexivity.
Qed.

(** C4.  On a population of non-empty grids, as soon as one individual
    is taken from the top and one at random, the selection raises
    [ValueError]: each random pick contributes row 0 of the chosen
    individual (shape [(w,)]), not the individual (shape [(h, w)]), and
    the two kinds cannot be stacked into one array. *)
Theorem select_random_pick_is_ragged (sorted : ndarray F) (n h w : nat)
        (num_from_top num_from_random : Z) (world : world F) :
  shape sorted = [n; h; w] -> 1 <= h ->
  (1 <= num_from_top <= Z.of_nat n)%Z -> (1 <= num_from_random)%Z ->
  select_from_population sorted num_from_top num_from_random world
  = Raise ValueError.
Proof.
  intros Hs Hh Ht Hr. unfold select_from_population.
  assert (Htop : rmap (getitem sorted) (range num_from_top)
                 = Ok (leading sorted (Z.to_nat num_from_top))).
  { unfold leading, range. rewrite Hs. apply rmap_ok.
    intros i Hi. apply in_seq in Hi.
    apply getitem_ok with (n := n); auto. lia. }
  rewrite Htop. erewrite bind_ok by apply lift_ok.
  destruct (mmap_total
              (fun _ : nat => c <- random_choice sorted ;; lift (getitem c 0))
              (fun row => shape row = [w]) (range num_from_random))
    with (w := world) as (lucky & world1 & Hlucky & Hrows & Hlen).
  { intros _ w0. apply lucky_pick_is_a_row with (n := n) (h := h); auto. lia. }
  erewrite bind_ok by exact Hlucky.
  destruct (random_shuffle_permutation
              (leading sorted (Z.to_nat num_from_top) ++ lucky) world1)
    as (picked & world2 & Hsh & Hperm).
  erewrite bind_ok by exact Hsh.
  unfold range in Hlen. rewrite length_seq in Hlen.
  destruct lucky as [|row lucky]; [simpl in Hlen; lia|].
  destruct (leading sorted (Z.to_nat num_from_top)) as [|top tops] eqn:Etop.
  { pose proof (leading_length sorted n [h; w] (Z.to_nat num_from_top) Hs) as Hl.
    rewrite Etop in Hl. simpl in Hl. lia. }
  apply lift_ok_raise.
  apply array_ragged with (x := top) (y := row).
  - eapply Permutation_in; [exact Hperm|]. left. reflexivity.
  - eapply Permutation_in; [exact Hperm|].
    apply in_or_app. right. left. reflexivity.
  - pose proof (leading_shape sorted n [h; w] (Z.to_nat num_from_top) Hs) as Hall.
    rewrite Etop in Hall. inversion Hall as [|? ? Hx _]; subst.
    inversion Hrows as [|? ? Hy _]; subst.
    rewrite Hx, Hy. congruence.
Qed.

End SelectionTheorems.

(** ** The driver *)

Section DriverTheorems.
Variable pnoise2 : spec_float -> spec_float -> Z -> spec_float -> spec_float
                   -> Z -> Z -> Z -> spec_float.

(** C1.  On IEEE doubles, [generate(8, 8, octaves)] raises [NameError]
    for every noise function and every state of the random generators:
    the first generation reaches the call of [breed], a name helpers.py
    never binds.  No grid is returned. *)
Theorem generate_8x8_raises (octaves : Z) (world : world spec_float) :
  generate pnoise2 8 8 octaves world = Raise (NameError "breed").
Proof.
  unfold generate. apply bind_raise.
  apply default_run_unbound; lia.
Qed.

(** C3.  One generation of the default run (4 individuals of 8x8, 2
    children per pair, so 2 breeders from the top and none at random):
    it raises [NameError] at the first call of [breed]; and whatever
    [breed] were bound to, a generation that completes leaves 2
    individuals, not 4: one pair times two children. *)
Theorem default_generation_loses_individuals
        (population : ndarray spec_float) (world : world spec_float) :
  shape population = [4; 8; 8] -> well_formed population ->
  f_ceil (F := spec_float)
         (f_mul (f_div (f_of_Z 4) (f_of_Z 2)) (py_float 3 4)) = Ok 2%Z /\
  f_floor (F := spec_float)
          (f_mul (f_div (f_of_Z 4) (f_of_Z 2)) (py_float 1 4)) = Ok 0%Z /\
  generation_with None 2 0 2 population world = Raise (NameError "breed") /\
  forall (f : breed_fn) children world',
    generation_with (Some f) 2 0 2 population world = Ok (children, world') ->
    len children = Ok 2.
Proof.
  intros Hs Hwf.
  split; [vm_compute; reflexivity|].
  split; [vm_compute; reflexivity|].
  split.
  - apply generation_unbound
      with (h := 8%Z) (w := 8%Z) (population_size := 4%Z)
           (mh := 4%Z) (mw := 4%Z) (pairs := 1%Z);
      try lia; try exact Hs; try exact Hwf; vm_compute; reflexivity.
  - intros f children world' Hrun.
    apply generation_size
      with (h := 8%Z) (w := 8%Z) (population_size := 4%Z)
           (mh := 4%Z) (mw := 4%Z) (pairs := 1%Z) in Hrun;
      try lia; try exact Hs; try exact Hwf; try (vm_compute; reflexivity).
    exact Hrun.
Qed.

(** C6.  The driver with the default population and children count on
    8x8 grids: with one generation or more it raises [NameError] and
    returns nothing; with none it returns the seeded population as it
    is, never ranked. *)
Theorem driver_returns_no_ranked_grid (generations : Z)
        (world : world spec_float) :
  ((1 <= generations)%Z ->
   run_genetic_algorithm pnoise2 8 8 generations 4 2 world
   = Raise (NameError "breed")) /\
  ((generations <= 0)%Z ->
   run_genetic_algorithm pnoise2 8 8 generations 4 2 world
   = generate_original_population pnoise2 8 8 4 world).
Proof.
  split; intros Hg.
  - apply default_run_unbound; lia.
  - unfold run_genetic_algorithm, run_genetic_algorithm_with.
    replace (Z.to_nat generations) with 0 by lia.
    unfold bind at 1.
    destruct (generate_original_population pnoise2 8 8 4 world)
      as [[population world']|e]; reflexivity.
Qed.

End DriverTheorems.

Section ValidationFacts.
Context {F : Type} `{Scalar F}.
Variable pnoise2 : F -> F -> Z -> F -> F -> Z -> Z -> Z -> F.

(** [np.zeros] refuses a negative extent, so seeding raises as soon as
    one grid is asked for. *)
Lemma seeding_negative_extent (h w pop_size : Z) (world : world F) :
  (h < 0 \/ w < 0)%Z -> (1 <= pop_size)%Z ->
  generate_original_population pnoise2 h w pop_size world = Raise ValueError.
Proof.
  intros Hneg Hn. unfold generate_original_population, range.
  destruct (Z.to_nat pop_size) as [|k] eqn:Ek; [lia|].
  apply bind_raise. cbn [seq mmap]. apply bind_raise.
  unfold default_noise, generate_basic_perlin_noise.
  erewrite bind_ok by reflexivity.
  apply bind_raise. unfold zeros. cbn [forallb].
  destruct (Z.leb_spec 0 h); destruct (Z.leb_spec 0 w); try lia; reflexivity.
Qed.

(** A grid without a cell cannot be scored: [np.min] has nothing to
    return. *)
Lemma score_no_cell (g : ndarray F) (h w : nat) (mh mw : Z) :
  shape g = [h; w] -> well_formed g -> h * w = 0 ->
  f_int (f_div (f_of_Z (Z.of_nat h)) (f_of_Z 2)) = Ok mh ->
  f_int (f_div (f_of_Z (Z.of_nat w)) (f_of_Z 2)) = Ok mw ->
  score g = Raise ValueError.
Proof.
  intros Hs Hwf Hz Hmh Hmw.
  assert (Hd : data g = []).
  { unfold well_formed in Hwf. rewrite Hs in Hwf. simpl in Hwf.
    apply length_zero_iff_nil. lia. }
  unfold score. cbn [rmap].
  unfold loc_glbl_var. rewrite Hs. cbn [rmap].
  unfold py_truediv. simpl (2 =? 0)%Z. cbv iota. cbn [rbind].
  rewrite Hmh, Hmw. cbn [rbind Py.index nth_error].
  unfold slice2. rewrite Hs. cbn [rbind].
  unfold sea_level. rewrite binop_scalar_r by assumption. cbn [rbind].
  unfold bedrock, Np.min. rewrite Hd. reflexivity.
Qed.

(** Ranking a population of grids without a cell raises at the first
    individual. *)
Lemma ranking_no_cell (population : ndarray F) (n h w : nat) (mh mw : Z) :
  shape population = [n; h; w] -> well_formed population ->
  1 <= n -> h * w = 0 ->
  f_int (f_div (f_of_Z (Z.of_nat h)) (f_of_Z 2)) = Ok mh ->
  f_int (f_div (f_of_Z (Z.of_nat w)) (f_of_Z 2)) = Ok mw ->
  compute_population_fitness population = Raise ValueError.
Proof.
  intros Hs Hwf Hn Hz Hmh Hmw. unfold compute_population_fitness.
  erewrite items_ok by exact Hs. cbn [rbind].
  destruct n as [|n]; [lia|]. cbn [seq map rmap].
  rewrite (score_no_cell _ h w mh mw); auto.
  apply chunk_well_formed with (n := S n); auto; lia.
Qed.

End ValidationFacts.

Section ValidationTheorems.

(** On doubles, an empty population goes through any number of
    generations unchanged. *)
Lemma empty_population_survives (count : nat) (world : world spec_float) :
  generations_with None count 0 0 2 (mk_nd [0] []) world
  = Ok (mk_nd [0] [], world).
Proof.
  induction count as [|count IH]; [reflexivity|].
  cbn [generations_with].
  erewrite bind_ok by reflexivity. exact IH.
Qed.

(** On doubles, the default run (4 individuals, 2 children per pair) on
    grids without a cell raises in the ranking of the first
    generation. *)
Lemma default_run_no_cell
      (pnoise2 : spec_float -> spec_float -> Z -> spec_float -> spec_float
                 -> Z -> Z -> Z -> spec_float)
      (h w mh mw generations : Z) (world : world spec_float) :
  (0 <= h)%Z -> (0 <= w)%Z -> (h = 0 \/ w = 0)%Z ->
  f_int (F := spec_float) (f_div (f_of_Z h) (f_of_Z 2)) = Ok mh ->
  f_int (F := spec_float) (f_div (f_of_Z w) (f_of_Z 2)) = Ok mw ->
  (1 <= generations)%Z ->
  run_genetic_algorithm pnoise2 h w generations 4 2 world = Raise ValueError.
Proof.
  intros Hh Hw Hz Hmh Hmw Hg.
  unfold run_genetic_algorithm, run_genetic_algorithm_with.
  destruct (generate_original_population_ok pnoise2 h w 4 world)
    as (d & world' & Hpop & Hlen); try lia.
  erewrite bind_ok by exact Hpop.
  erewrite bind_ok by reflexivity.
  erewrite bind_ok by (vm_compute; reflexivity).
  erewrite bind_ok by reflexivity.
  erewrite bind_ok by (vm_compute; reflexivity).
  destruct (Z.to_nat generations) as [|g] eqn:Eg; [lia|].
  cbn [generations_with]. apply bind_raise.
  unfold generation_with. apply bind_raise.
  rewrite (ranking_no_cell _ (Z.to_nat 4) (Z.to_nat h) (Z.to_nat w) mh mw);
    try reflexivity.
  - unfold well_formed. cbn [data shape]. rewrite Hlen. simpl. lia.
  - simpl. lia.
  - destruct Hz; subst; simpl; lia.
  - rewrite Z2Nat.id by lia. exact Hmh.
  - rewrite Z2Nat.id by lia. exact Hmw.
Qed.

(** On doubles, the default run on grids with a cell, one row or one
    column included, reaches the call of [breed]. *)
Lemma default_run_with_cells
      (pnoise2 : spec_float -> spec_float -> Z -> spec_float -> spec_float
                 -> Z -> Z -> Z -> spec_float)
      (h w mh mw generations : Z) (world : world spec_float) :
  (1 <= h)%Z -> (1 <= w)%Z ->
  f_int (F := spec_float) (f_div (f_of_Z h) (f_of_Z 2)) = Ok mh ->
  f_int (F := spec_float) (f_div (f_of_Z w) (f_of_Z 2)) = Ok mw ->
  (1 <= generations)%Z ->
  run_genetic_algorithm pnoise2 h w generations 4 2 world
  = Raise (NameError "breed").
Proof.
  intros Hh Hw Hmh Hmw Hg.
  apply run_genetic_algorithm_unbound
    with (mh := mh) (mw := mw) (num_from_best := 2%Z)
         (num_from_random := 0%Z) (pairs := 1%Z);
    try lia; try assumption; vm_compute; reflexivity.
Qed.

(** C7, as the code has it.  There is no validation and no
    InvalidConfiguration error: the source has no [raise] and defines
    no exception, so whatever a run raises is an exception of Python or
    numpy.  What a degenerate configuration does depends on which one
    it is.
    - Zero children per pair (extents not negative): [ZeroDivisionError],
      after the population is seeded and before the first generation.
    - Population size 0 (2 children per pair, on doubles): nothing is
      raised, the run returns the empty population.
    - A negative height or width (population size 1 or more):
      [ValueError] from [np.zeros], while the population is seeded.
    - Height or width 0 (default population and children, one
      generation or more, on doubles): [ValueError] from [np.min] of an
      empty grid, in the ranking of the first generation.
    - Height or width 1 is not rejected at all: on doubles the default
      run on grids of any extents from 1 up ends as every such run does,
      with [NameError] at the call of [breed]. *)
Theorem degenerate_configurations :
  (forall (F : Type) (S : Scalar F)
          (pnoise2 : F -> F -> Z -> F -> F -> Z -> Z -> Z -> F)
          (h w generations population_size : Z) (world : world F),
      (0 <= h)%Z -> (0 <= w)%Z ->
      run_genetic_algorithm pnoise2 h w generations population_size 0 world
      = Raise ZeroDivisionError) /\
  (forall (pnoise2 : spec_float -> spec_float -> Z -> spec_float ->
                     spec_float -> Z -> Z -> Z -> spec_float)
          (h w generations : Z) (world : world spec_float),
      run_genetic_algorithm pnoise2 h w generations 0 2 world
      = Ok (mk_nd [0] [], world)) /\
  (forall (F : Type) (S : Scalar F)
          (pnoise2 : F -> F -> Z -> F -> F -> Z -> Z -> Z -> F)
          (h w generations population_size num_children : Z)
          (world : world F),
      (h < 0 \/ w < 0)%Z -> (1 <= population_size)%Z ->
      run_genetic_algorithm pnoise2 h w generations population_size
                            num_children world
      = Raise ValueError) /\
  (forall (pnoise2 : spec_float -> spec_float -> Z -> spec_float ->
                     spec_float -> Z -> Z -> Z -> spec_float)
          (h w mh mw generations : Z) (world : world spec_float),
      (0 <= h)%Z -> (0 <= w)%Z -> (h = 0 \/ w = 0)%Z ->
      f_int (F := spec_float) (f_div (f_of_Z h) (f_of_Z 2)) = Ok mh ->
      f_int (F := spec_float) (f_div (f_of_Z w) (f_of_Z 2)) = Ok mw ->
      (1 <= generations)%Z ->
      run_genetic_algorithm pnoise2 h w generations 4 2 world
      = Raise ValueError) /\
  (forall (pnoise2 : spec_float -> spec_float -> Z -> spec_float ->
                     spec_float -> Z -> Z -> Z -> spec_float)
          (h w mh mw generations : Z) (world : world spec_float),
      (1 <= h)%Z -> (1 <= w)%Z ->
      f_int (F := spec_float) (f_div (f_of_Z h) (f_of_Z 2)) = Ok mh ->
      f_int (F := spec_float) (f_div (f_of_Z w) (f_of_Z 2)) = Ok mw ->
      (1 <= generations)%Z ->
      run_genetic_algorithm pnoise2 h w generations 4 2 world
      = Raise (NameError "breed")) /\
  (forall (F : Type) (S : Scalar F)
          (pnoise2 : F -> F -> Z -> F -> F -> Z -> Z -> Z -> F)
          (h w generations population_size num_children : Z)
          (world : world F) (e : exn),
      run_genetic_algorithm pnoise2 h w generations population_size
                            num_children world
      = Raise e ->
      exn_name e <> "InvalidConfiguration"%string).
Proof.
  split; [|split; [|split; [|split; [|split]]]].
  - intros F S pnoise2 h w generations population_size world Hh Hw.
    unfold run_genetic_algorithm, run_genetic_algorithm_with.
    destruct (generate_original_population_total pnoise2 h w population_size
                                                 world Hh Hw)
      as (population & world' & Hpop).
    erewrite bind_ok by exact Hpop. reflexivity.
  - intros pnoise2 h w generations world.
    unfold run_genetic_algorithm, run_genetic_algorithm_with.
    erewrite bind_ok by reflexivity.
    erewrite bind_ok by reflexivity.
    erewrite bind_ok by reflexivity.
    erewrite bind_ok by reflexivity.
    erewrite bind_ok by reflexivity.
    apply empty_population_survives.
  - intros F S pnoise2 h w generations population_size num_children world
           Hneg Hn.
    unfold run_genetic_algorithm, run_genetic_algorithm_with.
    apply bind_raise. apply seeding_negative_extent; assumption.
  - intros. eapply default_run_no_cell; eassumption.
  - intros. eapply default_run_with_cells; eassumption.
  - intros F S pnoise2 h w generations population_size num_children world e _.
    destruct e; discriminate.
Qed.

End ValidationTheorems.

(** ** Constant grids *)

Lemma firstn_repeat {A} (x : A) (k n : nat) :
  firstn k (repeat x n) = repeat x (Nat.min k n).
Proof.
  revert n; induction k as [|k IH]; intros [|n]; simpl; auto.
  rewrite IH. reflexivity.
Qed.

Lemma skipn_repeat {A} (x : A) (k n : nat) :
  skipn k (repeat x n) = repeat x (n - k).
Proof.
  revert n; induction k as [|k IH]; intros [|n]; simpl; auto.
Qed.

Lemma map_const_seq {A} (x : A) (a n : nat) :
  map (fun _ => x) (seq a n) = repeat x n.
Proof.
  revert a; induction n as [|n IH]; intros a; simpl; auto.
  rewrite IH. reflexivity.
Qed.

(** A rectangular block of a constant grid is constant. *)
Lemma slice2_full {A} (c : A) (h w r0 r1 c0 c1 : nat) :
  r1 <= h -> c1 <= w ->
  slice2 (full [h; w] c) r0 r1 c0 c1
  = Ok (full [r1 - r0; c1 - c0] c).
Proof.
  intros Hr Hc. unfold slice2, full. simpl shape. cbn [data].
  rewrite (Nat.min_l r1 h), (Nat.min_l c1 w) by assumption. cbv zeta.
  f_equal. f_equal.
  rewrite !size_cons. change (size []) with 1.
  rewrite <- (concat_repeat c ((c1 - c0) * 1) (r1 - r0)).
  f_equal. rewrite <- (map_const_seq (repeat c ((c1 - c0) * 1)) r0).
  apply map_ext_in. intros r Hin. apply in_seq in Hin.
  rewrite skipn_repeat, firstn_repeat. f_equal. nia.
Qed.

Lemma full_well_formed {A} (s : list nat) (c : A) : well_formed (full s c).
Proof. unfold well_formed, full. simpl. apply repeat_length. Qed.

Section ConstantFacts.
Context {F : Type} `{Scalar F}.

Lemma minimum_repeat (c : F) (n : nat) :
  fold_left minimum (repeat c n) c = c.
Proof.
  induction n as [|n IH]; [reflexivity|].
  change (repeat c (S n)) with (c :: repeat c n). cbn [fold_left].
  replace (minimum c c) with c; [exact IH|].
  unfold minimum. destruct (f_ltb c c || f_isnan c); reflexivity.
Qed.

Lemma maximum_repeat (c : F) (n : nat) :
  fold_left maximum (repeat c n) c = c.
Proof.
  induction n as [|n IH]; [reflexivity|].
  change (repeat c (S n)) with (c :: repeat c n). cbn [fold_left].
  replace (maximum c c) with c; [exact IH|].
  unfold maximum. destruct (f_ltb c c || f_isnan c); reflexivity.
Qed.

(** On a constant grid each level metric is the norm of the difference
    between the level and the target: of a grid of such differences for
    [sea_level], of the one difference for [bedrock] and [mountains]. *)
Lemma level_metrics_full (h w : nat) (c target : F) :
  1 <= h -> 1 <= w ->
  sea_level (full [h; w] c) target
  = Ok (norm (full [h; w] (f_sub c target))) /\
  bedrock (full [h; w] c) target = Ok (norm (scalar_nd (f_sub c target))) /\
  mountains (full [h; w] c) target = Ok (norm (scalar_nd (f_sub c target))).
Proof.
  intros Hh Hw.
  assert (Hdata : exists n, data (full [h; w] c) = c :: repeat c n).
  { unfold full. cbn [data]. rewrite !size_cons. change (size []) with 1.
    destruct (h * (w * 1)) as [|n] eqn:E; [nia|].
    exists n. reflexivity. }
  destruct Hdata as (n & Hdata).
  repeat split.
  - unfold sea_level. rewrite binop_scalar_r by apply full_well_formed.
    cbn [rbind]. f_equal.
    unfold full at 1 2. cbn [data shape]. rewrite map_repeat. reflexivity.
  - unfold bedrock, Np.min. rewrite Hdata. cbn [rbind].
    rewrite minimum_repeat. reflexivity.
  - unfold mountains, Np.max. rewrite Hdata. cbn [rbind].
    rewrite maximum_repeat. reflexivity.
Qed.

End ConstantFacts.

(** ** Zeros on doubles *)

Section ZeroBinary64.

Lemma digits2_pos_lower (p : positive) :
  (2 ^ (Z.pos (digits2_pos p) - 1) <= Z.pos p)%Z.
Proof.
  induction p as [p IH|p IH|]; cbn [digits2_pos].
  - rewrite Pos2Z.inj_succ.
    replace (Z.succ (Z.pos (digits2_pos p)) - 1)%Z
      with (Z.succ (Z.pos (digits2_pos p) - 1)) by lia.
    rewrite Z.pow_succ_r by lia. lia.
  - rewrite Pos2Z.inj_succ.
    replace (Z.succ (Z.pos (digits2_pos p)) - 1)%Z
      with (Z.succ (Z.pos (digits2_pos p) - 1)) by lia.
    rewrite Z.pow_succ_r by lia. lia.
  - simpl. lia.
Qed.

(** One step of the right shift halves the mantissa. *)
Lemma shr_1_m (r : shr_record) :
  (0 <= shr_m r)%Z -> shr_m (shr_1 r) = Z.div2 (shr_m r).
Proof.
  destruct r as [m rb sb]. cbn [shr_m]. intros Hm.
  destruct m as [|[p|p|]|p]; try reflexivity; lia.
Qed.

Lemma iter_shr_1_m (n : positive) :
  forall r, (0 <= shr_m r)%Z ->
            shr_m (iter_pos shr_1 n r) = Z.shiftr (shr_m r) (Z.pos n).
Proof.
  induction n as [n IH|n IH|]; intros r Hr; cbn [iter_pos].
  - assert (H1 : (0 <= shr_m (shr_1 r))%Z).
    { rewrite shr_1_m by exact Hr. apply Z.div2_nonneg. exact Hr. }
    assert (H2 : (0 <= shr_m (iter_pos shr_1 n (shr_1 r)))%Z).
    { rewrite IH by exact H1. apply Z.shiftr_nonneg. exact H1. }
    rewrite IH by exact H2. rewrite IH by exact H1.
    rewrite shr_1_m by exact Hr. rewrite Z.div2_spec.
    rewrite !Z.shiftr_shiftr by lia. f_equal. lia.
  - assert (H2 : (0 <= shr_m (iter_pos shr_1 n r))%Z).
    { rewrite IH by exact Hr. apply Z.shiftr_nonneg. exact Hr. }
    rewrite IH by exact H2. rewrite IH by exact Hr.
    rewrite Z.shiftr_shiftr by lia. f_equal. lia.
  - rewrite shr_1_m by exact Hr. apply Z.div2_spec.
Qed.

Lemma shr_record_of_loc_m (m : Z) (l : location) :
  shr_m (shr_record_of_loc m l) = m.
Proof. destruct l as [|[]]; reflexivity. Qed.

(** Rounding a positive mantissa whose exponent is not below the
    smallest one leaves a positive mantissa: the shift drops fewer bits
    than the mantissa has. *)
Lemma shr_fexp_above_zero (m e : Z) (l : location) :
  (0 < m)%Z -> (emin Binary64.prec Binary64.emax <= e)%Z ->
  (0 < shr_m (fst (shr_fexp Binary64.prec Binary64.emax m e l)))%Z /\
  (emin Binary64.prec Binary64.emax
   <= snd (shr_fexp Binary64.prec Binary64.emax m e l))%Z.
Proof.
  intros Hm He. unfold shr_fexp, shr.
  destruct m as [|p|p]; try lia. cbn [Zdigits2].
  pose proof (digits2_pos_lower p) as Hd.
  set (d := Z.pos (digits2_pos p)) in *.
  assert (Hd1 : (1 <= d)%Z) by (subst d; lia).
  unfold fexp, emin, Binary64.prec, Binary64.emax in *.
  destruct (Z.max (d + e - 53) (3 - 1024 - 53) - e)%Z as [|n|n] eqn:En;
    cbn [fst snd]; rewrite ?shr_record_of_loc_m; try (split; lia).
  rewrite iter_shr_1_m by (rewrite shr_record_of_loc_m; lia).
  rewrite shr_record_of_loc_m. split; [|lia].
  rewrite Z.shiftr_div_pow2 by lia.
  apply Z.div_str_pos. split; [apply Z.pow_pos_nonneg; lia|].
  eapply Z.le_trans; [|exact Hd].
  apply Z.pow_le_mono_r; lia.
Qed.

Lemma round_nearest_even_above (m : Z) (l : location) :
  (0 < m)%Z -> (0 < round_nearest_even m l)%Z.
Proof.
  intros Hm. unfold round_nearest_even.
  destruct l as [|[]]; try lia. destruct (Z.even m); lia.
Qed.

Lemma round_aux_above_zero (m e : Z) (l : location) :
  (0 < m)%Z -> (emin Binary64.prec Binary64.emax <= e)%Z ->
  above_zero (binary_round_aux Binary64.prec Binary64.emax false m e l).
Proof.
  intros Hm He. unfold binary_round_aux.
  pose proof (shr_fexp_above_zero m e l Hm He) as [H1 H2].
  destruct (shr_fexp Binary64.prec Binary64.emax m e l) as [mrs' e'].
  cbn [fst snd] in H1, H2.
  pose proof (round_nearest_even_above (shr_m mrs') (loc_of_shr_record mrs') H1)
    as H3.
  pose proof (shr_fexp_above_zero _ e' loc_Exact H3 H2) as [H4 _].
  destruct (shr_fexp Binary64.prec Binary64.emax _ e' loc_Exact)
    as [mrs'' e''].
  cbn [fst] in H4.
  destruct (shr_m mrs'') as [|q|q]; try lia.
  destruct (e'' <=? _)%Z; exact I.
Qed.

(** A positive integer converts to a float above zero. *)
Lemma of_Z_above_zero (z : Z) : (0 < z)%Z -> above_zero (Binary64.of_Z z).
Proof.
  intros Hz. destruct z as [|p|p]; try lia.
  unfold Binary64.of_Z, binary_normalize, binary_round.
  destruct (shl_align p 0 _) as [mz ez] eqn:E.
  apply round_aux_above_zero; [lia|].
  unfold shl_align in E.
  unfold fexp, emin, Binary64.prec, Binary64.emax in *.
  destruct (Z.max (Z.pos (digits2_pos p) + 0 - 53) (3 - 1024 - 53) - 0)%Z
    eqn:En; inversion E; subst; lia.
Qed.

Lemma binary64_sum_zeros (n : nat) :
  Np.sum (repeat (S754_zero false) n) = S754_zero false.
Proof.
  unfold Np.sum. change (zero (F := spec_float)) with (S754_zero false).
  induction n as [|n IH]; [reflexivity|].
  change (repeat (S754_zero false) (S n))
    with (S754_zero false :: repeat (S754_zero false) n).
  cbn [fold_left]. exact IH.
Qed.

Lemma binary64_zero_ratio (z : Z) :
  (0 < z)%Z ->
  f_div (F := spec_float) (S754_zero false) (f_of_Z z) = S754_zero false.
Proof.
  intros Hz. pose proof (of_Z_above_zero z Hz) as Hp.
  change (f_of_Z (F := spec_float) z) with (Binary64.of_Z z).
  destruct (Binary64.of_Z z) as [sg|sg| |sg m e]; simpl in Hp;
    try contradiction; destruct sg; try contradiction; reflexivity.
Qed.

(** The variance of a grid of zeros is zero, exactly. *)
Lemma binary64_var_zeros (s : list nat) :
  0 < size s -> var (full s (S754_zero false)) = S754_zero false.
Proof.
  intros Hn. unfold var, full. cbn [data]. rewrite repeat_length.
  rewrite binary64_sum_zeros.
  rewrite binary64_zero_ratio by lia.
  rewrite !map_repeat.
  change (f_sub (F := spec_float) (S754_zero false) (S754_zero false))
    with (S754_zero false).
  change (f_mul (F := spec_float) (S754_zero false) (S754_zero false))
    with (S754_zero false).
  rewrite binary64_sum_zeros.
  apply binary64_zero_ratio. lia.
Qed.

Lemma binary64_norm_zeros (s : list nat) :
  norm (full s (S754_zero false)) = S754_zero false.
Proof.
  unfold norm, full. cbn [data]. rewrite map_repeat.
  change (f_mul (F := spec_float) (S754_zero false) (S754_zero false))
    with (S754_zero false).
  rewrite binary64_sum_zeros. reflexivity.
Qed.

End ZeroBinary64.

Section ConstantTheorem.

(** C5, as the code has it.  On a constant grid of at least 2x2 cells,
    in every arithmetic, the sea-level metric is the norm of a grid
    holding the difference between the level and the target in every
    cell, and the bedrock and mountain metrics are the norm of that one
    difference.  On doubles: each of the three is 0 when the level is
    its target (25, -2000, 3500), and away from the target it is positive
    on both sides (2x2 grids: 2 at levels 24 and 26, 1 at -2001 and
    -1999, 1 at 3499 and 3501); the quadrant-variance metric is 0 on a
    grid of zeros, but not at every level: on the 8x8 grid of 0.1 it is a
    negative number, the residue of rounding. *)
Theorem constant_grid_metrics :
  (forall (F : Type) (S : Scalar F) (h w : nat) (c target : F),
      2 <= h -> 2 <= w ->
      sea_level (full [h; w] c) target
      = Ok (norm (full [h; w] (f_sub c target))) /\
      bedrock (full [h; w] c) target
      = Ok (norm (scalar_nd (f_sub c target))) /\
      mountains (full [h; w] c) target
      = Ok (norm (scalar_nd (f_sub c target)))) /\
  (forall h w : nat,
      2 <= h -> 2 <= w ->
      sea_level (full [h; w] sea_level_target) sea_level_target
      = Ok (S754_zero false) /\
      bedrock (full [h; w] bedrock_target) bedrock_target
      = Ok (S754_zero false) /\
      mountains (full [h; w] mountains_target) mountains_target
      = Ok (S754_zero false)) /\
  (forall (h w : nat) (mh mw : Z),
      2 <= h -> 2 <= w ->
      f_int (F := spec_float) (f_div (f_of_Z (Z.of_nat h)) (f_of_Z 2))
      = Ok mh ->
      f_int (F := spec_float) (f_div (f_of_Z (Z.of_nat w)) (f_of_Z 2))
      = Ok mw ->
      (0 < mh < Z.of_nat h)%Z -> (0 < mw < Z.of_nat w)%Z ->
      loc_glbl_var (full [h; w] (S754_zero false)) = Ok (S754_zero false)) /\
  (exists m e,
      loc_glbl_var (full [8; 8] (py_float (F := spec_float) 1 10))
      = Ok (S754_finite true m e)) /\
  (sea_level (full [2; 2] (Binary64.of_Z 24)) sea_level_target
   = Ok (Binary64.of_Z 2) /\
   sea_level (full [2; 2] (Binary64.of_Z 26)) sea_level_target
   = Ok (Binary64.of_Z 2) /\
   bedrock (full [2; 2] (Binary64.of_Z (-2001))) bedrock_target
   = Ok (Binary64.of_Z 1) /\
   bedrock (full [2; 2] (Binary64.of_Z (-1999))) bedrock_target
   = Ok (Binary64.of_Z 1) /\
   mountains (full [2; 2] (Binary64.of_Z 3499)) mountains_target
   = Ok (Binary64.of_Z 1) /\
   mountains (full [2; 2] (Binary64.of_Z 3501)) mountains_target
   = Ok (Binary64.of_Z 1)).
Proof.
  split; [|split; [|split; [|split]]].
  - intros F S h w c target Hh Hw. apply level_metrics_full; lia.
  - intros h w Hh Hw.
    destruct (level_metrics_full h w (sea_level_target (F := spec_float))
                sea_level_target ltac:(lia) ltac:(lia)) as (Hsea & _ & _).
    destruct (level_metrics_full h w (bedrock_target (F := spec_float))
                bedrock_target ltac:(lia) ltac:(lia)) as (_ & Hbed & _).
    destruct (level_metrics_full h w (mountains_target (F := spec_float))
                mountains_target ltac:(lia) ltac:(lia)) as (_ & _ & Hmou).
    rewrite Hsea, Hbed, Hmou.
    repeat split; try (vm_compute; reflexivity).
    change (f_sub (F := spec_float) sea_level_target sea_level_target)
      with (S754_zero false).
    rewrite binary64_norm_zeros. reflexivity.
  - intros h w mh mw Hh Hw Hmh Hmw Hrh Hrw.
    unfold loc_glbl_var. cbn [shape full rmap].
    unfold py_truediv. simpl (2 =? 0)%Z. cbv iota. cbn [rbind].
    rewrite Hmh, Hmw. cbn [rbind Py.index nth_error nth].
    change (mk_nd [h; w] (repeat (S754_zero false) (size [h; w])))
      with (full [h; w] (S754_zero false)).
    rewrite !slice2_full by lia. cbn [rbind].
    rewrite !binary64_var_zeros
      by (rewrite !size_cons; change (size []) with 1; nia).
    reflexivity.
  - eexists. eexists. vm_compute. reflexivity.
  - repeat split; vm_compute; reflexivity.
Qed.

End ConstantTheorem.

(** ** The mutation gate *)

Section GateBinary64.

Lemma round_aux_not_negative (m : Z) (e : Z) (l : location) :
  Binary64.not_negative (binary_round_aux Binary64.prec Binary64.emax false m e l).
Proof.
  unfold binary_round_aux.
  destruct (shr_fexp _ _ m e l) as [mrs' e'].
  destruct (shr_fexp _ _ _ e' loc_Exact) as [mrs'' e''].
  destruct (shr_m mrs'') as [|p|p]; simpl; auto.
  destruct (e'' <=? _)%Z; simpl; auto.
Qed.

Lemma of_Z_not_negative (z : Z) :
  (0 <= z)%Z -> Binary64.not_negative (Binary64.of_Z z).
Proof.
  intros Hz. unfold Binary64.of_Z, binary_normalize.
  destruct z as [|p|p]; [exact I| |lia].
  unfold binary_round.
  destruct (shl_align p 0 _) as [mz ez].
  apply round_aux_not_negative.
Qed.

Lemma unit_float_not_negative (raw : N) :
  Binary64.not_negative (unit_float (F := spec_float) raw).
Proof.
  unfold unit_float.
  pose proof (of_Z_not_negative (Z.of_N raw mod two53)
                ltac:(apply Z.mod_pos_bound; reflexivity)) as Hk.
  assert (E : f_of_Z (F := spec_float) two53
              = S754_finite false 4503599627370496 1)
    by (vm_compute; reflexivity).
  rewrite E.
  change (f_of_Z (F := spec_float) (Z.of_N raw mod two53))
    with (Binary64.of_Z (Z.of_N raw mod two53)).
  change (f_div (F := spec_float))
    with (SFdiv Binary64.prec Binary64.emax).
  destruct (Binary64.of_Z (Z.of_N raw mod two53)) as [s|s| |s m e];
    simpl in Hk; try subst s; try exact I; try reflexivity.
  unfold SFdiv.
  match goal with
  | |- context [SFdiv_core_binary ?p ?x ?m1 ?e1 ?m2 ?e2] =>
      destruct (SFdiv_core_binary p x m1 e1 m2 e2) as [[mz ez] lz]
  end.
  apply round_aux_not_negative.
Qed.

(** With a chance of 0 the comparison [random() * 100 < 0] fails for
    every draw. *)
Lemma gate_closed_binary64 (raw : N) :
  f_ltb (f_mul (unit_float (F := spec_float) raw) (f_of_Z 100)) (f_of_Z 0)
  = false.
Proof.
  pose proof (unit_float_not_negative raw) as Hr.
  assert (E0 : f_of_Z (F := spec_float) 0 = S754_zero false) by reflexivity.
  assert (E100 : f_of_Z (F := spec_float) 100
                 = S754_finite false 7036874417766400 (-46))
    by (vm_compute; reflexivity).
  rewrite E0, E100.
  change (f_ltb (F := spec_float)) with SFltb.
  change (f_mul (F := spec_float)) with (SFmul Binary64.prec Binary64.emax).
  destruct (unit_float raw) as [s|s| |s m e]; simpl in Hr; try subst s;
    try reflexivity.
  unfold SFmul.
  pose proof (round_aux_not_negative
                (Z.pos (m * 7036874417766400)) (e + -46) loc_Exact) as Hp.
  simpl xorb.
  destruct (binary_round_aux Binary64.prec Binary64.emax false _ _ loc_Exact)
    as [s'|s'| |s' m' e']; simpl in Hp; try subst s'; reflexivity.
Qed.

(** *** Draws as doubles, digit by digit

    The other two gates need the value of a draw and of its product
    with [100]: the number of binary digits of a mantissa decides how
    far rounding shifts it. *)

Lemma digits2_pos_upper (p : positive) :
  (Z.pos p < 2 ^ Z.pos (digits2_pos p))%Z.
Proof.
  induction p as [p IH|p IH|]; cbn [digits2_pos].
  - rewrite Pos2Z.inj_succ, Z.pow_succ_r by lia. lia.
  - rewrite Pos2Z.inj_succ, Z.pow_succ_r by lia. lia.
  - reflexivity.
Qed.

Lemma digits2_pos_eq (p : positive) (d : Z) :
  (2 ^ (d - 1) <= Z.pos p < 2 ^ d)%Z -> Z.pos (digits2_pos p) = d.
Proof.
  intros [Hlo Hhi].
  pose proof (digits2_pos_lower p) as Hl.
  pose proof (digits2_pos_upper p) as Hu.
  set (d' := Z.pos (digits2_pos p)) in *.
  assert (Hd' : (1 <= d')%Z) by (subst d'; lia).
  assert (Hd : (1 <= d)%Z).
  { destruct (Z.lt_ge_cases d 1) as [H|H]; [|exact H].
    assert (2 ^ d <= 2 ^ 0)%Z
      by (destruct (Z.lt_ge_cases d 0);
          [rewrite Z.pow_neg_r by lia; simpl; lia
          |apply Z.pow_le_mono_r; lia]).
    simpl in *. lia. }
  destruct (Z.lt_trichotomy d' d) as [H|[H|H]]; auto.
  - assert (2 ^ d' <= 2 ^ (d - 1))%Z by (apply Z.pow_le_mono_r; lia). lia.
  - assert (2 ^ d <= 2 ^ (d' - 1))%Z by (apply Z.pow_le_mono_r; lia). lia.
Qed.

(** Shifting out zeros. *)
Lemma shr_1_exact (w : Z) :
  (0 < w)%Z ->
  shr_1 (Build_shr_record (w * 2 ^ 1) false false)
  = Build_shr_record w false false.
Proof.
  intros Hw. destruct w as [|p|p]; try lia.
  replace (Z.pos p * 2 ^ 1)%Z with (Z.pos p~0) by lia. reflexivity.
Qed.

Lemma iter_shr_1_exact (n : positive) :
  forall z : Z, (0 < z)%Z ->
    iter_pos shr_1 n (Build_shr_record (z * 2 ^ Z.pos n) false false)
    = Build_shr_record z false false.
Proof.
  induction n as [n IH|n IH|]; intros z Hz; cbn [iter_pos].
  - replace (z * 2 ^ Z.pos n~1)%Z
      with ((z * 2 ^ Z.pos n * 2 ^ Z.pos n) * 2 ^ 1)%Z.
    2:{ rewrite Pos2Z.inj_xI, <- !Z.mul_assoc, <- !Z.pow_add_r by lia.
        do 2 f_equal. lia. }
    assert (H1 : (0 < z * 2 ^ Z.pos n)%Z)
      by (apply Z.mul_pos_pos; [lia|apply Z.pow_pos_nonneg; lia]).
    assert (H2 : (0 < z * 2 ^ Z.pos n * 2 ^ Z.pos n)%Z)
      by (apply Z.mul_pos_pos; [lia|apply Z.pow_pos_nonneg; lia]).
    rewrite shr_1_exact by exact H2.
    rewrite IH by exact H1. apply IH. exact Hz.
  - replace (z * 2 ^ Z.pos n~0)%Z
      with (z * 2 ^ Z.pos n * 2 ^ Z.pos n)%Z.
    2:{ rewrite Pos2Z.inj_xO, <- !Z.mul_assoc, <- !Z.pow_add_r by lia.
        do 2 f_equal. lia. }
    assert (H1 : (0 < z * 2 ^ Z.pos n)%Z)
      by (apply Z.mul_pos_pos; [lia|apply Z.pow_pos_nonneg; lia]).
    rewrite IH by exact H1. apply IH. exact Hz.
  - apply shr_1_exact. exact Hz.
Qed.

Lemma shr_fexp_exact (q : positive) (n E : Z) :
  (2 ^ 52 <= Z.pos q < 2 ^ 53)%Z -> (0 <= n)%Z -> (-1074 <= E + n)%Z ->
  shr_fexp Binary64.prec Binary64.emax (Z.pos q * 2 ^ n) E loc_Exact
  = (Build_shr_record (Z.pos q) false false, (E + n)%Z).
Proof.
  intros Hq Hn HE.
  assert (Hpow : (0 < 2 ^ n)%Z) by (apply Z.pow_pos_nonneg; lia).
  destruct (Z.pos q * 2 ^ n)%Z as [|P|P] eqn:EP; try lia.
  assert (Hd : Z.pos (digits2_pos P) = (53 + n)%Z).
  { apply digits2_pos_eq. rewrite <- EP.
    replace (53 + n - 1)%Z with (52 + n)%Z by lia.
    rewrite !Z.pow_add_r by lia. split.
    - apply Z.mul_le_mono_nonneg_r; lia.
    - apply Z.mul_lt_mono_pos_r; lia. }
  unfold shr_fexp, shr. cbn [Zdigits2 shr_record_of_loc]. rewrite Hd.
  unfold fexp, emin, Binary64.prec, Binary64.emax.
  replace (Z.max (53 + n + E - 53) (3 - 1024 - 53) - E)%Z with n by lia.
  destruct n as [|n|n]; try lia.
  - rewrite <- EP. rewrite Z.mul_1_r, Z.add_0_r. reflexivity.
  - rewrite <- EP. rewrite iter_shr_1_exact by lia. reflexivity.
Qed.

(** Rounding a mantissa of 53 digits followed by zeros drops the
    zeros. *)
Lemma round_aux_exact (q : positive) (n E : Z) :
  (2 ^ 52 <= Z.pos q < 2 ^ 53)%Z -> (0 <= n)%Z ->
  (-1074 <= E + n <= 971)%Z ->
  binary_round_aux Binary64.prec Binary64.emax false (Z.pos q * 2 ^ n) E
                   loc_Exact
  = S754_finite false q (E + n).
Proof.
  intros Hq Hn HE. unfold binary_round_aux.
  rewrite shr_fexp_exact by (try assumption; lia).
  cbn [shr_m loc_of_shr_record round_nearest_even].
  pose proof (shr_fexp_exact q 0 (E + n) Hq ltac:(lia) ltac:(lia)) as H2.
  rewrite Z.mul_1_r, Z.add_0_r in H2. rewrite H2. cbn [shr_m].
  unfold Binary64.prec, Binary64.emax.
  destruct (Z.leb_spec (E + n) (1024 - 53)); [reflexivity|lia].
Qed.

Lemma round_aux_canonical (q : positive) (E : Z) :
  (2 ^ 52 <= Z.pos q < 2 ^ 53)%Z -> (-1074 <= E <= 971)%Z ->
  binary_round_aux Binary64.prec Binary64.emax false (Z.pos q) E loc_Exact
  = S754_finite false q E.
Proof.
  intros Hq HE.
  pose proof (round_aux_exact q 0 E Hq ltac:(lia) ltac:(lia)) as H.
  rewrite Z.mul_1_r, Z.add_0_r in H. exact H.
Qed.

Lemma pos_iter_xO (p s : positive) :
  Z.pos (Pos.iter xO p s) = (Z.pos p * 2 ^ Z.pos s)%Z.
Proof.
  rewrite <- Z.shiftl_mul_pow2 by lia. unfold Z.shiftl.
  apply (Pos.iter_swap_gen _ _ Z.pos xO (Z.mul 2)). reflexivity.
Qed.

(** An integer of at most 53 bits as a double: the mantissa is the
    integer shifted up to 53 bits. *)
Lemma of_Z_canonical (k d : Z) :
  (2 ^ (d - 1) <= k < 2 ^ d)%Z -> (1 <= d <= 53)%Z ->
  exists mz, Z.pos mz = (k * 2 ^ (53 - d))%Z /\
             (2 ^ 52 <= Z.pos mz < 2 ^ 53)%Z /\
             Binary64.of_Z k = S754_finite false mz (d - 53).
Proof.
  intros Hk Hd.
  assert (H0 : (0 < 2 ^ (d - 1))%Z) by (apply Z.pow_pos_nonneg; lia).
  assert (Hpow : (0 < 2 ^ (53 - d))%Z) by (apply Z.pow_pos_nonneg; lia).
  destruct k as [|p|p]; try lia.
  assert (Hdig : Z.pos (digits2_pos p) = d) by (apply digits2_pos_eq; exact Hk).
  assert (Hb : (2 ^ 52 <= Z.pos p * 2 ^ (53 - d) < 2 ^ 53)%Z).
  { assert (E52 : (2 ^ 52 = 2 ^ (d - 1) * 2 ^ (53 - d))%Z)
      by (rewrite <- Z.pow_add_r by lia; f_equal; lia).
    assert (E53 : (2 ^ 53 = 2 ^ d * 2 ^ (53 - d))%Z)
      by (rewrite <- Z.pow_add_r by lia; f_equal; lia).
    split.
    - rewrite E52. apply Z.mul_le_mono_nonneg_r; lia.
    - rewrite E53. apply Z.mul_lt_mono_pos_r; lia. }
  assert (Hpos : (0 < Z.pos p * 2 ^ (53 - d))%Z)
    by (apply Z.mul_pos_pos; lia).
  destruct (Z.pos p * 2 ^ (53 - d))%Z as [|mz|mz] eqn:Emz; try lia.
  exists mz. split; [reflexivity|]. split; [exact Hb|].
  unfold Binary64.of_Z, binary_normalize, binary_round, shl_align.
  rewrite Hdig. unfold fexp, emin, Binary64.prec, Binary64.emax.
  replace (Z.max (d + 0 - 53) (3 - 1024 - 53) - 0)%Z with (d - 53)%Z by lia.
  destruct (d - 53)%Z as [|s|s] eqn:Es; try lia.
  - assert (Hd53 : d = 53%Z) by lia. rewrite Hd53 in Emz.
    change (2 ^ (53 - 53))%Z with 1%Z in Emz. rewrite Z.mul_1_r in Emz.
    injection Emz as ->.
    apply (round_aux_canonical mz 0); [exact Hb|lia].
  - replace (Z.max (d + 0 - 53) (3 - 1024 - 53)) with (Z.neg s) by lia.
    assert (Hmz : Pos.iter xO p s = mz).
    { apply Pos2Z.inj. rewrite pos_iter_xO, <- Emz. do 2 f_equal. lia. }
    rewrite Hmz. apply (round_aux_canonical mz (Z.neg s)); [exact Hb|lia].
Qed.

Lemma div_eucl_shift (m : positive) :
  Z.div_eucl (Z.shiftl (Z.pos m) 53) 4503599627370496
  = ((Z.pos m * 2 ^ 1)%Z, 0%Z).
Proof.
  assert (E : forall a b, Z.div_eucl a b = ((a / b)%Z, (a mod b)%Z)).
  { intros a b. unfold Z.div, Z.modulo.
    destruct (Z.div_eucl a b); reflexivity. }
  rewrite E, Z.shiftl_mul_pow2 by lia.
  replace (Z.pos m * 2 ^ 53)%Z with (Z.pos m * 2 ^ 1 * 4503599627370496)%Z
    by (change (2 ^ 53)%Z with (2 ^ 1 * 4503599627370496)%Z; lia).
  rewrite Z.div_mul, Z.mod_mul by lia. reflexivity.
Qed.

(** A draw [k > 0] of [d] bits as a float: [k / 2**53] with no
    rounding. *)
Lemma unit_float_canonical (raw : N) (d : Z) :
  (2 ^ (d - 1) <= Z.of_N raw mod two53 < 2 ^ d)%Z -> (1 <= d <= 53)%Z ->
  exists mz, Z.pos mz = (Z.of_N raw mod two53 * 2 ^ (53 - d))%Z /\
             (2 ^ 52 <= Z.pos mz < 2 ^ 53)%Z /\
             unit_float (F := spec_float) raw = S754_finite false mz (d - 106).
Proof.
  intros Hk Hd. unfold unit_float.
  change (f_of_Z (F := spec_float)) with Binary64.of_Z.
  change (f_div (F := spec_float)) with (SFdiv Binary64.prec Binary64.emax).
  destruct (of_Z_canonical _ d Hk Hd) as (mz & Emz & Hb & ->).
  exists mz. split; [exact Emz|]. split; [exact Hb|].
  replace (Binary64.of_Z two53)
    with (S754_finite false 4503599627370496 1) by (vm_compute; reflexivity).
  unfold SFdiv, SFdiv_core_binary. cbn [Zdigits2 xorb].
  rewrite (digits2_pos_eq mz 53) by exact Hb.
  change (Z.pos (digits2_pos 4503599627370496)) with 53%Z.
  unfold fexp, emin, Binary64.prec, Binary64.emax.
  replace (Z.min (Z.max (53 + (d - 53) - (53 + 1) - 53) (3 - 1024 - 53))
                 (d - 53 - 1))%Z with (d - 107)%Z by lia.
  replace (d - 53 - 1 - (d - 107))%Z with 53%Z by lia.
  cbv iota. rewrite div_eucl_shift.
  change (new_location 4503599627370496 0) with loc_Exact.
  pose proof (round_aux_exact mz 1 (d - 107) Hb ltac:(lia) ltac:(lia)) as R.
  unfold Binary64.prec, Binary64.emax in R. rewrite R.
  f_equal. lia.
Qed.

Lemma SFltb_finite (m1 m2 : positive) (e1 e2 : Z) :
  SFltb (S754_finite false m1 e1) (S754_finite false m2 e2)
  = ((e1 <? e2)%Z || ((e1 =? e2)%Z && (Z.pos m1 <? Z.pos m2)%Z)).
Proof.
  unfold SFltb, SFcompare.
  destruct (Z.compare_spec e1 e2) as [He|He|He].
  - subst. rewrite Z.ltb_irrefl, Z.eqb_refl. cbn [orb andb].
    change (Pos.compare_cont Eq m1 m2) with (Pos.compare m1 m2).
    destruct (Pos.compare_spec m1 m2) as [Hm|Hm|Hm];
      destruct (Z.ltb_spec (Z.pos m1) (Z.pos m2)); auto; lia.
  - destruct (Z.ltb_spec e1 e2); [reflexivity|lia].
  - destruct (Z.ltb_spec e1 e2); [lia|].
    destruct (Z.eqb_spec e1 e2); [lia|reflexivity].
Qed.




Lemma digits_of (k : Z) :
  (0 < k)%Z -> exists d, (1 <= d)%Z /\ (2 ^ (d - 1) <= k < 2 ^ d)%Z.
Proof.
  intros Hk. destruct k as [|p|p]; try lia.
  exists (Z.pos (digits2_pos p)). split; [lia|]. split.
  - apply digits2_pos_lower.
  - apply digits2_pos_upper.
Qed.

Lemma pow2_lt_inv (a b : Z) : (0 <= b)%Z -> (2 ^ a < 2 ^ b)%Z -> (a < b)%Z.
Proof.
  intros Hb H. destruct (Z.lt_ge_cases a b) as [|Hge]; [assumption|].
  assert (2 ^ b <= 2 ^ a)%Z by (apply Z.pow_le_mono_r; lia). lia.
Qed.

Lemma pow2_above_one (x d : Z) : (1 <= x < 2 ^ d)%Z -> (1 <= d)%Z.
Proof.
  intros Hx. destruct (Z.lt_ge_cases d 1) as [Hlt|]; [|assumption].
  assert (H : (2 ^ d <= 2 ^ 0)%Z)
    by (destruct (Z.lt_ge_cases d 0);
        [rewrite Z.pow_neg_r by lia; simpl; lia
        |apply Z.pow_le_mono_r; lia]).
  change (2 ^ 0)%Z with 1%Z in H. lia.
Qed.

(** The product of a draw below [2**48] with [100] is exact: [25 * k]
    fits in 53 bits. *)
Lemma scaled_draw_exact (raw : N) (d25 : Z) :
  let k := (Z.of_N raw mod two53)%Z in
  (0 < k < 2 ^ 48)%Z -> (2 ^ (d25 - 1) <= 25 * k < 2 ^ d25)%Z ->
  exists q, Z.pos q = (25 * k * 2 ^ (53 - d25))%Z /\
            (1 <= d25 <= 53)%Z /\
            SFmul Binary64.prec Binary64.emax (unit_float (F := spec_float) raw)
                  (S754_finite false 7036874417766400 (-46))
            = S754_finite false q (d25 - 104).
Proof.
  intros k Hk Hk25.
  destruct (digits_of k) as (d & Hd1 & Hkd); [lia|].
  assert (Hd : (d <= 48)%Z).
  { assert (d - 1 < 48)%Z by (apply pow2_lt_inv; lia). lia. }
  assert (Hd25 : (1 <= d25 <= 53)%Z).
  { split.
    - apply (pow2_above_one (25 * k)); lia.
    - assert (d25 - 1 < 53)%Z; [|lia].
      apply pow2_lt_inv; [lia|].
      change (2 ^ 48)%Z with 281474976710656%Z in Hk.
      change (2 ^ 53)%Z with 9007199254740992%Z. lia. }
  assert (Hdd : (d <= d25)%Z).
  { assert (d - 1 < d25)%Z; [|lia]. apply pow2_lt_inv; lia. }
  destruct (unit_float_canonical raw d Hkd ltac:(lia)) as (mz & Emz & Hb & ->).
  destruct (of_Z_canonical (25 * k) d25 Hk25 Hd25) as (q & Eq & Hq & _).
  exists q. split; [exact Eq|]. split; [exact Hd25|].
  cbn [SFmul xorb].
  replace (Z.pos (mz * 7036874417766400))
    with (Z.pos q * 2 ^ (48 - d + d25))%Z.
  2:{ rewrite Pos2Z.inj_mul, Emz, Eq. fold k.
      change (Z.pos 7036874417766400) with (25 * 2 ^ 48)%Z.
      replace (2 ^ (53 - d))%Z with (2 ^ (53 - d25) * 2 ^ (d25 - d))%Z
        by (rewrite <- Z.pow_add_r by lia; f_equal; lia).
      replace (2 ^ (48 - d + d25))%Z with (2 ^ (d25 - d) * 2 ^ 48)%Z
        by (rewrite <- Z.pow_add_r by lia; f_equal; lia).
      ring. }
  rewrite (round_aux_exact q (48 - d + d25) (d - 106 + -46)) by
    (try exact Hq; lia).
  f_equal. lia.
Qed.



Lemma round_nearest_even_bounds (m : Z) (l : location) :
  (m <= round_nearest_even m l <= m + 1)%Z.
Proof.
  unfold round_nearest_even.
  destruct l as [|[]]; try lia. destruct (Z.even m); lia.
Qed.

(** The first shift of a rounding leaves the 53 leading digits. *)
Lemma shr_fexp_leading (P : positive) (E : Z) (l : location) :
  (53 <= Z.pos (digits2_pos P))%Z ->
  (-1074 <= E + Z.pos (digits2_pos P) - 53)%Z ->
  shr_m (fst (shr_fexp Binary64.prec Binary64.emax (Z.pos P) E l))
  = (Z.pos P / 2 ^ (Z.pos (digits2_pos P) - 53))%Z /\
  snd (shr_fexp Binary64.prec Binary64.emax (Z.pos P) E l)
  = (E + Z.pos (digits2_pos P) - 53)%Z.
Proof.
  intros Hd HE. unfold shr_fexp, shr. cbn [Zdigits2].
  set (dP := Z.pos (digits2_pos P)) in *.
  unfold fexp, emin, Binary64.prec, Binary64.emax.
  replace (Z.max (dP + E - 53) (3 - 1024 - 53) - E)%Z with (dP - 53)%Z by lia.
  destruct (dP - 53)%Z as [|n|n] eqn:En; try lia; cbn [fst snd].
  - rewrite shr_record_of_loc_m, Z.pow_0_r, Z.div_1_r. split; lia.
  - rewrite iter_shr_1_m by (rewrite shr_record_of_loc_m; lia).
    rewrite shr_record_of_loc_m, Z.shiftr_div_pow2 by lia. split; lia.
Qed.

(** Rounding a mantissa of at least 53 digits: the 53 leading digits,
    or one more; when that reaches [2**53] the exponent moves up. *)
Lemma round_aux_rounded (P : positive) (E : Z) (l : location) :
  let dP := Z.pos (digits2_pos P) in
  let q := (Z.pos P / 2 ^ (dP - 53))%Z in
  (53 <= dP)%Z -> (-1074 <= E + dP - 53 <= 970)%Z ->
  exists m e,
    binary_round_aux Binary64.prec Binary64.emax false (Z.pos P) E l
    = S754_finite false m e /\
    ((e = (E + dP - 53)%Z /\ (q <= Z.pos m <= q + 1)%Z /\
      (Z.pos m < 2 ^ 53)%Z) \/
     (e = (E + dP - 52)%Z /\ Z.pos m = (2 ^ 52)%Z /\ q = (2 ^ 53 - 1)%Z)).
Proof.
  intros dP q Hd HE. unfold binary_round_aux.
  destruct (shr_fexp_leading P E l Hd ltac:(fold dP; lia)) as [Hm1 He1].
  fold dP in Hm1, He1. fold q in Hm1.
  destruct (shr_fexp Binary64.prec Binary64.emax (Z.pos P) E l)
    as [mrs1 e1].
  cbn [fst snd] in Hm1, He1. rewrite Hm1.
  assert (Hpw : (0 < 2 ^ (dP - 53))%Z) by (apply Z.pow_pos_nonneg; lia).
  assert (Hq : (2 ^ 52 <= q < 2 ^ 53)%Z).
  { pose proof (digits2_pos_lower P) as Hlo.
    pose proof (digits2_pos_upper P) as Hhi. fold dP in Hlo, Hhi.
    unfold q. split.
    - apply Z.div_le_lower_bound; [exact Hpw|].
      rewrite <- Z.pow_add_r by lia.
      replace (dP - 53 + 52)%Z with (dP - 1)%Z by lia. exact Hlo.
    - apply Z.div_lt_upper_bound; [exact Hpw|].
      rewrite <- Z.pow_add_r by lia.
      replace (dP - 53 + 53)%Z with dP by lia. exact Hhi. }
  pose proof (round_nearest_even_bounds q (loc_of_shr_record mrs1)) as Hr.
  set (m1 := round_nearest_even q (loc_of_shr_record mrs1)) in *.
  assert (H52 : (0 < 2 ^ 52)%Z) by reflexivity.
  destruct m1 as [|p1|p1] eqn:Em1; try lia.
  destruct (Z.lt_ge_cases (Z.pos p1) (2 ^ 53)) as [Hlt|Hge].
  - assert (Hd1 : Z.pos (digits2_pos p1) = 53%Z)
      by (apply digits2_pos_eq; change (2 ^ (53 - 1))%Z with (2 ^ 52)%Z; lia).
    destruct (shr_fexp_leading p1 e1 loc_Exact) as [Hm2 He2];
      [rewrite Hd1; lia|rewrite Hd1; lia|].
    rewrite Hd1 in Hm2, He2.
    destruct (shr_fexp Binary64.prec Binary64.emax (Z.pos p1) e1 loc_Exact)
      as [mrs2 e2].
    cbn [fst snd] in Hm2, He2.
    rewrite Hm2. change (2 ^ (53 - 53))%Z with 1%Z. rewrite Z.div_1_r.
    exists p1, e2. split.
    + unfold Binary64.prec, Binary64.emax.
      destruct (Z.leb_spec e2 (1024 - 53)); [reflexivity|lia].
    + left. split; [lia|]. split; [lia|exact Hlt].
  - assert (Hp1 : Z.pos p1 = (2 ^ 53)%Z) by lia.
    assert (Hd1 : Z.pos (digits2_pos p1) = 54%Z).
    { apply digits2_pos_eq. rewrite Hp1. split; [reflexivity|reflexivity]. }
    destruct (shr_fexp_leading p1 e1 loc_Exact) as [Hm2 He2];
      [rewrite Hd1; lia|rewrite Hd1; lia|].
    rewrite Hd1 in Hm2, He2.
    destruct (shr_fexp Binary64.prec Binary64.emax (Z.pos p1) e1 loc_Exact)
      as [mrs2 e2].
    cbn [fst snd] in Hm2, He2.
    rewrite Hm2, Hp1.
    change (2 ^ 53 / 2 ^ (54 - 53))%Z with (Z.pos 4503599627370496).
    exists 4503599627370496%positive, e2. split.
    + unfold Binary64.prec, Binary64.emax.
      destruct (Z.leb_spec e2 (1024 - 53)); [reflexivity|lia].
    + right. split; [lia|]. split; [reflexivity|lia].
Qed.

(** On doubles every draw passes the gate when the chance is [100]:
    [r * 100 < 100] for each [r = k / 2**53]. *)
Lemma gate_open_binary64 (raw : N) :
  f_ltb (f_mul (unit_float (F := spec_float) raw) (f_of_Z 100)) (f_of_Z 100)
  = true.
Proof.
  change (f_ltb (F := spec_float)) with SFltb.
  change (f_mul (F := spec_float)) with (SFmul Binary64.prec Binary64.emax).
  replace (f_of_Z (F := spec_float) 100)
    with (S754_finite false 7036874417766400 (-46))
    by (vm_compute; reflexivity).
  assert (Hk2 : (0 <= Z.of_N raw mod two53 < two53)%Z)
    by (apply Z.mod_pos_bound; reflexivity).
  destruct (Z.eq_dec (Z.of_N raw mod two53) 0) as [Hz|Hnz].
  { unfold unit_float. rewrite Hz. reflexivity. }
  destruct (Z.eq_dec (Z.of_N raw mod two53) (two53 - 1)) as [Htop|Hntop].
  { unfold unit_float. rewrite Htop. vm_compute. reflexivity. }
  destruct (Z.lt_ge_cases (Z.of_N raw mod two53) (2 ^ 48)) as [Hs|Hl].
  - destruct (digits_of (25 * (Z.of_N raw mod two53))) as (d25 & _ & Hk25);
      [lia|].
    destruct (scaled_draw_exact raw d25 ltac:(lia) Hk25)
      as (q & Eq & Hd25 & ->).
    rewrite SFltb_finite.
    destruct (Z.ltb_spec (d25 - 104) (-46)); [reflexivity|lia].
  - set (k := (Z.of_N raw mod two53)%Z) in *.
    assert (H48 : (0 < 2 ^ 48)%Z) by reflexivity.
    destruct (digits_of k) as (d & Hd1 & Hkd); [lia|].
    assert (Hd : (49 <= d <= 53)%Z).
    { split.
      - assert (48 < d)%Z by (apply pow2_lt_inv; lia). lia.
      - assert (d - 1 < 53)%Z; [|lia].
        apply pow2_lt_inv; [lia|]. change (2 ^ 53)%Z with two53. lia. }
    destruct (unit_float_canonical raw d Hkd ltac:(lia))
      as (mz & Emz & Hb & ->).
    fold k in Emz. cbn [SFmul xorb].
    set (P := (mz * 7036874417766400)%positive).
    assert (HP : Z.pos P = (Z.pos mz * 7036874417766400)%Z) by reflexivity.
    assert (Hlo : (104 < Z.pos (digits2_pos P))%Z).
    { apply pow2_lt_inv; [lia|].
      eapply Z.le_lt_trans; [|apply digits2_pos_upper].
      rewrite HP. change (2 ^ 104)%Z with (2 ^ 52 * 2 ^ 52)%Z.
      apply Z.mul_le_mono_nonneg;
        [vm_compute; discriminate|apply Hb
        |vm_compute; discriminate|vm_compute; discriminate]. }
    assert (Hhi : (Z.pos (digits2_pos P) - 1 < 106)%Z).
    { apply pow2_lt_inv; [lia|].
      eapply Z.le_lt_trans; [apply digits2_pos_lower|].
      rewrite HP. change (2 ^ 106)%Z with (2 ^ 53 * 2 ^ 53)%Z.
      apply Z.mul_lt_mono_nonneg;
        [lia|apply Hb|lia|reflexivity]. }
    destruct (round_aux_rounded P (d - 106 + -46) loc_Exact
                ltac:(lia) ltac:(lia)) as (m & e & -> & Hcase).
    rewrite SFltb_finite.
    assert (Htopcase :
              d = 53%Z -> Z.pos (digits2_pos P) = 106%Z ->
              (Z.pos P / 2 ^ (Z.pos (digits2_pos P) - 53)
               <= 7036874417766400 - 2)%Z).
    { intros -> ->. change (2 ^ (106 - 53))%Z with two53.
      change (2 ^ (53 - 53))%Z with 1%Z in Emz.
      assert (Z.pos P / two53 < 7036874417766400 - 1)%Z; [|lia].
      apply Z.div_lt_upper_bound; [reflexivity|].
      rewrite HP, Emz. unfold two53 in *. lia. }
    change (2 ^ 52)%Z with 4503599627370496%Z in *.
    change (2 ^ 53)%Z with 9007199254740992%Z in *.
    destruct Hcase as [(-> & Hm & _)|(-> & Hm & Hq)].
    + destruct (Z.ltb_spec (d - 106 + -46 + Z.pos (digits2_pos P) - 53) (-46));
        [reflexivity|].
      assert (d = 53%Z) by lia. assert (Z.pos (digits2_pos P) = 106%Z) by lia.
      specialize (Htopcase ltac:(assumption) ltac:(assumption)).
      destruct (Z.eqb_spec (d - 106 + -46 + Z.pos (digits2_pos P) - 53) (-46));
        [|lia].
      destruct (Z.ltb_spec (Z.pos m) 7036874417766400); [reflexivity|lia].
    + destruct (Z.ltb_spec (d - 106 + -46 + Z.pos (digits2_pos P) - 52) (-46));
        [reflexivity|].
      destruct (Z.eqb_spec (d - 106 + -46 + Z.pos (digits2_pos P) - 52) (-46)).
      * destruct (Z.ltb_spec (Z.pos m) 7036874417766400); [reflexivity|lia].
      * assert (d = 53%Z) by lia.
        assert (Z.pos (digits2_pos P) = 106%Z) by lia.
        specialize (Htopcase ltac:(assumption) ltac:(assumption)). lia.
Qed.

End GateBinary64.

(** ** The mutation operator and the mutation stage *)

Section MutationFacts.
Context {F : Type} `{Scalar F}.

Lemma py_advance_0 (w : world F) : py_advance 0 w = w.
Proof.
  unfold py_advance. rewrite Nat.add_0_r.
  destruct w as [[tape pos] np ur rs]. reflexivity.
Qed.

Lemma py_advance_add (a b : nat) (w : world F) :
  py_advance a (py_advance b w) = py_advance (b + a) w.
Proof. unfold py_advance. cbn. rewrite Nat.add_assoc. reflexivity. Qed.

Lemma py_coming_advance (w : world F) (i : nat) :
  py_coming (py_advance 1 w) i = py_coming w (S i).
Proof.
  unfold py_coming, py_advance. cbn. do 2 f_equal. lia.
Qed.

Lemma random_random_eq (w : world F) :
  random_random w = Ok (py_coming w 0, py_advance 1 w).
Proof.
  unfold random_random, bind, py_next, ret, py_coming, py_advance.
  rewrite Nat.add_0_r, Nat.add_1_r. reflexivity.
Qed.

Lemma np_next_py (w w' : world F) d :
  np_next w = Ok (d, w') -> py_random w' = py_random w.
Proof. unfold np_next. intros E. inversion E. reflexivity. Qed.

Lemma np_random_rand_ok (s : list nat) (w : world F) :
  exists us w',
    np_random_rand s w = Ok (mk_nd s us, w') /\
    length us = size s /\ py_random w' = py_random w.
Proof.
  unfold np_random_rand.
  assert (Hgen : forall idxs (w0 : world F), exists us (w' : world F),
             mmap (fun _ : nat => d <- np_next ;; ret (unit_float (fst d)))
                  idxs w0 = Ok (us, w') /\
             length us = length idxs /\ py_random w' = py_random w0).
  { induction idxs as [|i idxs IH]; intros w0.
    - exists [], w0. repeat split.
    - cbn [mmap].
      destruct (IH (mk_world (py_random w0)
                      (mk_np (np_bits (np_random w0)) (np_gauss (np_random w0))
                             (S (np_pos (np_random w0))))
                      (urandom w0) (reseeds w0)))
        as (us & w' & Hus & Hl & Hpy).
      eexists. exists w'.
      erewrite bind_ok by reflexivity.
      erewrite bind_ok by exact Hus.
      split; [reflexivity|]. split; [simpl; lia|exact Hpy]. }
  destruct (Hgen (seq 0 (size s)) w) as (us & w' & Hus & Hl & Hpy).
  exists us, w'. erewrite bind_ok by exact Hus.
  rewrite length_seq in Hl. auto.
Qed.

Lemma mutate_amplitude_py (g : ndarray F) (w w' : world F) k :
  mutate_amplitude g w = Ok (k, w') -> py_random w' = py_random w.
Proof.
  unfold mutate_amplitude. intros E.
  apply bind_inv in E. destruct E as (m & w1 & Hn & E).
  apply bind_inv in E. destruct E as (z & w2 & Hl & E).
  apply lift_inv in Hl. destruct Hl as [_ ->].
  inversion E; subst.
  unfold np_random_normal in Hn. apply bind_inv in Hn.
  destruct Hn as (d & w3 & Hd & Hr). inversion Hr; subst.
  eapply np_next_py; eauto.
Qed.

(** What [mutate] leaves in the individual: the grid plus the amplitude
    times the uniform matrix, cast on the store. *)
Lemma mutate_spec (g : ndarray F) (w w1 : world F) (k : Z) :
  well_formed g -> mutate_amplitude g w = Ok (k, w1) ->
  exists us w2,
    np_random_rand (shape g) w1 = Ok (mk_nd (shape g) us, w2) /\
    length us = size (shape g) /\
    py_random w2 = py_random w /\
    mutate g w
    = Ok ([mk_nd (shape g)
                 (map f_store
                      (zip_with f_add (data g)
                                (map (fun u => f_mul (f_of_Z k) u) us)))],
          w2).
Proof.
  intros Hwf Hk.
  destruct (np_random_rand_ok (shape g) w1) as (us & w2 & Hu & Hl & Hpy).
  exists us, w2. repeat split; auto.
  - rewrite Hpy. eapply mutate_amplitude_py; eauto.
  - unfold mutate. erewrite bind_ok by exact Hk.
    erewrite bind_ok by exact Hu.
    rewrite binop_scalar_l by exact Hl. erewrite bind_ok by apply lift_ok.
    rewrite binop_same_shape by reflexivity.
    erewrite bind_ok by apply lift_ok.
    rewrite assign_same_shape by reflexivity.
    erewrite bind_ok by apply lift_ok. reflexivity.
Qed.

Lemma mutate_raise (g : ndarray F) (w : world F) e :
  mutate_amplitude g w = Raise e -> mutate g w = Raise e.
Proof. intros Hk. unfold mutate. apply bind_raise. exact Hk. Qed.

Lemma mutate_inv (g : ndarray F) (w w' : world F) t :
  well_formed g -> mutate g w = Ok (t, w') ->
  exists g', t = [g'] /\ shape g' = shape g /\ well_formed g' /\
             py_random w' = py_random w.
Proof.
  intros Hwf Hm.
  destruct (mutate_amplitude g w) as [[k w1]|e] eqn:Hk.
  - destruct (mutate_spec g w w1 k Hwf Hk) as (us & w2 & _ & Hl & Hpy & Hspec).
    rewrite Hspec in Hm. inversion Hm; subst.
    eexists. split; [reflexivity|]. repeat split; auto.
    unfold well_formed. cbn [data shape].
    rewrite length_map, zip_with_length; [exact Hwf|].
    rewrite length_map, Hl. exact Hwf.
  - rewrite (mutate_raise g w e Hk) in Hm. discriminate.
Qed.

(** [population[i] = (g,)] for a grid [g] of the shape of the slots:
    the tuple is one level too deep. *)
Lemma setitem_seq_too_deep (a g : ndarray F) (n i : nat) (s : list nat) :
  shape a = n :: s -> i < n -> shape g = s ->
  setitem_seq f_store a i [g] = Raise ValueError.
Proof.
  intros Hs Hi Hg. unfold setitem_seq.
  rewrite (getitem_ok a n s i Hs Hi). cbn [rbind shape forallb].
  rewrite Hg, Nat.ltb_irrefl. reflexivity.
Qed.

(** An item that is a grid is passed to [mutate] as it is; an item
    that is a scalar makes the call raise. *)
Lemma mutate_item_grid (g : ndarray F) :
  shape g <> [] -> mutate_item g = mutate g.
Proof.
  intros Hs. unfold mutate_item. destruct (shape g); [contradiction|].
  reflexivity.
Qed.

Lemma mutate_item_scalar (g : ndarray F) (w : world F) :
  shape g = [] -> exists e, mutate_item g w = Raise e.
Proof.
  intros Hs. unfold mutate_item. rewrite Hs. unfold bind.
  destruct (mutate_amplitude g w) as [[k w1]|e]; [|eauto].
  destruct (np_random_rand [] w1) as [[u w2]|e]; eexists; reflexivity.
Qed.

(** What the stage does with an individual whose draw passes the test,
    from the state [w] reached after the draw: [mutate] runs on it, and
    the assignment of what [mutate] returned raises. *)
Lemma mutate_then_assign (population g : ndarray F) (n i : nat)
      (s : list nat) (w : world F) (rest : ndarray F -> M F (ndarray F)) :
  shape population = n :: s -> well_formed population -> i < n ->
  getitem population i = Ok g ->
  (t <- mutate_item g ;;
   population' <- lift (setitem_seq f_store population i t) ;;
   rest population') w
  = (_ <- mutate_item g ;; lift (Raise ValueError)) w.
Proof.
  intros Hs Hwf Hi Hg.
  rewrite (getitem_ok population n s i Hs Hi) in Hg. injection Hg as <-.
  set (g := mk_nd s (chunk (size s) i (data population))).
  assert (Hgwf : well_formed g)
    by (apply chunk_well_formed with (n := n); auto).
  unfold bind.
  destruct (mutate_item g w) as [[t w2]|e] eqn:Hm; [|reflexivity].
  destruct s as [|a s].
  - destruct (mutate_item_scalar g w eq_refl) as (e & He). congruence.
  - rewrite mutate_item_grid in Hm by discriminate.
    destruct (mutate_inv g w w2 t Hgwf Hm) as (g' & -> & Hg's & _ & _).
    rewrite (setitem_seq_too_deep population g' n i (a :: s) Hs Hi Hg's).
    reflexivity.
Qed.

(** While the draws fail the test the loop goes on, the population as
    it is. *)
Lemma mutate_loop_quiet (chance : F) :
  forall m k population w,
    (forall j, j < m ->
       f_ltb (f_mul (py_coming w j) (f_of_Z 100)) chance = false) ->
    mutate_loop (seq k m) chance population w
    = Ok (population, py_advance m w).
Proof.
  induction m as [|m IH]; intros k population w Hgate.
  - simpl. rewrite py_advance_0. reflexivity.
  - cbn [seq mutate_loop]. erewrite bind_ok by apply random_random_eq.
    rewrite (Hgate 0) by lia.
    rewrite IH.
    + rewrite py_advance_add. reflexivity.
    + intros j Hj. rewrite py_coming_advance. apply Hgate. lia.
Qed.

(** The first draw that passes the test ends the loop: the individual
    it falls on is passed to [mutate], in the state reached after that
    draw, and the assignment raises. *)
Lemma mutate_loop_first_open (chance : F) (n : nat) (s : list nat) :
  forall j m k population w g,
    shape population = n :: s -> well_formed population ->
    j < m -> k + j < n ->
    getitem population (k + j) = Ok g ->
    (forall i, i < j ->
       f_ltb (f_mul (py_coming w i) (f_of_Z 100)) chance = false) ->
    f_ltb (f_mul (py_coming w j) (f_of_Z 100)) chance = true ->
    mutate_loop (seq k m) chance population w
    = (_ <- mutate_item g ;; lift (Raise ValueError)) (py_advance (S j) w).
Proof.
  induction j as [|j IH]; intros m k population w g Hs Hwf Hm Hk Hg Hclosed Hopen;
    (destruct m as [|m]; [lia|]); cbn [seq mutate_loop];
    erewrite bind_ok by apply random_random_eq.
  - rewrite Hopen. rewrite Nat.add_0_r in Hg. rewrite Hg.
    erewrite bind_ok by apply lift_ok.
    apply mutate_then_assign with (n := n) (s := s); auto. lia.
  - rewrite (Hclosed 0) by lia.
    rewrite (IH m (S k) population (py_advance 1 w) g); auto; try lia.
    + rewrite py_advance_add. reflexivity.
    + replace (S k + j) with (k + S j) by lia. exact Hg.
    + intros i Hi. rewrite py_coming_advance. apply Hclosed. lia.
    + rewrite py_coming_advance. exact Hopen.
Qed.

(** The first index at which a test passes. *)
Lemma first_passing (P : nat -> bool) (n : nat) :
  (exists j, j < n /\ P j = true) ->
  exists j, j < n /\ P j = true /\ forall i, i < j -> P i = false.
Proof.
  induction n as [|n IH]; intros (j & Hj & Hp); [lia|].
  destruct (existsb P (seq 0 n)) eqn:E.
  - apply existsb_exists in E. destruct E as (i & Hi & Hpi).
    apply in_seq in Hi.
    destruct IH as (j0 & Hj0 & Hp0 & Hmin); [exists i; split; [lia|exact Hpi]|].
    exists j0. repeat split; auto.
  - assert (Hall : forall i, i < n -> P i = false).
    { intros i Hi. destruct (P i) eqn:Epi; [|reflexivity].
      assert (Hex : existsb P (seq 0 n) = true)
        by (apply existsb_exists; exists i; split;
            [apply in_seq; lia|exact Epi]).
      congruence. }
    assert (j = n).
    { destruct (Nat.eq_dec j n) as [|Hne]; [assumption|].
      rewrite Hall in Hp by lia. discriminate. }
    subst j. exists n. repeat split; auto.
Qed.

End MutationFacts.

Section MutationTheorems.

(** C8, as the code has it.  With mutation chance 0 the stage returns
    the population it was given, one draw of [random] consumed per
    individual (on doubles, for every draw).  But the stage never
    returns a mutated individual: in every arithmetic, as soon as one
    draw passes the test [r * 100 < chance] the stage raises.  When it is
    the first draw that passes, the first individual is passed to
    [mutate] and the assignment [population[0] = mutate(population[0])]
    of the 1-tuple [mutate] returned raises [ValueError] (unless [mutate]
    raised before).  With chance 100, on doubles, every draw passes: on
    a population that is not empty the stage raises whatever the state
    of the generators, and on a population of grids it raises as
    described after one draw. *)
Theorem mutation_stage_extremes :
  (forall (population : ndarray spec_float) (n : nat) (s : list nat)
          (world : world spec_float),
      shape population = n :: s ->
      mutate_population population (f_of_Z 0) world
      = Ok (population, py_advance n world)) /\
  (forall (F : Type) (Sc : Scalar F) (population : ndarray F)
          (n : nat) (s : list nat) (chance : F) (world : world F) (j : nat),
      shape population = n :: s -> well_formed population -> j < n ->
      f_ltb (f_mul (py_coming world j) (f_of_Z 100)) chance = true ->
      exists e, mutate_population population chance world = Raise e) /\
  (forall (F : Type) (Sc : Scalar F) (population g : ndarray F)
          (n : nat) (s : list nat) (chance : F) (world : world F),
      shape population = n :: s -> s <> [] -> well_formed population ->
      getitem population 0 = Ok g ->
      f_ltb (f_mul (py_coming world 0) (f_of_Z 100)) chance = true ->
      mutate_population population chance world
      = (_ <- mutate g ;; lift (Raise ValueError)) (py_advance 1 world)) /\
  (forall raw : N,
      f_ltb (f_mul (unit_float (F := spec_float) raw) (f_of_Z 100))
            (f_of_Z 100) = true) /\
  (forall (population g : ndarray spec_float) (n : nat) (s : list nat)
          (world : world spec_float),
      shape population = n :: s -> well_formed population ->
      getitem population 0 = Ok g ->
      (exists e, mutate_population population (f_of_Z 100) world = Raise e) /\
      (s <> [] ->
       mutate_population population (f_of_Z 100) world
       = (_ <- mutate g ;; lift (Raise ValueError)) (py_advance 1 world))).
Proof.
  assert (Hfirst : forall (F : Type) (Sc : Scalar F) (population g : ndarray F)
                          (n : nat) (s : list nat) (chance : F)
                          (world : world F),
             shape population = n :: s -> s <> [] -> well_formed population ->
             getitem population 0 = Ok g ->
             f_ltb (f_mul (py_coming world 0) (f_of_Z 100)) chance = true ->
             mutate_population population chance world
             = (_ <- mutate g ;; lift (Raise ValueError))
                 (py_advance 1 world)).
  { intros F Sc population g n s chance world Hs Hrank Hwf Hg Hopen.
    assert (Hn : 0 < n).
    { destruct n; [|lia]. unfold getitem in Hg. rewrite Hs in Hg.
      discriminate. }
    assert (Hgs : shape g <> []).
    { rewrite (getitem_ok population n s 0 Hs Hn) in Hg.
      injection Hg as <-. exact Hrank. }
    unfold mutate_population, len. rewrite Hs.
    erewrite bind_ok by apply lift_ok.
    rewrite <- (mutate_item_grid g Hgs).
    apply mutate_loop_first_open with (n := n) (s := s); auto; try lia. }
  assert (Hraise : forall (F : Type) (Sc : Scalar F) (population : ndarray F)
                          (n : nat) (s : list nat) (chance : F)
                          (world : world F) (j : nat),
             shape population = n :: s -> well_formed population -> j < n ->
             f_ltb (f_mul (py_coming world j) (f_of_Z 100)) chance = true ->
             exists e, mutate_population population chance world = Raise e).
  { intros F Sc population n s chance world j Hs Hwf Hj Hopen.
    destruct (first_passing
                (fun i => f_ltb (f_mul (py_coming world i) (f_of_Z 100)) chance)
                n) as (j0 & Hj0 & Hopen0 & Hclosed).
    { exists j. split; assumption. }
    unfold mutate_population, len. rewrite Hs.
    erewrite bind_ok by apply lift_ok.
    rewrite (mutate_loop_first_open chance n s j0 n 0 population world
               (mk_nd s (chunk (size s) j0 (data population))));
      auto; try lia.
    + unfold bind.
      destruct (mutate_item _ _) as [[t w2]|e]; eexists; reflexivity.
    + apply getitem_ok with (n := n); auto. }
  split; [|split; [exact Hraise|split; [exact Hfirst|split]]].
  - intros population n s world Hs. unfold mutate_population, len.
    rewrite Hs. erewrite bind_ok by apply lift_ok.
    apply mutate_loop_quiet. intros j _. apply gate_closed_binary64.
  - exact gate_open_binary64.
  - intros population g n s world Hs Hwf Hg.
    assert (Hn : 0 < n).
    { destruct n; [|lia]. unfold getitem in Hg. rewrite Hs in Hg.
      discriminate. }
    split.
    + apply (Hraise spec_float _ population n s (f_of_Z 100) world 0 Hs Hwf Hn).
      apply gate_open_binary64.
    + intros Hrank.
      apply (Hfirst spec_float _ population g n s (f_of_Z 100) world Hs Hrank
                    Hwf Hg).
      apply gate_open_binary64.
Qed.


End MutationTheorems.

(** ** The theorems at concrete inputs *)

(** C2 at two 1x1 parents [[1.0]] and [[1.0]]: both returned references
    are the second parent, which holds [[0.0]]; the sum [[2.0]] is left in
    the first parent. *)
Lemma crossover_returns_difference_twice_witness :
  (0 <> 1 /\
   deref Demo.parents 0 = Ok (full [1; 1] (Binary64.of_Z 1)) /\
   deref Demo.parents 1 = Ok (full [1; 1] (Binary64.of_Z 1))) /\
  exists h',
    crossover 0 1 Demo.parents = Ok ((1, 1), h') /\
    deref h' 0 = Ok (mk_nd [1; 1] [Binary64.of_Z 2]) /\
    deref h' 1 = Ok (mk_nd [1; 1] [Binary64.of_Z 0]).
Proof.
  split; [repeat split; discriminate|].
  exact (crossover_returns_difference_twice
           Demo.parents 0 1
           (full [1; 1] (Binary64.of_Z 1)) (full [1; 1] (Binary64.of_Z 1))
           ltac:(discriminate) eq_refl eq_refl eq_refl).
Defined.

(** C3 at four 8x8 grids of zeros. *)
Lemma default_generation_loses_individuals_witness :
  (shape Demo.flat_population = [4; 8; 8] /\
   well_formed Demo.flat_population) /\
  generation_with None 2 0 2 Demo.flat_population Demo.world0
  = Raise (NameError "breed") /\
  forall (f : breed_fn) children world',
    generation_with (Some f) 2 0 2 Demo.flat_population Demo.world0
    = Ok (children, world') ->
    len children = Ok 2.
Proof.
  split; [split; reflexivity|].
  exact (proj2 (proj2 (default_generation_loses_individuals
                         Demo.flat_population Demo.world0 eq_refl eq_refl))).
Defined.

(** C4 at two ranked 2x2 grids, one taken from the top and one at
    random. *)
Lemma select_random_pick_is_ragged_witness :
  (shape Demo.ranked_pair = [2; 2; 2] /\ 1 <= 2 /\
   (1 <= 1 <= Z.of_nat 2)%Z /\ (1 <= 1)%Z) /\
  select_from_population Demo.ranked_pair 1 1 Demo.world0 = Raise ValueError.
Proof.
  split; [repeat split; (reflexivity || lia)|].
  apply (select_random_pick_is_ragged Demo.ranked_pair 2 2 2 1 1 Demo.world0);
    (reflexivity || lia).
Defined.

(** C5, as the code has it, at 2x2 grids. *)
Lemma constant_grid_metrics_witness :
  (2 <= 2 /\
   f_int (F := spec_float) (f_div (f_of_Z (Z.of_nat 2)) (f_of_Z 2)) = Ok 1%Z /\
   (0 < 1 < Z.of_nat 2)%Z) /\
  (sea_level (full [2; 2] (Binary64.of_Z 24)) sea_level_target
   = Ok (norm (full [2; 2] (f_sub (Binary64.of_Z 24) sea_level_target))) /\
   bedrock (full [2; 2] (Binary64.of_Z 24)) sea_level_target
   = Ok (norm (scalar_nd (f_sub (Binary64.of_Z 24) sea_level_target))) /\
   mountains (full [2; 2] (Binary64.of_Z 24)) sea_level_target
   = Ok (norm (scalar_nd (f_sub (Binary64.of_Z 24) sea_level_target)))) /\
  (sea_level (full [2; 2] sea_level_target) sea_level_target
   = Ok (S754_zero false) /\
   bedrock (full [2; 2] bedrock_target) bedrock_target
   = Ok (S754_zero false) /\
   mountains (full [2; 2] mountains_target) mountains_target
   = Ok (S754_zero false)) /\
  loc_glbl_var (full [2; 2] (S754_zero false)) = Ok (S754_zero false).
Proof.
  split; [repeat split; (lia || reflexivity)|].
  destruct constant_grid_metrics as (Hnorm & Htarget & Hloc & _ & _).
  split.
  { apply (Hnorm spec_float _ 2 2 (Binary64.of_Z 24) sea_level_target); lia. }
  split.
  { apply (Htarget 2 2); lia. }
  apply (Hloc 2 2 1%Z 1%Z); (lia || reflexivity).
Defined.

(** C5 as stated fails on doubles, twice.  The quadrant-variance metric
    is not 0 at every level: on the 8x8 grid of 0.1 it is not.  And no
    level metric is monotone: on 2x2 constant grids the sea-level metric
    is 50, 0, 50 at levels 0, 25, 50; the bedrock metric is 2000, 0, 2000
    at levels -4000, -2000, 0; the mountain metric is 3500, 0, 3500 at
    levels 0, 3500, 7000. *)
Lemma level_metrics_not_monotone :
  ~ (forall c : spec_float, loc_glbl_var (full [8; 8] c) = Ok (f_of_Z 0)) /\
  ~ monotone (fun c : spec_float => sea_level (full [2; 2] c) sea_level_target) /\
  ~ monotone (fun c : spec_float => bedrock (full [2; 2] c) bedrock_target) /\
  ~ monotone (fun c : spec_float => mountains (full [2; 2] c) mountains_target).
Proof.
  split.
  { intros Hall. specialize (Hall (py_float 1 10)).
    vm_compute in Hall. discriminate. }
  repeat split; intros [Hup|Hdown].
  - specialize (Hup (Binary64.of_Z 0) (Binary64.of_Z 25)
                    (Binary64.of_Z 50) (Binary64.of_Z 0)
                    eq_refl eq_refl eq_refl).
    vm_compute in Hup. discriminate.
  - specialize (Hdown (Binary64.of_Z 25) (Binary64.of_Z 50)
                      (Binary64.of_Z 0) (Binary64.of_Z 50)
                      eq_refl eq_refl eq_refl).
    vm_compute in Hdown. discriminate.
  - specialize (Hup (Binary64.of_Z (-4000)) (Binary64.of_Z (-2000))
                    (Binary64.of_Z 2000) (Binary64.of_Z 0)
                    eq_refl eq_refl eq_refl).
    vm_compute in Hup. discriminate.
  - specialize (Hdown (Binary64.of_Z (-2000)) (Binary64.of_Z 0)
                      (Binary64.of_Z 0) (Binary64.of_Z 2000)
                      eq_refl eq_refl eq_refl).
    vm_compute in Hdown. discriminate.
  - specialize (Hup (Binary64.of_Z 0) (Binary64.of_Z 3500)
                    (Binary64.of_Z 3500) (Binary64.of_Z 0)
                    eq_refl eq_refl eq_refl).
    vm_compute in Hup. discriminate.
  - specialize (Hdown (Binary64.of_Z 3500) (Binary64.of_Z 7000)
                      (Binary64.of_Z 0) (Binary64.of_Z 3500)
                      eq_refl eq_refl eq_refl).
    vm_compute in Hdown. discriminate.
Qed.

(** C6 at one generation and at none. *)
Lemma driver_returns_no_ranked_grid_witness :
  ((1 <= 1)%Z /\ (0 <= 0)%Z) /\
  run_genetic_algorithm Demo.noise 8 8 1 4 2 Demo.world0
  = Raise (NameError "breed") /\
  run_genetic_algorithm Demo.noise 8 8 0 4 2 Demo.world0
  = generate_original_population Demo.noise 8 8 4 Demo.world0.
Proof.
  split; [split; lia|]. split.
  - exact (proj1 (driver_returns_no_ranked_grid Demo.noise 1 Demo.world0)
                 ltac:(lia)).
  - exact (proj2 (driver_returns_no_ranked_grid Demo.noise 0 Demo.world0)
                 ltac:(lia)).
Defined.

(** C7 as stated fails: with zero children per pair the run raises an
    exception that is not InvalidConfiguration, and with population size 0
    it raises nothing. *)
Lemma degenerate_configurations_not_rejected :
  ~ (exists e,
        run_genetic_algorithm Demo.noise 8 8 1 4 0 Demo.world0 = Raise e /\
        exn_name e = "InvalidConfiguration"%string) /\
  ~ (exists e,
        run_genetic_algorithm Demo.noise 8 8 1 0 2 Demo.world0 = Raise e).
Proof.
  split.
  - assert (E : run_genetic_algorithm Demo.noise 8 8 1 4 0 Demo.world0
                = Raise ZeroDivisionError) by (vm_compute; reflexivity).
    intros (e & He & Hname). rewrite E in He. inversion He; subst e.
    discriminate Hname.
  - assert (E : run_genetic_algorithm Demo.noise 8 8 1 0 2 Demo.world0
                = Ok (mk_nd [0] [], Demo.world0)) by (vm_compute; reflexivity).
    intros (e & He). rewrite E in He. discriminate He.
Qed.

(** C7, as the code has it, at 8x8 grids and at grids of extents -1, 0
    and 1. *)
Lemma degenerate_configurations_witness :
  ((0 <= 8)%Z /\ (-1 < 0 \/ 8 < 0)%Z /\ (1 <= 4)%Z /\ (0 = 0 \/ 8 = 0)%Z /\
   f_int (F := spec_float) (f_div (f_of_Z 0) (f_of_Z 2)) = Ok 0%Z /\
   f_int (F := spec_float) (f_div (f_of_Z 8) (f_of_Z 2)) = Ok 4%Z /\
   f_int (F := spec_float) (f_div (f_of_Z 1) (f_of_Z 2)) = Ok 0%Z) /\
  run_genetic_algorithm Demo.noise 8 8 1 4 0 Demo.world0
  = Raise ZeroDivisionError /\
  run_genetic_algorithm Demo.noise 8 8 1 0 2 Demo.world0
  = Ok (mk_nd [0] [], Demo.world0) /\
  run_genetic_algorithm Demo.noise (-1) 8 1 4 2 Demo.world0
  = Raise ValueError /\
  run_genetic_algorithm Demo.noise 0 8 1 4 2 Demo.world0
  = Raise ValueError /\
  run_genetic_algorithm Demo.noise 1 1 1 4 2 Demo.world0
  = Raise (NameError "breed") /\
  exn_name (NameError "breed") <> "InvalidConfiguration"%string.
Proof.
  split; [repeat split; (lia || reflexivity)|].
  destruct degenerate_configurations
    as (Hchildren & Hempty & Hnegative & Hnocell & Hthin & Hname).
  split.
  { apply (Hchildren spec_float _ Demo.noise 8%Z 8%Z 1%Z 4%Z Demo.world0); lia. }
  split.
  { exact (Hempty Demo.noise 8%Z 8%Z 1%Z Demo.world0). }
  split.
  { apply (Hnegative spec_float _ Demo.noise (-1)%Z 8%Z 1%Z 4%Z 2%Z
                     Demo.world0); lia. }
  split.
  { apply (Hnocell Demo.noise 0%Z 8%Z 0%Z 4%Z 1%Z Demo.world0);
      (lia || reflexivity). }
  assert (Hrun : run_genetic_algorithm Demo.noise 1 1 1 4 2 Demo.world0
                 = Raise (NameError "breed"))
    by (apply (Hthin Demo.noise 1%Z 1%Z 0%Z 0%Z 1%Z Demo.world0);
        (lia || reflexivity)).
  split; [exact Hrun|].
  exact (Hname spec_float _ Demo.noise 1%Z 1%Z 1%Z 4%Z 2%Z Demo.world0
               (NameError "breed") Hrun).
Defined.

(** C8, as the code has it, at the population holding [[0.0, 8.0]]: with
    chance 0 it is returned as it is; with chance 100 the draw 0.0
    passes, [mutate] returns the individual in a 1-tuple, and the
    assignment raises [ValueError].  And at a population of two, with
    chance 100 and a first draw of 0.5: the first individual is passed
    to [mutate] after one draw and the stage raises. *)
Lemma mutation_stage_extremes_witness :
  (shape Demo.rough_population = [1; 1; 2] /\ [1; 2] <> [] /\
   well_formed Demo.rough_population /\ 0 < 1 /\
   getitem Demo.rough_population 0 = Ok Demo.rough_individual /\
   f_ltb (f_mul (py_coming Demo.world0 0) (f_of_Z 100)) (f_of_Z 100) = true /\
   shape Samples.rough_pair = [2; 1; 2] /\ well_formed Samples.rough_pair /\
   getitem Samples.rough_pair 0 = Ok Demo.rough_individual) /\
  mutate_population Demo.rough_population (f_of_Z 0) Demo.world0
  = Ok (Demo.rough_population, py_advance 1 Demo.world0) /\
  (exists e,
      mutate_population Demo.rough_population (f_of_Z 100) Demo.world0
      = Raise e) /\
  mutate_population Demo.rough_population (f_of_Z 100) Demo.world0
  = (_ <- mutate Demo.rough_individual ;; lift (Raise ValueError))
      (py_advance 1 Demo.world0) /\
  value (mutate Demo.rough_individual (py_advance 1 Demo.world0))
  = Ok [Demo.rough_individual] /\
  mutate_population Demo.rough_population (f_of_Z 100) Demo.world0
  = Raise ValueError /\
  (exists e,
      mutate_population Samples.rough_pair (f_of_Z 100) Samples.late_world
      = Raise e) /\
  mutate_population Samples.rough_pair (f_of_Z 100) Samples.late_world
  = (_ <- mutate Demo.rough_individual ;; lift (Raise ValueError))
      (py_advance 1 Samples.late_world).
Proof.
  split; [repeat split; (lia || reflexivity || discriminate)|].
  destruct mutation_stage_extremes as (Hzero & Hraise & Hfirst & _ & Hfull).
  destruct (Hfull Samples.rough_pair Demo.rough_individual 2 [1; 2]
                  Samples.late_world eq_refl eq_refl eq_refl)
    as (Hpair & Hpair1).
  split.
  { exact (Hzero Demo.rough_population 1 [1; 2] Demo.world0 eq_refl). }
  split.
  { apply (Hraise spec_float _ Demo.rough_population 1 [1; 2] (f_of_Z 100)
                  Demo.world0 0); (lia || reflexivity). }
  split.
  { apply (Hfirst spec_float _ Demo.rough_population Demo.rough_individual
                  1 [1; 2] (f_of_Z 100) Demo.world0);
      (reflexivity || discriminate). }
  split; [vm_compute; reflexivity|].
  split; [vm_compute; reflexivity|].
  split; [exact Hpair|].
  apply Hpair1. discriminate.
Defined.

(** C9 at a 2x2 grid. *)
Lemma noise_field_deterministic_witness :
  ((0 <= 2)%Z /\ (0 <= 2)%Z) /\
  exists grid,
    value (generate_basic_perlin_noise Demo.noise 2 2 8 (py_float 1 2)
             (f_of_Z 2) 1024 1024 0 Demo.world0) = Ok grid /\
    shape grid = [Z.to_nat 2; Z.to_nat 2] /\
    forall i j, i < Z.to_nat 2 -> j < Z.to_nat 2 ->
      get2 grid i j
      = Ok (f_store (Demo.noise (f_div (f_of_Z (Z.of_nat i)) (f_of_Z 2))
                                (f_div (f_of_Z (Z.of_nat j)) (f_of_Z 2))
                                8 (py_float 1 2) (f_of_Z 2) 1024 1024 0)).
Proof.
  split; [split; lia|].
  exact (proj2 (noise_field_deterministic Demo.noise 2 2 8 (py_float 1 2)
                  (f_of_Z 2) 1024 1024 0 Demo.world0 Demo.world0)
               ltac:(lia) ltac:(lia)).
Defined.



(** * Further facts about the functions of helpers.py *)

(** ** Lists, results and arrays *)

Section MoreListFacts.
Context {A : Type}.



Lemma concat_nils (ls : list (list A)) :
  Forall (fun l => l = []) ls -> concat ls = [].
Proof.
  induction 1 as [|l ls Hl _ IH]; simpl; auto. rewrite Hl, IH. reflexivity.
Qed.

Lemma chunk_singleton (d : list A) (i : nat) (x : A) :
  nth_error d i = Some x -> chunk 1 i d = [x].
Proof.
  unfold chunk. rewrite Nat.mul_1_r. revert i.
  induction d as [|y d IH]; intros [|i] Hx; simpl in *; try discriminate.
  - inversion Hx; subst. reflexivity.
  - apply IH. exact Hx.
Qed.

(** Indexing raises as soon as one index is out of range. *)
Lemma rmap_getitem_out (a : ndarray A) (n : nat) (s : list nat)
      (idxs : list nat) (i : nat) :
  shape a = n :: s -> In i idxs -> n <= i ->
  rmap (getitem a) idxs = Raise IndexError.
Proof.
  intros Hs Hin Hi. induction idxs as [|j idxs IH]; [contradiction|].
  simpl. destruct (Nat.lt_ge_cases j n) as [Hj|Hj].
  - rewrite (getitem_ok a n s j Hs Hj). simpl.
    destruct Hin as [->|Hin]; [lia|]. rewrite (IH Hin). reflexivity.
  - rewrite (getitem_out a n s j Hs Hj). reflexivity.
Qed.

(** A block cut out of a well-formed array is well formed. *)
Lemma slice2_well_formed (a : ndarray A) (h w : nat) (rest : list nat)
      (r0 r1 c0 c1 : nat) :
  shape a = h :: w :: rest -> well_formed a ->
  exists b, slice2 a r0 r1 c0 c1 = Ok b /\
            shape b = (Nat.min r1 h - r0) :: (Nat.min c1 w - c0) :: rest /\
            well_formed b.
Proof.
  intros Hs Hwf. unfold slice2. rewrite Hs. cbv zeta.
  eexists. split; [reflexivity|]. split; [reflexivity|].
  unfold well_formed in *. cbn [data shape]. rewrite Hs in Hwf.
  rewrite !size_cons in *.
  set (k := size rest) in *. set (rr := Nat.min r1 h). set (cc := Nat.min c1 w).
  rewrite (concat_length_uniform ((cc - c0) * k)).
  - rewrite length_map, length_seq. lia.
  - apply Forall_map, Forall_forall. intros r Hr. apply in_seq in Hr.
    rewrite length_firstn, length_skipn, Hwf.
    assert (Hrh : r < h) by (subst rr; lia).
    assert (Hcw : cc <= w) by (subst cc; lia).
    destruct (Nat.le_gt_cases cc c0) as [Hc|Hc].
    + replace (cc - c0) with 0 by lia. simpl. reflexivity.
    + apply Nat.min_l.
      assert (H1 : (r + 1) * w <= h * w) by (apply Nat.mul_le_mono_r; lia).
      assert (H2 : r * w + c0 + (cc - c0) <= h * w) by lia.
      apply (Nat.mul_le_mono_r _ _ k) in H2.
      rewrite Nat.mul_add_distr_r, <- Nat.mul_assoc in H2. lia.
Qed.


End MoreListFacts.

(** ** Sorting returns a permutation *)

Section MoreSortFacts.
Context {F : Type} `{Scalar F}.

Lemma insert_idx_permutation (key : nat -> F) (i : nat) (sorted : list nat) :
  Permutation (i :: sorted) (insert_idx key i sorted).
Proof.
  induction sorted as [|j rest IH]; simpl; auto.
  destruct (sort_lt (key i) (key j)); auto.
  eapply perm_trans; [apply perm_swap|]. apply perm_skip. exact IH.
Qed.

Lemma argsort_row_permutation (row : list F) :
  Permutation (seq 0 (length row)) (argsort_row row).
Proof.
  unfold argsort_row.
  assert (Hgen : forall idxs acc,
             Permutation (idxs ++ acc)
               (fold_left (fun sorted i =>
                             insert_idx (fun j => nth j row zero) i sorted)
                          idxs acc)).
  { induction idxs as [|i idxs IH]; intros acc; simpl; auto.
    eapply perm_trans; [|apply IH].
    eapply perm_trans; [apply Permutation_middle|].
    apply Permutation_app_head. apply insert_idx_permutation. }
  specialize (Hgen (seq 0 (length row)) []). rewrite app_nil_r in Hgen.
  exact Hgen.
Qed.

Lemma argsort_row_length (row : list F) :
  length (argsort_row row) = length row.
Proof.
  rewrite <- (Permutation_length (argsort_row_permutation row)).
  apply length_seq.
Qed.

End MoreSortFacts.

(** ** The uniform matrix, draw by draw *)

Section MoreDrawFacts.
Context {F : Type} `{Scalar F}.

Lemma np_advance_0 (w : world F) : np_advance 0 w = w.
Proof.
  unfold np_advance. rewrite Nat.add_0_r.
  destruct w as [py [bits gauss pos] ur rs]. reflexivity.
Qed.

Lemma np_random_rand_eq (s : list nat) (w : world F) :
  np_random_rand s w
  = Ok (mk_nd s (map (np_coming w) (seq 0 (size s))), np_advance (size s) w).
Proof.
  unfold np_random_rand.
  assert (Hgen : forall n k (w0 : world F),
             mmap (fun _ : nat => d <- np_next ;; ret (unit_float (fst d)))
                  (seq k n) w0
             = Ok (map (np_coming w0) (seq 0 n), np_advance n w0)).
  { induction n as [|n IH]; intros k w0.
    - simpl. rewrite np_advance_0. reflexivity.
    - cbn [seq mmap].
      erewrite bind_ok by reflexivity.
      erewrite bind_ok by apply IH.
      unfold ret. f_equal. f_equal.
      + cbn [map]. f_equal.
        * unfold np_coming. rewrite Nat.add_0_r. reflexivity.
        * rewrite <- seq_shift, map_map. apply map_ext. intros i.
          unfold np_coming. cbn. f_equal. f_equal. lia.
      + unfold np_advance. cbn. f_equal. f_equal. lia. }
  erewrite bind_ok by apply Hgen. reflexivity.
Qed.

End MoreDrawFacts.

(** ** Seeding *)

Section SeedingTheorems.
Context {F : Type} `{Scalar F}.
Variable pnoise2 : F -> F -> Z -> F -> F -> Z -> Z -> Z -> F.

(** X1.  The original population holds [pop_size] copies of one grid:
    every call of the noise generator is made with the same arguments
    (the default [base] among them), so every individual is the grid one
    call returns.  Seeding reseeds [random] once per individual and
    leaves [np.random] alone. *)
Theorem original_population_repeats_one_grid
        (h w pop_size : Z) (world : world F) :
  (0 <= h)%Z -> (0 <= w)%Z -> (1 <= pop_size)%Z ->
  exists grid population world',
    value (default_noise pnoise2 h w world) = Ok grid /\
    generate_original_population pnoise2 h w pop_size world
    = Ok (population, world') /\
    shape population = [Z.to_nat pop_size; Z.to_nat h; Z.to_nat w] /\
    (forall i, i < Z.to_nat pop_size -> getitem population i = Ok grid) /\
    reseeds world' = reseeds world + Z.to_nat pop_size /\
    np_random world' = np_random world.
Proof.
  intros Hh Hw Hn.
  destruct (noise_grid_ok pnoise2 h w 8 (py_float 1 2) (f_of_Z 2)
                          1024 1024 0 Hh Hw)
    as (grid & Hgrid & Hs & Hl & _).
  assert (Hcall : forall w0 : Rand.world F,
             default_noise pnoise2 h w w0
             = Ok (grid, mk_world (mk_py (urandom w0 (reseeds w0)) 0)
                                  (np_random w0) (urandom w0)
                                  (S (reseeds w0)))).
  { intros w0. unfold default_noise.
    rewrite noise_reads_no_generator, Hgrid. reflexivity. }
  assert (Hloop : forall n k (w0 : Rand.world F), exists w1,
             mmap (fun _ : nat => default_noise pnoise2 h w) (seq k n) w0
             = Ok (repeat grid n, w1) /\
             reseeds w1 = reseeds w0 + n /\ np_random w1 = np_random w0).
  { induction n as [|n IH]; intros k w0.
    - exists w0. repeat split. simpl. lia.
    - cbn [seq mmap].
      destruct (IH (S k) (mk_world (mk_py (urandom w0 (reseeds w0)) 0)
                                   (np_random w0) (urandom w0)
                                   (S (reseeds w0))))
        as (w1 & Hm & Hr & Hnp).
      exists w1. erewrite bind_ok by apply Hcall.
      erewrite bind_ok by exact Hm. simpl in Hr, Hnp.
      repeat split; auto. lia. }
  destruct (Hloop (Z.to_nat pop_size) 0 world) as (world' & Hm & Hr & Hnp).
  set (n := Z.to_nat pop_size) in *.
  exists grid, (mk_nd [n; Z.to_nat h; Z.to_nat w]
                      (concat (map (@data F) (repeat grid n)))), world'.
  split; [rewrite Hcall; reflexivity|].
  assert (Hall : Forall (fun x : ndarray F =>
                           shape x = [Z.to_nat h; Z.to_nat w])
                        (repeat grid n)).
  { apply Forall_forall. intros x Hx. apply repeat_spec in Hx. congruence. }
  split.
  { unfold generate_original_population, range. fold n.
    erewrite bind_ok by exact Hm.
    rewrite (array_uniform (repeat grid n) [Z.to_nat h; Z.to_nat w]); auto.
    - rewrite repeat_length. reflexivity.
    - destruct n eqn:En; [lia|discriminate]. }
  split; [reflexivity|]. split; [|auto].
  intros i Hi.
  erewrite getitem_ok by (try reflexivity; exact Hi). cbn [data].
  rewrite (chunk_concat (size [Z.to_nat h; Z.to_nat w])
                        (map (@data F) (repeat grid n)) i (data grid)).
  - destruct grid as [sg dg]. simpl in Hs. subst sg. reflexivity.
  - rewrite map_repeat. apply Forall_forall. intros d Hd.
    apply repeat_spec in Hd. subst d. rewrite Hl. simpl. lia.
  - rewrite map_repeat. apply nth_error_repeat. exact Hi.
Qed.

End SeedingTheorems.

(** ** Ranking *)

Section MoreChunkFacts.
Context {A : Type}.

Lemma nth_error_chunk (k i j : nat) (d : list A) :
  j < k -> nth_error (chunk k i d) j = nth_error d (i * k + j).
Proof.
  intros Hj. unfold chunk.
  rewrite nth_error_firstn.
  destruct (Nat.ltb_spec j k) as [_|Hge]; [|lia].
  apply nth_error_skipn.
Qed.

Lemma chunk_chunk (k m i j : nat) (d : list A) :
  j < m -> chunk k j (chunk (m * k) i d) = chunk k (i * m + j) d.
Proof.
  intros Hj. unfold chunk.
  rewrite skipn_firstn_comm, firstn_firstn, skipn_skipn.
  f_equal; [nia|]. f_equal. nia.
Qed.

Lemma chunk_concat_nth (k i : nat) (blocks : list (list A)) :
  Forall (fun x => length x = k) blocks -> i < length blocks ->
  chunk k i (concat blocks) = nth i blocks [].
Proof.
  intros Hall Hi. apply chunk_concat; auto.
  apply nth_error_nth'. exact Hi.
Qed.

End MoreChunkFacts.

Lemma rmap_nth_error {A B} (f : A -> result B) (xs : list A) (ys : list B)
      (i : nat) (x : A) :
  rmap f xs = Ok ys -> nth_error xs i = Some x ->
  exists y, nth_error ys i = Some y /\ f x = Ok y.
Proof.
  revert ys i. induction xs as [|a xs IH]; intros ys i Hr Hx.
  - destruct i; discriminate.
  - cbn [rmap] in Hr.
    destruct (f a) as [b|e] eqn:Hb; [|discriminate].
    cbn [rbind] in Hr.
    destruct (rmap f xs) as [bs|e] eqn:Hbs; [|discriminate].
    cbn [rbind] in Hr. inversion Hr; subst ys.
    destruct i as [|i]; cbn [nth_error] in *.
    + inversion Hx; subst. exists b. auto.
    + apply (IH bs i eq_refl Hx).
Qed.

Section RankingTheorems.
Context {F : Type} `{Scalar F}.

(** The index array [np.argsort] returns on the score matrix: row [i]
    is the four scores of individual [i], argsorted. *)
Lemma fitness_order (population : ndarray F) (n h w : nat) (mh mw : Z) :
  shape population = [n; h; w] -> well_formed population ->
  1 <= n -> 1 <= h -> 1 <= w ->
  f_int (f_div (f_of_Z (Z.of_nat h)) (f_of_Z 2)) = Ok mh ->
  f_int (f_div (f_of_Z (Z.of_nat w)) (f_of_Z 2)) = Ok mw ->
  exists scores,
    length scores = n /\
    Forall (fun t => length t = 4) scores /\
    rmap score (map (fun i => mk_nd [h; w]
                                (chunk (size [h; w]) i (data population)))
                    (seq 0 n)) = Ok scores /\
    compute_population_fitness population
    = take population (mk_nd [n; 4] (concat (map argsort_row scores))).
Proof.
  intros Hs Hwf Hn Hh Hw Hmh Hmw. unfold compute_population_fitness.
  erewrite items_ok by exact Hs. cbn [rbind].
  destruct (rmap_total score (fun t => length t = 4)
              (map (fun i => mk_nd [h; w]
                               (chunk (size [h; w]) i (data population)))
                   (seq 0 n)))
    as (scores & Hsc & Hlen4 & Hlen).
  { intros g Hg. apply in_map_iff in Hg. destruct Hg as (i & <- & Hi).
    apply in_seq in Hi.
    apply score_ok with (h := h) (w := w) (mh := mh) (mw := mw); auto.
    eapply chunk_well_formed; eauto. lia. }
  rewrite length_map, length_seq in Hlen.
  exists scores. split; [exact Hlen|]. split; [exact Hlen4|].
  split; [exact Hsc|].
  rewrite Hsc. cbn [rbind].
  rewrite (array_uniform (map (fun t => mk_nd [length t] t) scores) [4]).
  - cbn [rbind]. f_equal. unfold argsort. cbn [shape data last].
    rewrite length_map, map_map. cbn [data]. rewrite map_id.
    rewrite (concat_length_uniform 4 scores Hlen4), Hlen.
    rewrite Nat.div_mul by discriminate.
    f_equal. f_equal.
    rewrite <- Hlen, <- (length_map argsort_row scores).
    apply map_seq_nth. intros i p Hp.
    rewrite nth_error_map in Hp.
    destruct (nth_error scores i) as [t|] eqn:Ht; [|discriminate].
    inversion Hp; subst.
    rewrite (chunk_concat 4 scores i t Hlen4 Ht). reflexivity.
  - destruct scores; [simpl in Hlen; lia|discriminate].
  - apply Forall_map. eapply Forall_impl; [|exact Hlen4].
    simpl. intros t Ht. rewrite Ht. reflexivity.
Qed.

(** X2.  Ranking needs four individuals: each row of the index array
    is a rearrangement of 0, 1, 2, 3 (there are four scores), and it is
    used to index the population, so a population of one, two or three
    grids makes the call raise [IndexError]. *)
Theorem ranking_small_population_raises
        (population : ndarray F) (n h w : nat) (mh mw : Z) :
  shape population = [n; h; w] -> well_formed population ->
  1 <= n <= 3 -> 1 <= h -> 1 <= w ->
  f_int (f_div (f_of_Z (Z.of_nat h)) (f_of_Z 2)) = Ok mh ->
  f_int (f_div (f_of_Z (Z.of_nat w)) (f_of_Z 2)) = Ok mw ->
  compute_population_fitness population = Raise IndexError.
Proof.
  intros Hs Hwf Hn Hh Hw Hmh Hmw.
  destruct (fitness_order population n h w mh mw Hs Hwf) as
    (scores & Hlen & Hlen4 & _ & Hcpf); auto; try lia.
  rewrite Hcpf. unfold take. rewrite Hs. cbn [data].
  rewrite (rmap_getitem_out population n [h; w] _ 3 Hs); [reflexivity| |lia].
  destruct scores as [|t scores]; [simpl in Hlen; lia|].
  cbn [map concat]. apply in_or_app. left.
  inversion Hlen4 as [|? ? Ht _]; subst.
  apply (Permutation_in 3 (argsort_row_permutation t)).
  rewrite Ht. simpl. tauto.
Qed.

(** X3.  On four individuals or more, ranking does not return the
    population in another order: the result has one axis more, shape
    [(n, 4, h, w)], and its item [i] holds the first four individuals
    of the population, arranged by the argsort of the four scores of
    individual [i]: entry [j] of item [i] is the individual whose index
    is entry [j] of [np.argsort(score(population[i]))], a rearrangement
    of 0, 1, 2, 3.  Individuals beyond the fourth do not occur in the
    result. *)
Theorem ranking_rearranges_first_four
        (population : ndarray F) (n h w : nat) (mh mw : Z) :
  shape population = [n; h; w] -> well_formed population ->
  4 <= n -> 1 <= h -> 1 <= w ->
  f_int (f_div (f_of_Z (Z.of_nat h)) (f_of_Z 2)) = Ok mh ->
  f_int (f_div (f_of_Z (Z.of_nat w)) (f_of_Z 2)) = Ok mw ->
  exists ranked,
    compute_population_fitness population = Ok ranked /\
    shape ranked = [n; 4; h; w] /\
    forall i, i < n ->
      exists g t,
        getitem population i = Ok g /\ score g = Ok t /\
        Permutation [0; 1; 2; 3] (argsort_row t) /\
        forall j, j < 4 ->
          (row <~ getitem ranked i ;; getitem row j)
          = getitem population (nth j (argsort_row t) 0).
Proof.
  intros Hs Hwf Hn Hh Hw Hmh Hmw.
  destruct (fitness_order population n h w mh mw Hs Hwf) as
    (scores & Hlen & Hlen4 & Hscores & Hcpf); auto; try lia.
  set (idxs := concat (map argsort_row scores)) in *.
  assert (Hblocks : Forall (fun p : list nat => length p = 4)
                           (map argsort_row scores)).
  { apply Forall_map. eapply Forall_impl; [|exact Hlen4].
    simpl. intros t Ht. rewrite argsort_row_length. exact Ht. }
  assert (Hperm : forall i, i < n ->
             Permutation [0; 1; 2; 3] (chunk 4 i idxs)).
  { intros i Hi. unfold idxs.
    rewrite chunk_concat_nth by (auto; rewrite length_map; lia).
    rewrite (nth_indep _ [] (argsort_row [])) by (rewrite length_map; lia).
    rewrite map_nth.
    assert (Ht : length (nth i scores []) = 4).
    { rewrite Forall_forall in Hlen4. apply Hlen4. apply nth_In. lia. }
    pose proof (argsort_row_permutation (nth i scores [])) as Hp.
    rewrite Ht in Hp. exact Hp. }
  assert (Hidx_len : length idxs = n * 4).
  { unfold idxs. rewrite (concat_length_uniform 4 _ Hblocks), length_map.
    lia. }
  assert (Hbound : forall p, p < n * 4 -> nth p idxs 0 < 4).
  { intros p Hp.
    assert (Hi : p / 4 < n) by (apply Nat.Div0.div_lt_upper_bound; lia).
    pose proof (Nat.mod_upper_bound p 4 ltac:(lia)) as Hj.
    pose proof (nth_error_chunk 4 (p / 4) (p mod 4) idxs Hj) as Hc.
    replace (p / 4 * 4 + p mod 4) with p in Hc
      by (rewrite (Nat.div_mod_eq p 4) at 1; lia).
    rewrite (nth_error_nth' idxs 0) in Hc by lia.
    apply nth_error_In in Hc.
    apply (Permutation_in _ (Permutation_sym (Hperm _ Hi))) in Hc.
    simpl in Hc. lia. }
  set (pick := fun i : nat =>
                 mk_nd [h; w] (chunk (size [h; w]) i (data population))).
  assert (Hpicked : rmap (getitem population) idxs = Ok (map pick idxs)).
  { apply rmap_ok. intros i Hi.
    apply getitem_ok with (n := n); auto.
    apply In_nth with (d := 0) in Hi. destruct Hi as (p & Hp & <-).
    specialize (Hbound p ltac:(lia)). lia. }
  set (D := concat (map (@data F) (map pick idxs))).
  exists (mk_nd [n; 4; h; w] D).
  split.
  { rewrite Hcpf. unfold take. rewrite Hs. cbn [data shape].
    rewrite Hpicked. reflexivity. }
  split; [reflexivity|].
  intros i Hi.
  destruct (rmap_nth_error score _ scores i (pick i) Hscores)
    as (t & Ht & Hscore).
  { rewrite nth_error_map, nth_error_seq.
    destruct (Nat.ltb_spec i n); [reflexivity|lia]. }
  assert (Hrow : chunk 4 i idxs = argsort_row t).
  { unfold idxs.
    rewrite chunk_concat_nth by (auto; rewrite length_map; lia).
    rewrite (nth_indep _ [] (argsort_row [])) by (rewrite length_map; lia).
    rewrite map_nth. f_equal. apply nth_error_nth. exact Ht. }
  exists (pick i), t.
  split; [apply getitem_ok with (n := n); auto|].
  split; [exact Hscore|].
  rewrite <- Hrow.
  split; [apply Hperm; exact Hi|].
  intros j Hj.
  erewrite getitem_ok by (try reflexivity; exact Hi). cbn [rbind data].
  erewrite getitem_ok by (try reflexivity; exact Hj). cbn [data].
  assert (Hp : i * 4 + j < n * 4) by nia.
  assert (Hnth : nth j (chunk 4 i idxs) 0 = nth (i * 4 + j) idxs 0).
  { apply nth_error_nth.
    rewrite nth_error_chunk by exact Hj.
    apply nth_error_nth'. lia. }
  rewrite Hnth.
  erewrite (getitem_ok population) by
    (try exact Hs; specialize (Hbound _ Hp); lia).
  do 2 f_equal.
  replace (size [4; h; w]) with (4 * size [h; w]) by reflexivity.
  rewrite chunk_chunk by exact Hj.
  unfold D. rewrite map_map.
  apply chunk_concat.
  - apply Forall_map, Forall_forall. intros q Hq. cbn [pick data].
    apply In_nth with (d := 0) in Hq. destruct Hq as (p & Hp' & <-).
    apply chunk_length.
    unfold well_formed in Hwf. rewrite Hs in Hwf. rewrite Hwf.
    specialize (Hbound p ltac:(lia)).
    change (size [n; h; w]) with (n * size [h; w]). nia.
  - rewrite nth_error_map.
    rewrite (nth_error_nth' idxs 0) by lia. reflexivity.
Qed.

End RankingTheorems.

(** ** Selection and breeding at the edges *)

Section MoreMonadFacts.
Context {F : Type}.

(** A comprehension whose body returns one value and leaves the state
    alone. *)
Lemma mmap_pure {A B} (f : A -> M F B) (b : B) (xs : list A) (w : world F) :
  (forall x w0, f x w0 = Ok (b, w0)) ->
  mmap f xs w = Ok (repeat b (length xs), w).
Proof.
  intros Hf. induction xs as [|x xs IH]; simpl; [reflexivity|].
  erewrite bind_ok by apply Hf. erewrite bind_ok by exact IH. reflexivity.
Qed.

Lemma concat_repeat_nil {A} (n : nat) : concat (repeat (@nil A) n) = [].
Proof. induction n; simpl; auto. Qed.

End MoreMonadFacts.

Section EdgeTheorems.
Context {F : Type} `{Scalar F}.

(** X4.  Selection with no random pick ([num_from_random <= 0]) and at
    most as many picks from the top as there are individuals returns the
    leading [num_from_top] individuals, whole, in some order. *)
Theorem selection_without_random_picks
        (sorted : ndarray F) (n : nat) (s : list nat)
        (num_from_top num_from_random : Z) (world : world F) :
  shape sorted = n :: s -> well_formed sorted ->
  Z.to_nat num_from_top <= n -> (num_from_random <= 0)%Z ->
  exists selection world' picked,
    select_from_population sorted num_from_top num_from_random world
    = Ok (selection, world') /\
    items selection = Ok picked /\
    Permutation (leading sorted (Z.to_nat num_from_top)) picked.
Proof.
  intros Hs Hwf Hk Hr.
  destruct (select_top_only sorted n s num_from_top num_from_random world Hs)
    as (picked & world' & Hperm & Hsel); auto.
  destruct (items_array picked s) as (a & Ha & Hitems).
  { eapply Permutation_Forall; [exact Hperm|].
    apply leading_well_formed with (n := n); auto. }
  exists a, world', picked. rewrite Hsel, Ha. auto.
Qed.

(** X5.  Asking for more individuals from the top than the population
    holds raises [IndexError], before any random draw. *)
Theorem selection_beyond_population_raises
        (sorted : ndarray F) (n : nat) (s : list nat)
        (num_from_top num_from_random : Z) (world : world F) :
  shape sorted = n :: s -> (Z.of_nat n < num_from_top)%Z ->
  select_from_population sorted num_from_top num_from_random world
  = Raise IndexError.
Proof.
  intros Hs Hk. unfold select_from_population.
  apply bind_raise.
  rewrite (rmap_getitem_out sorted n s (range num_from_top) n Hs);
    [reflexivity| |lia].
  unfold range. apply in_seq. lia.
Qed.

(** X6.  [breed_population] reaches the unbound name [breed] exactly
    when there is a pair to breed and a child to make: with no pair or
    with [number_of_children <= 0] it returns the empty array of shape
    [(0,)] and draws nothing; otherwise it raises [NameError]. *)
Theorem breed_population_raises_iff
        (breeders : ndarray F) (n : nat) (s : list nat)
        (number_of_children pairs : Z) (world : world F) :
  shape breeders = n :: s ->
  f_ceil (f_div (f_of_Z (Z.of_nat n)) (f_of_Z 2)) = Ok pairs ->
  breed_population breeders number_of_children world
  = if ((1 <=? pairs) && (1 <=? number_of_children))%Z
    then Raise (NameError "breed")
    else Ok (mk_nd [0] [], world).
Proof.
  intros Hs Hp.
  destruct (Z.leb_spec 1 pairs) as [Hp1|Hp0];
    destruct (Z.leb_spec 1 number_of_children) as [Hk1|Hk0]; cbn [andb].
  { apply breed_population_unbound with (n := n) (s := s) (pairs := pairs);
      auto. }
  all: unfold breed_population, breed_population_with, len;
    rewrite Hs; erewrite bind_ok by apply lift_ok;
    unfold py_truediv; simpl (2 =? 0)%Z; cbv iota;
    erewrite bind_ok by apply lift_ok;
    rewrite Hp; erewrite bind_ok by apply lift_ok; unfold range.
  - replace (Z.to_nat number_of_children) with 0 by lia.
    erewrite bind_ok by (apply mmap_pure with (b := []); reflexivity).
    rewrite concat_repeat_nil. reflexivity.
  - replace (Z.to_nat pairs) with 0 by lia.
    erewrite bind_ok by reflexivity. reflexivity.
  - replace (Z.to_nat pairs) with 0 by lia.
    erewrite bind_ok by reflexivity. reflexivity.
Qed.

(** X7.  On a 2-d grid whose midpoints can be computed, [score] raises
    exactly when the grid has no cell, and then [ValueError] (from
    [np.min]); on every other grid it returns four numbers. *)
Theorem score_raises_on_empty_grid_only
        (g : ndarray F) (h w : nat) (mh mw : Z) :
  shape g = [h; w] -> well_formed g ->
  f_int (f_div (f_of_Z (Z.of_nat h)) (f_of_Z 2)) = Ok mh ->
  f_int (f_div (f_of_Z (Z.of_nat w)) (f_of_Z 2)) = Ok mw ->
  (h * w = 0 -> score g = Raise ValueError) /\
  (h * w <> 0 -> exists t, score g = Ok t /\ length t = 4).
Proof.
  intros Hs Hwf Hmh Hmw. split.
  - intros Hz.
    assert (Hd : data g = []).
    { unfold well_formed in Hwf. rewrite Hs in Hwf. simpl in Hwf.
      apply length_zero_iff_nil. lia. }
    unfold score. cbn [rmap].
    unfold loc_glbl_var. rewrite Hs. cbn [rmap].
    unfold py_truediv. simpl (2 =? 0)%Z. cbv iota. cbn [rbind].
    rewrite Hmh, Hmw. cbn [rbind Py.index nth_error].
    unfold slice2. rewrite Hs. cbn [rbind].
    unfold sea_level. rewrite binop_scalar_r by assumption. cbn [rbind].
    unfold bedrock, Np.min. rewrite Hd. reflexivity.
  - intros Hnz. apply score_ok with (h := h) (w := w) (mh := mh) (mw := mw);
      auto; lia.
Qed.

(** X8.  An individual with a single axis cannot be scored: the second
    midpoint does not exist and [score] raises [IndexError]. *)
Theorem score_flat_array_raises (g : ndarray F) (n : nat) (m : Z) :
  shape g = [n] ->
  f_int (f_div (f_of_Z (Z.of_nat n)) (f_of_Z 2)) = Ok m ->
  score g = Raise IndexError.
Proof.
  intros Hs Hm. unfold score. cbn [rmap].
  unfold loc_glbl_var. rewrite Hs. cbn [rmap].
  unfold py_truediv. simpl (2 =? 0)%Z. cbv iota. cbn [rbind].
  rewrite Hm. reflexivity.
Qed.

End EdgeTheorems.

(** ** Thin grids, on doubles *)

Section ThinGrids.

Lemma binary64_var_empty (a : ndarray spec_float) :
  data a = [] -> var a = S754_nan.
Proof. intros Hd. unfold var. rewrite Hd. reflexivity. Qed.

Lemma slice2_no_cell {A} (a b : ndarray A) (r0 r1 c0 c1 : nat) :
  slice2 a r0 r1 c0 c1 = Ok b -> r1 <= r0 \/ c1 <= c0 -> data b = [].
Proof.
  unfold slice2. destruct (shape a) as [|h [|w rest]]; try discriminate.
  cbv zeta. intros E Hz. inversion E; subst. cbn [data].
  destruct Hz as [Hz|Hz].
  - replace (Nat.min r1 h - r0) with 0 by lia. reflexivity.
  - replace (Nat.min c1 w - c0) with 0 by lia.
    apply concat_nils. apply Forall_map, Forall_forall. intros; reflexivity.
Qed.

Lemma binary64_half_small (n : nat) (m : Z) :
  n <= 1 ->
  f_int (F := spec_float) (f_div (f_of_Z (Z.of_nat n)) (f_of_Z 2)) = Ok m ->
  m = 0%Z.
Proof.
  intros Hn. assert (Hc : n = 0 \/ n = 1) by lia.
  destruct Hc as [-> | ->]; vm_compute; intros E; inversion E; reflexivity.
Qed.

(** X9.  On doubles, the quadrant-variance metric of a grid with a
    single row or a single column (or none) is NaN: the first quadrant
    is empty, its variance is NaN, and no exception is raised. *)
Theorem quadrant_variance_nan_on_thin_grid
        (g : ndarray spec_float) (h w : nat) (mh mw : Z) :
  shape g = [h; w] -> h <= 1 \/ w <= 1 ->
  f_int (F := spec_float) (f_div (f_of_Z (Z.of_nat h)) (f_of_Z 2))
  = Ok mh ->
  f_int (F := spec_float) (f_div (f_of_Z (Z.of_nat w)) (f_of_Z 2))
  = Ok mw ->
  loc_glbl_var g = Ok S754_nan.
Proof.
  intros Hs Hthin Hmh Hmw.
  unfold loc_glbl_var. rewrite Hs. cbn [rmap].
  unfold py_truediv. simpl (2 =? 0)%Z. cbv iota. cbn [rbind].
  rewrite Hmh, Hmw. cbn [rbind Py.index nth_error nth].
  destruct (slice2 g 0 (Z.to_nat mh) 0 (Z.to_nat mw)) as [q1|e] eqn:E1;
    [|unfold slice2 in E1; rewrite Hs in E1; discriminate].
  assert (Hq1 : var q1 = S754_nan).
  { apply binary64_var_empty. apply (slice2_no_cell _ _ _ _ _ _ E1).
    destruct Hthin as [Hh|Hw].
    - left. rewrite (binary64_half_small h mh Hh Hmh). simpl. lia.
    - right. rewrite (binary64_half_small w mw Hw Hmw). simpl. lia. }
  cbn [rbind]. unfold slice2. rewrite Hs. cbn [rbind].
  rewrite Hq1. reflexivity.
Qed.

End ThinGrids.

(** ** crossover on one parent, and crossover2 *)

Section MoreCrossoverFacts.
Context {F : Type} `{Scalar F}.

Lemma zip_with_diag (f : F -> F -> F) (d : list F) :
  zip_with f d d = map (fun x => f x x) d.
Proof. induction d as [|x d IH]; simpl; congruence. Qed.

(** X10.  [crossover] called with one array as both parents (as the
    pairing of breeder [i] with breeder [n-1-i] does for the middle
    breeder of an odd pool) leaves [x - x] in every cell: the sum written
    first is overwritten by the difference of the two copies, and the
    contents of the parent are lost. *)
Theorem crossover_same_parent_twice (r : ref) (hp : heap) (a : ndarray F) :
  deref hp r = Ok a ->
  exists hp',
    crossover r r hp = Ok ((r, r), hp') /\
    deref hp' r
    = Ok (mk_nd (shape a) (map (fun x => f_store (f_sub x x)) (data a))) /\
    forall r', r' < length hp -> r' <> r -> deref hp' r' = deref hp r'.
Proof.
  intros Ha. pose proof (deref_bound hp r a Ha) as Hr.
  unfold crossover, heap_copy. rewrite Ha. cbn [rbind].
  assert (H1 : deref (hp ++ [a]) r = Ok a) by (apply deref_app_l; exact Ha).
  rewrite H1. cbn [rbind].
  set (h2 := (hp ++ [a]) ++ [a]).
  assert (Hr2 : r < length h2) by (unfold h2; rewrite !length_app; lia).
  assert (Ht1 : deref h2 (length hp) = Ok a).
  { unfold h2. apply deref_app_l. apply deref_app_new. }
  assert (Ht2 : deref h2 (length (hp ++ [a])) = Ok a).
  { unfold h2. apply deref_app_new. }
  assert (H2 : deref h2 r = Ok a) by (unfold h2; apply deref_app_l; exact H1).
  unfold heap_binop. rewrite Ht1, Ht2. cbn [rbind].
  rewrite binop_same_shape by reflexivity. cbn [rbind].
  unfold heap_assign. rewrite H2. cbn [rbind].
  rewrite assign_same_shape by reflexivity. cbn [rbind].
  rewrite !deref_set_other by (rewrite ?length_app; simpl; lia).
  rewrite Ht1, Ht2. cbn [rbind].
  rewrite binop_same_shape by reflexivity. cbn [rbind].
  rewrite deref_set_same by exact Hr2. cbn [rbind].
  rewrite assign_same_shape by reflexivity. cbn [rbind shape data].
  eexists. split; [reflexivity|]. split.
  - rewrite deref_set_same by (rewrite list_set_length; exact Hr2).
    rewrite zip_with_diag, map_map. reflexivity.
  - intros r' Hr' Hne.
    rewrite !deref_set_other by congruence.
    unfold h2, deref, Py.index.
    rewrite !nth_error_app1 by (rewrite ?length_app; simpl; lia).
    reflexivity.
Qed.

Lemma batch_weights_length (us : list F) :
  length (batch_weights us) = length us.
Proof. destruct us; simpl; rewrite ?length_map; reflexivity. Qed.

Lemma normalized_weights_ok (s : list nat) (us : list F) :
  length us = size s -> us <> [] ->
  normalized_weights (mk_nd s us) = Ok (mk_nd s (batch_weights us)).
Proof.
  intros Hl Hne. unfold normalized_weights, Np.max, Np.min. cbn [data].
  destruct us as [|u rest]; [congruence|]. cbn [rbind].
  rewrite binop_scalar_r by exact Hl. cbn [rbind].
  rewrite binop_scalar_r
    by (unfold well_formed; cbn [data shape]; rewrite length_map; exact Hl).
  cbn [shape data]. rewrite map_map. reflexivity.
Qed.

Lemma weighted_blend_ok (hp : heap) (m1 m2 : ref) (p1 p2 : ndarray F)
      (s : list nat) (t : list F) :
  deref hp m1 = Ok p1 -> deref hp m2 = Ok p2 ->
  shape p1 = s -> shape p2 = s -> length t = size s ->
  weighted_blend hp m1 m2 (mk_nd s t)
  = Ok (mk_nd s (blend_cells (data p1) (data p2) t)).
Proof.
  intros H1 H2 Hs1 Hs2 Hl. unfold weighted_blend.
  rewrite H1. cbn [rbind].
  rewrite binop_same_shape by exact Hs1. cbn [rbind].
  rewrite H2. cbn [rbind].
  rewrite binop_scalar_l by exact Hl. cbn [rbind shape].
  rewrite binop_same_shape by exact Hs2. cbn [rbind].
  rewrite binop_same_shape by (cbn [shape]; congruence).
  cbn [shape data]. rewrite Hs1. reflexivity.
Qed.

Lemma np_batch_nonempty (w0 : world F) (n : nat) :
  1 <= n -> map (np_coming w0) (seq 0 n) <> [].
Proof. destruct n; [lia|discriminate]. Qed.

(** What [crossover2] leaves in the store, on two distinct parents of
    one 2-d shape with at least one cell. *)
Lemma crossover2_spec (m1 m2 : ref) (hp : heap) (p1 p2 : ndarray F)
      (h w : nat) (world : world F) :
  m1 <> m2 -> deref hp m1 = Ok p1 -> deref hp m2 = Ok p2 ->
  shape p1 = [h; w] -> shape p2 = [h; w] -> 1 <= h * w ->
  let n := size [h; w] in
  let world1 := np_advance n world in
  let t1 := batch_weights (map (np_coming world) (seq 0 n)) in
  let t2 := batch_weights (map (np_coming world1) (seq 0 n)) in
  let c1 := map f_store (blend_cells (data p1) (data p2) t1) in
  let c2 := map f_store (blend_cells c1 (data p2) t2) in
  crossover2 m1 m2 hp world
  = Ok ((m1, m2),
        list_set (list_set hp m1 (mk_nd [h; w] c1)) m2 (mk_nd [h; w] c2),
        np_advance n world1).
Proof.
  intros Hne H1 H2 Hs1 Hs2 Hn n world1 t1 t2 c1 c2.
  assert (Hn' : 1 <= n) by (subst n; simpl; lia).
  pose proof (deref_bound hp m1 p1 H1) as Hb1.
  unfold crossover2. rewrite H1. erewrite bind_ok by apply lift_ok.
  rewrite Hs1. cbn [Py.index nth_error].
  erewrite bind_ok by apply lift_ok. erewrite bind_ok by apply lift_ok.
  erewrite bind_ok by apply np_random_rand_eq. fold n.
  rewrite normalized_weights_ok
    by (rewrite ?length_map, ?length_seq; auto using np_batch_nonempty).
  erewrite bind_ok by apply lift_ok. fold t1.
  rewrite (weighted_blend_ok hp m1 m2 p1 p2 [h; w] t1)
    by (auto; unfold t1; rewrite batch_weights_length, length_map, length_seq;
        reflexivity).
  erewrite bind_ok by apply lift_ok.
  unfold heap_assign at 1. rewrite H1. cbn [rbind].
  rewrite assign_same_shape by (cbn [shape]; congruence).
  cbn [rbind data]. rewrite Hs1. fold c1.
  erewrite bind_ok by apply lift_ok.
  erewrite bind_ok by apply np_random_rand_eq. fold n. fold world1.
  rewrite normalized_weights_ok
    by (rewrite ?length_map, ?length_seq; auto using np_batch_nonempty).
  erewrite bind_ok by apply lift_ok. fold t2.
  set (hp1 := list_set hp m1 (mk_nd [h; w] c1)).
  assert (H1' : deref hp1 m1 = Ok (mk_nd [h; w] c1))
    by (apply deref_set_same; exact Hb1).
  assert (H2' : deref hp1 m2 = Ok p2)
    by (unfold hp1; rewrite deref_set_other by exact Hne; exact H2).
  rewrite (weighted_blend_ok hp1 m1 m2 (mk_nd [h; w] c1) p2 [h; w] t2)
    by (auto; unfold t2; rewrite batch_weights_length, length_map, length_seq;
        reflexivity).
  erewrite bind_ok by apply lift_ok.
  unfold heap_assign. rewrite H2'. cbn [rbind].
  rewrite assign_same_shape by (cbn [shape]; congruence).
  cbn [rbind data]. rewrite Hs2. fold c2.
  erewrite bind_ok by apply lift_ok. reflexivity.
Qed.

End MoreCrossoverFacts.

(** ** crossover2: what it writes, where it fails *)

Section Crossover2Theorems.
Context {F : Type} `{Scalar F}.

Lemma np_advance_add (n m : nat) (w : world F) :
  np_advance m (np_advance n w) = np_advance (n + m) w.
Proof. unfold np_advance. cbn. rewrite Nat.add_assoc. reflexivity. Qed.

Lemma blend_cells_length (d1 d2 t : list F) (n : nat) :
  length d1 = n -> length d2 = n -> length t = n ->
  length (blend_cells d1 d2 t) = n.
Proof.
  intros H1 H2 Ht. unfold blend_cells.
  assert (Ha : length (zip_with f_mul d1 t) = n)
    by (rewrite zip_with_length; congruence).
  assert (Hb : length (zip_with f_mul d2
                         (map (fun x => f_sub (f_of_Z 1) x) t)) = n)
    by (rewrite zip_with_length; rewrite ?length_map; congruence).
  rewrite zip_with_length; congruence.
Qed.

(** X11.  [crossover2] on two distinct parents of one 2-d shape with at
    least one cell returns its two arguments, in order, after writing
    the first child into the first parent and the second child into the
    second: the store keeps its size, every other array is untouched,
    both parents keep their shape, and [2 * h * w] draws of [np.random]
    are consumed. *)
Theorem crossover2_writes_its_parents_only
        (m1 m2 : ref) (hp : heap) (p1 p2 : ndarray F) (h w : nat)
        (world : world F) :
  m1 <> m2 -> deref hp m1 = Ok p1 -> deref hp m2 = Ok p2 ->
  shape p1 = [h; w] -> shape p2 = [h; w] ->
  well_formed p1 -> well_formed p2 -> 1 <= h * w ->
  exists hp' c1 c2,
    crossover2 m1 m2 hp world
    = Ok ((m1, m2), hp', np_advance (2 * (h * w)) world) /\
    length hp' = length hp /\
    deref hp' m1 = Ok c1 /\ deref hp' m2 = Ok c2 /\
    shape c1 = [h; w] /\ shape c2 = [h; w] /\
    well_formed c1 /\ well_formed c2 /\
    forall r, r <> m1 -> r <> m2 -> deref hp' r = deref hp r.
Proof.
  intros Hne H1 H2 Hs1 Hs2 Hwf1 Hwf2 Hn.
  pose proof (crossover2_spec m1 m2 hp p1 p2 h w world Hne H1 H2 Hs1 Hs2 Hn)
    as Hspec. cbv zeta in Hspec.
  pose proof (deref_bound hp m1 p1 H1) as Hb1.
  pose proof (deref_bound hp m2 p2 H2) as Hb2.
  assert (Hsz : size [h; w] = h * w) by (simpl; lia).
  unfold well_formed in Hwf1, Hwf2. rewrite Hs1 in Hwf1. rewrite Hs2 in Hwf2.
  rewrite np_advance_add, Hsz in Hspec.
  replace (h * w + h * w) with (2 * (h * w)) in Hspec by lia.
  eexists. eexists. eexists. split; [exact Hspec|].
  split; [rewrite !list_set_length; reflexivity|].
  split.
  { rewrite deref_set_other by congruence. apply deref_set_same. exact Hb1. }
  split.
  { apply deref_set_same. rewrite list_set_length. exact Hb2. }
  split; [reflexivity|]. split; [reflexivity|].
  assert (Hc1 : length (map f_store
                   (blend_cells (data p1) (data p2)
                      (batch_weights (map (np_coming world)
                                          (seq 0 (h * w)))))) = h * w).
  { rewrite length_map. apply blend_cells_length; try congruence.
    rewrite batch_weights_length, length_map, length_seq. reflexivity. }
  split; [unfold well_formed; cbn [data shape]; rewrite Hsz; exact Hc1|].
  split.
  { unfold well_formed. cbn [data shape]. rewrite Hsz, length_map.
    apply blend_cells_length; try congruence.
    rewrite batch_weights_length, length_map, length_seq. reflexivity. }
  intros r Hr1 Hr2. rewrite !deref_set_other by congruence. reflexivity.
Qed.

(** X12.  [crossover2] cannot take a parent with fewer than two axes
    ([IndexError] on [shape[1]]) nor a 2-d parent without a cell
    ([ValueError] from [np.max] of the empty weight matrix). *)
Theorem crossover2_degenerate_parent_raises
        (m1 m2 : ref) (hp : heap) (p1 : ndarray F) (world : world F) :
  deref hp m1 = Ok p1 ->
  (length (shape p1) < 2 ->
   crossover2 m1 m2 hp world = Raise IndexError) /\
  (forall h w, shape p1 = [h; w] -> h * w = 0 ->
   crossover2 m1 m2 hp world = Raise ValueError).
Proof.
  intros H1. split.
  - intros Hl. unfold crossover2. rewrite H1.
    erewrite bind_ok by apply lift_ok.
    destruct (shape p1) as [|a [|b s]]; [reflexivity|reflexivity|].
    simpl in Hl. lia.
  - intros h w Hs Hz. unfold crossover2. rewrite H1.
    erewrite bind_ok by apply lift_ok. rewrite Hs. cbn [Py.index nth_error].
    erewrite bind_ok by apply lift_ok. erewrite bind_ok by apply lift_ok.
    erewrite bind_ok by apply np_random_rand_eq.
    replace (size [h; w]) with 0 by (simpl; lia).
    reflexivity.
Qed.

End Crossover2Theorems.

Section Crossover2Binary64.

Lemma binary64_self_ratio (u : spec_float) :
  SFdiv Binary64.prec Binary64.emax
        (SFsub Binary64.prec Binary64.emax u u)
        (SFsub Binary64.prec Binary64.emax u u) = S754_nan.
Proof.
  destruct u as [s|s| |s m e]; try (destruct s; reflexivity); try reflexivity.
  unfold SFsub. rewrite Z.sub_diag. reflexivity.
Qed.

Lemma binary64_blend_nan (a b : spec_float) :
  blend_cells [a] [b] [S754_nan] = [S754_nan].
Proof.
  unfold blend_cells. cbn [zip_with map]. f_equal.
  cbn [f_add f_mul f_sub Binary64.scalar].
  replace (SFmul Binary64.prec Binary64.emax a S754_nan) with S754_nan
    by (destruct a; reflexivity).
  reflexivity.
Qed.

(** X13.  On doubles, [crossover2] on two distinct 1x1 parents always
    leaves NaN in both: the single weight is its own minimum and
    maximum, so its normalisation is [0/0], whatever the draw and
    whatever the parents hold. *)
Theorem crossover2_single_cell_gives_nan
        (m1 m2 : ref) (hp : heap) (p1 p2 : ndarray spec_float)
        (world : world spec_float) :
  m1 <> m2 -> deref hp m1 = Ok p1 -> deref hp m2 = Ok p2 ->
  shape p1 = [1; 1] -> shape p2 = [1; 1] ->
  well_formed p1 -> well_formed p2 ->
  exists hp' world',
    crossover2 m1 m2 hp world = Ok ((m1, m2), hp', world') /\
    deref hp' m1 = Ok (mk_nd [1; 1] [S754_nan]) /\
    deref hp' m2 = Ok (mk_nd [1; 1] [S754_nan]).
Proof.
  intros Hne H1 H2 Hs1 Hs2 Hwf1 Hwf2.
  pose proof (crossover2_spec m1 m2 hp p1 p2 1 1 world Hne H1 H2 Hs1 Hs2
                              ltac:(simpl; lia)) as Hspec.
  cbv zeta in Hspec.
  pose proof (deref_bound hp m1 p1 H1) as Hb1.
  pose proof (deref_bound hp m2 p2 H2) as Hb2.
  unfold well_formed in Hwf1, Hwf2. rewrite Hs1 in Hwf1. rewrite Hs2 in Hwf2.
  destruct (data p1) as [|a [|? ?]]; try discriminate.
  destruct (data p2) as [|b [|? ?]]; try discriminate.
  change (size [1; 1]) with 1 in Hspec. cbn [seq map batch_weights] in Hspec.
  cbn [fold_left] in Hspec.
  cbn [f_div f_sub Binary64.scalar] in Hspec.
  rewrite !binary64_self_ratio in Hspec.
  rewrite !binary64_blend_nan in Hspec. cbn [map] in Hspec.
  change (f_store S754_nan) with S754_nan in Hspec.
  rewrite !binary64_blend_nan in Hspec. cbn [map] in Hspec.
  change (f_store S754_nan) with S754_nan in Hspec.
  eexists. eexists. split; [exact Hspec|]. split.
  - rewrite deref_set_other by congruence. apply deref_set_same. exact Hb1.
  - apply deref_set_same. rewrite list_set_length. exact Hb2.
Qed.

End Crossover2Binary64.

(** ** mutate2 *)

Section Mutate2Facts.
Context {F : Type} `{Scalar F}.

Lemma np_random_normal_eq (loc scale : F) (w : world F) :
  np_random_normal loc scale w
  = Ok (f_add loc (f_mul scale (np_gauss (np_random w)
                                         (np_pos (np_random w)))),
        np_advance 1 w).
Proof.
  unfold np_random_normal, bind, np_next, ret, np_advance. cbn.
  rewrite Nat.add_1_r. reflexivity.
Qed.


End Mutate2Facts.

Section Mutate2Binary64.



End Mutate2Binary64.

Section EmptyGridBinary64.

(** X16.  On doubles, [mutate] and [mutate2] raise [ValueError] on a
    grid without a cell: its standard deviation is NaN, so is the
    normal deviate scaled by it, and [int()] refuses NaN. *)
Theorem mutation_of_empty_grid_raises
        (g : ndarray spec_float) (world : world spec_float) :
  data g = [] ->
  value (mutate g world) = Raise ValueError /\
  value (mutate2 g world) = Raise ValueError.
Proof.
  intros Hd.
  assert (Hstd : std g = S754_nan)
    by (unfold std; rewrite binary64_var_empty by exact Hd; reflexivity).
  assert (Ha : mutate_amplitude g world = Raise ValueError).
  { unfold mutate_amplitude.
    erewrite bind_ok by apply np_random_normal_eq.
    rewrite Hstd. reflexivity. }
  assert (Hb : mutate2_amplitude g world = Raise ValueError).
  { unfold mutate2_amplitude.
    erewrite bind_ok by apply np_random_normal_eq.
    rewrite Hstd. reflexivity. }
  split.
  - unfold mutate. erewrite bind_raise by exact Ha. reflexivity.
  - unfold mutate2. erewrite bind_raise by exact Hb. reflexivity.
Qed.

End EmptyGridBinary64.

Section ScalarPopulation.
Context {F : Type} `{Scalar F}.

(** X24.  A population of rank 1 holds numbers, not grids, and the
    stage cannot mutate it: the individual on which the first passing
    draw falls is a numpy scalar, [mutate] computes an amplitude for it
    and then raises [TypeError] at [individual[...] = ...] (unless
    [int()] refused the deviate before). *)
Theorem scalar_population_cannot_be_mutated
        (population g : ndarray F) (n j : nat) (chance : F)
        (world : world F) :
  shape population = [n] -> well_formed population -> j < n ->
  getitem population j = Ok g ->
  (forall i, i < j ->
     f_ltb (f_mul (py_coming world i) (f_of_Z 100)) chance = false) ->
  f_ltb (f_mul (py_coming world j) (f_of_Z 100)) chance = true ->
  mutate_population population chance world
  = (_ <- mutate_amplitude g ;; lift (Raise TypeError))
      (py_advance (S j) world).
Proof.
  intros Hs Hwf Hj Hg Hclosed Hopen.
  assert (Hgs : shape g = []).
  { rewrite (getitem_ok population n [] j Hs Hj) in Hg.
    injection Hg as <-. reflexivity. }
  unfold mutate_population, len. rewrite Hs.
  erewrite bind_ok by apply lift_ok.
  rewrite (mutate_loop_first_open chance n [] j n 0 population world g);
    auto.
  unfold mutate_item. rewrite Hgs. unfold bind.
  destruct (mutate_amplitude g _) as [[k w1]|e]; [|reflexivity].
  rewrite np_random_rand_eq. reflexivity.
Qed.

End ScalarPopulation.

(** ** analyze_cell *)

Lemma py_index_inside (i : Z) (n : nat) :
  (- Z.of_nat n <= i < Z.of_nat n)%Z ->
  exists k, py_index i n = Ok k /\ k < n.
Proof.
  intros Hi. unfold py_index.
  destruct (Z.leb_spec 0 i); destruct (Z.ltb_spec i (Z.of_nat n));
    destruct (Z.ltb_spec i 0); destruct (Z.leb_spec (- Z.of_nat n) i);
    cbn [andb]; try lia; eexists; split; try reflexivity; lia.
Qed.


Lemma py_index_nonneg (i : Z) (n : nat) :
  (0 <= i < Z.of_nat n)%Z -> py_index i n = Ok (Z.to_nat i).
Proof.
  intros Hi. unfold py_index.
  destruct (Z.leb_spec 0 i); destruct (Z.ltb_spec i (Z.of_nat n));
    cbn [andb]; try lia; reflexivity.
Qed.

Lemma slice_bound_nonneg (i : Z) (n : nat) :
  (0 <= i)%Z -> slice_bound i n = Nat.min (Z.to_nat i) n.
Proof.
  intros Hi. unfold slice_bound. destruct (Z.ltb_spec i 0); [lia|reflexivity].
Qed.

Section NeighbourhoodTheorems.
Context {F : Type} `{Scalar F} `{ScalarAbs F}.
Variable CELL_LENGTH : Z.

Lemma getitem2_inside (grid : ndarray F) (h w : nat) (x y : Z) :
  shape grid = [h; w] -> well_formed grid ->
  (- Z.of_nat h <= x < Z.of_nat h)%Z -> (- Z.of_nat w <= y < Z.of_nat w)%Z ->
  exists v, getitem2 grid x y = Ok (scalar_nd v).
Proof.
  intros Hs Hwf Hx Hy. unfold getitem2. rewrite Hs.
  destruct (py_index_inside x h Hx) as (i & Hi & Hih).
  destruct (py_index_inside y w Hy) as (j & Hj & Hjw).
  rewrite Hi, Hj. cbn [rbind].
  unfold well_formed in Hwf. rewrite Hs in Hwf. simpl in Hwf.
  assert (Hlt : i * w + j < length (data grid)) by nia.
  destruct (nth_error (data grid) (i * w + j)) as [v|] eqn:Hv;
    [|apply nth_error_None in Hv; lia].
  exists v. change (size []) with 1.
  rewrite (chunk_singleton _ _ _ Hv). reflexivity.
Qed.

Lemma analyze_window_ok (grid : ndarray F) (h w : nat) (x y : Z) :
  shape grid = [h; w] -> well_formed grid ->
  exists cell, analyze_window CELL_LENGTH grid x y = Ok cell /\
               well_formed cell.
Proof.
  intros Hs Hwf. unfold analyze_window. rewrite Hs.
  cbn [Py.index nth_error rbind]. cbv zeta.
  match goal with
  | |- context [slice2 grid ?r0 ?r1 ?c0 ?c1] =>
      destruct (slice2_well_formed grid h w [] r0 r1 c0 c1 Hs Hwf)
        as (cell & Hc & _ & Hcwf)
  end.
  exists cell. split; assumption.
Qed.


(** X18.  The row bounds of the window are compared with the width of
    the grid (and the column bounds with its height).  So on a grid with
    more rows than columns, every row [x >= w - 1 + CELL_LENGTH] gets an
    empty window: both results are computed from no cell at all. *)
Theorem analyze_cell_low_rows_see_nothing
        (grid : ndarray F) (h w : nat) (x y : Z) :
  shape grid = [h; w] -> well_formed grid ->
  (0 <= CELL_LENGTH)%Z ->
  (0 <= x < Z.of_nat h)%Z -> (0 <= y < Z.of_nat w)%Z ->
  (Z.of_nat w - 1 + CELL_LENGTH <= x)%Z ->
  analyze_cell CELL_LENGTH grid x y
  = Ok (zero, f_div zero (f_of_Z ((CELL_LENGTH + 1) ^ 2))).
Proof.
  intros Hs Hwf HL Hx Hy Hlow. unfold analyze_cell.
  destruct (getitem2_inside grid h w x y Hs Hwf ltac:(lia) ltac:(lia))
    as (v & Hv).
  destruct (analyze_window_ok grid h w x y Hs Hwf) as (cell & Hc & Hcwf).
  rewrite Hv, Hc. cbn [rbind].
  rewrite binop_scalar_r by exact Hcwf. cbn [rbind data].
  assert (Hd : data cell = []).
  { unfold analyze_window in Hc. rewrite Hs in Hc.
    cbn [Py.index nth_error rbind] in Hc. cbv zeta in Hc.
    apply (slice2_no_cell _ _ _ _ _ _ Hc). left.
    destruct (Z.leb_spec CELL_LENGTH x); [|lia].
    rewrite (slice_bound_nonneg (x - CELL_LENGTH)) by lia.
    destruct (Z.ltb_spec (x + CELL_LENGTH) (Z.of_nat w)).
    - rewrite slice_bound_nonneg by lia. lia.
    - rewrite slice_bound_nonneg by lia. lia. }
  rewrite Hd. reflexivity.
Qed.

End NeighbourhoodTheorems.

Section NeighbourhoodConstant.
Context {F : Type} `{Scalar F} `{ScalarAbs F}.

(** On a constant grid, at a point whose window lies inside the grid,
    the window holds [(2 * CELL_LENGTH)^2] cells. *)
Lemma analyze_cell_full (CELL_LENGTH : Z) (h w : nat) (c : F) (x y : Z) :
  (0 <= CELL_LENGTH)%Z ->
  (CELL_LENGTH <= x)%Z -> (x < Z.of_nat h)%Z ->
  (x + CELL_LENGTH < Z.of_nat w)%Z -> (x + CELL_LENGTH <= Z.of_nat h)%Z ->
  (CELL_LENGTH <= y)%Z -> (y < Z.of_nat w)%Z ->
  (y + CELL_LENGTH < Z.of_nat h)%Z -> (y + CELL_LENGTH <= Z.of_nat w)%Z ->
  analyze_cell CELL_LENGTH (full [h; w] c) x y
  = Ok (Np.sum (repeat (f_abs (f_sub c c))
                       (Z.to_nat ((2 * CELL_LENGTH) ^ 2))),
        f_div (Np.sum (repeat c (Z.to_nat ((2 * CELL_LENGTH) ^ 2))))
              (f_of_Z ((CELL_LENGTH + 1) ^ 2))).
Proof.
  intros HL Hx1 Hx2 Hx3 Hx4 Hy1 Hy2 Hy3 Hy4.
  set (L := Z.to_nat CELL_LENGTH).
  unfold analyze_cell.
  assert (Hget : getitem2 (full [h; w] c) x y = Ok (scalar_nd c)).
  { unfold getitem2, full. cbn [shape data].
    rewrite !py_index_nonneg by lia. cbn [rbind].
    change (size []) with 1.
    rewrite (chunk_singleton _ _ c); [reflexivity|].
    apply nth_error_repeat. simpl. nia. }
  rewrite Hget. cbn [rbind].
  assert (Hwin : analyze_window CELL_LENGTH (full [h; w] c) x y
                 = Ok (full [2 * L; 2 * L] c)).
  { unfold analyze_window. cbn [full shape Py.index nth_error rbind].
    cbv zeta.
    destruct (Z.leb_spec CELL_LENGTH x); [|lia].
    destruct (Z.leb_spec CELL_LENGTH y); [|lia].
    destruct (Z.ltb_spec (x + CELL_LENGTH) (Z.of_nat w)); [|lia].
    destruct (Z.ltb_spec (y + CELL_LENGTH) (Z.of_nat h)); [|lia].
    rewrite !slice_bound_nonneg by lia.
    change (mk_nd [h; w] (repeat c (size [h; w]))) with (full [h; w] c).
    rewrite slice2_full by lia.
    f_equal. f_equal. f_equal; [|f_equal]; subst L; lia. }
  rewrite Hwin. cbn [rbind].
  rewrite binop_scalar_r by apply full_well_formed.
  cbn [rbind data full shape].
  rewrite !map_repeat.
  assert (Hn : size [2 * L; 2 * L] = Z.to_nat ((2 * CELL_LENGTH) ^ 2)).
  { simpl size. subst L. nia. }
  rewrite Hn. reflexivity.
Qed.

End NeighbourhoodConstant.

Section NeighbourhoodBinary64.

Lemma binary64_self_difference (c : spec_float) :
  match c with S754_finite _ _ _ | S754_zero _ => True | _ => False end ->
  f_abs (f_sub c c) = S754_zero false.
Proof.
  intros Hc. destruct c as [s|s| |s m e]; try contradiction.
  - destruct s; reflexivity.
  - cbn [f_abs binary64_abs f_sub Binary64.scalar]. unfold SFsub.
    cbv zeta. rewrite Z.sub_diag. reflexivity.
Qed.

(** X19.  In every float arithmetic, on a constant grid at a point
    whose window lies inside the grid, [analyze_cell] returns
    [np.sum] of [(2 * CELL_LENGTH)^2] differences [|c - c|] and [np.sum]
    of [(2 * CELL_LENGTH)^2] copies of [c] divided by
    [(CELL_LENGTH + 1)^2]: the window [a:b, c:d] is half open, so it
    holds [(2 * CELL_LENGTH)^2] cells, while the sum is divided by
    [(CELL_LENGTH + 1)^2].  The second result is a mean of the window
    only when [CELL_LENGTH] is 1.  On doubles the first result is 0 at
    every finite level [c]. *)
Theorem analyze_cell_on_constant_grid :
  (forall (F : Type) (Sc : Scalar F) (Sa : ScalarAbs F)
          (CELL_LENGTH : Z) (h w : nat) (c : F) (x y : Z),
      (0 <= CELL_LENGTH)%Z ->
      (CELL_LENGTH <= x)%Z -> (x < Z.of_nat h)%Z ->
      (x + CELL_LENGTH < Z.of_nat w)%Z -> (x + CELL_LENGTH <= Z.of_nat h)%Z ->
      (CELL_LENGTH <= y)%Z -> (y < Z.of_nat w)%Z ->
      (y + CELL_LENGTH < Z.of_nat h)%Z -> (y + CELL_LENGTH <= Z.of_nat w)%Z ->
      analyze_cell CELL_LENGTH (full [h; w] c) x y
      = Ok (Np.sum (repeat (f_abs (f_sub c c))
                           (Z.to_nat ((2 * CELL_LENGTH) ^ 2))),
            f_div (Np.sum (repeat c (Z.to_nat ((2 * CELL_LENGTH) ^ 2))))
                  (f_of_Z ((CELL_LENGTH + 1) ^ 2)))) /\
  (forall (c : spec_float) (n : nat),
      match c with S754_finite _ _ _ | S754_zero _ => True | _ => False end ->
      Np.sum (repeat (f_abs (f_sub c c)) n) = S754_zero false).
Proof.
  split.
  - intros F Sc Sa CELL_LENGTH h w c x y HL Hx1 Hx2 Hx3 Hx4 Hy1 Hy2 Hy3 Hy4.
    apply analyze_cell_full; assumption.
  - intros c n Hc. rewrite binary64_self_difference by exact Hc.
    apply binary64_sum_zeros.
Qed.

End NeighbourhoodBinary64.

(** ** perlin_rand and the driver without generations *)

Section Get2Facts.
Context {F : Type} `{Scalar F}.



End Get2Facts.

Section PerlinRandScaled.
Context {F : Type} `{Scalar F}.
Variable pnoise2 : F -> F -> Z -> F -> F -> Z -> Z -> Z -> F.


End PerlinRandScaled.

Section PerlinRandBinary64.
Variable pnoise2 : spec_float -> spec_float -> Z -> spec_float -> spec_float
                   -> Z -> Z -> Z -> spec_float.

(** X21.  On doubles, [perlin_rand] asked for a grid without a cell
    (no row or no column) raises [ValueError], although the noise
    generator itself returns the empty grid: the standard deviation of
    the empty grid is NaN and [int()] refuses it. *)
Theorem perlin_rand_without_cells_raises
        (h w octaves : Z) (persistence lacunarity : spec_float)
        (repeatx repeaty base : Z) (world : world spec_float) :
  (0 <= h)%Z -> (0 <= w)%Z -> (h = 0 \/ w = 0)%Z ->
  (exists grid,
      value (generate_basic_perlin_noise pnoise2 h w octaves persistence
               lacunarity repeatx repeaty base world) = Ok grid /\
      data grid = []) /\
  value (perlin_rand pnoise2 h w octaves persistence lacunarity
                     repeatx repeaty base world) = Raise ValueError.
Proof.
  intros Hh Hw Hz.
  destruct (noise_grid_ok pnoise2 h w octaves persistence lacunarity
                          repeatx repeaty base Hh Hw)
    as (grid & Hgrid & Hs & Hl & _).
  assert (Hd : data grid = []).
  { apply length_zero_iff_nil. rewrite Hl. destruct Hz; subst; simpl; lia. }
  split.
  { exists grid. rewrite noise_reads_no_generator, Hgrid. auto. }
  unfold perlin_rand.
  erewrite bind_ok
    by (rewrite noise_reads_no_generator, Hgrid; reflexivity).
  rewrite binop_scalar_l
    by (unfold well_formed; rewrite Hd, Hs; simpl;
        destruct Hz; subst; simpl; lia).
  erewrite bind_ok by apply lift_ok. cbv zeta. cbn [shape data].
  rewrite Hd. cbn [map].
  erewrite bind_ok by apply np_random_normal_eq.
  rewrite (bind_raise (F := spec_float)) with (e := ValueError);
    [reflexivity|].
  unfold std. rewrite binary64_var_empty by reflexivity. reflexivity.
Qed.

End PerlinRandBinary64.

Section DriverEdges.
Context {F : Type} `{Scalar F}.
Variable pnoise2 : F -> F -> Z -> F -> F -> Z -> Z -> Z -> F.

(** X22.  With [generations <= 0] the loop body never runs: as long as
    [num_children] is not 0 (and the two selection counts are computed)
    the driver returns what seeding returns, the original population,
    unranked, and the unbound [breed] is not reached. *)
Theorem driver_without_generations_is_seeding
        (h w generations population_size num_children : Z)
        (num_from_best num_from_random : Z) (world : world F) :
  (generations <= 0)%Z -> num_children <> 0%Z ->
  f_ceil (f_mul (f_div (f_of_Z population_size) (f_of_Z num_children))
                (py_float 3 4)) = Ok num_from_best ->
  f_floor (f_mul (f_div (f_of_Z population_size) (f_of_Z num_children))
                 (py_float 1 4)) = Ok num_from_random ->
  run_genetic_algorithm pnoise2 h w generations population_size
                        num_children world
  = generate_original_population pnoise2 h w population_size world.
Proof.
  intros Hg Hc Hbest Hrand.
  unfold run_genetic_algorithm, run_genetic_algorithm_with.
  destruct (generate_original_population pnoise2 h w population_size world)
    as [[population world']|e] eqn:Hpop.
  - erewrite bind_ok by exact Hpop.
    unfold py_truediv.
    destruct (Z.eqb_spec num_children 0) as [E0|E0]; [contradiction|].
    erewrite bind_ok by apply lift_ok.
    rewrite Hbest. erewrite bind_ok by apply lift_ok.
    erewrite bind_ok by apply lift_ok.
    rewrite Hrand. erewrite bind_ok by apply lift_ok.
    replace (Z.to_nat generations) with 0%nat by lia. reflexivity.
  - apply bind_raise. exact Hpop.
Qed.

(** X23.  A run with one, two or three individuals and at least one
    generation fails in the ranking of its first generation, with
    [IndexError]: the population is seeded, the selection counts are
    computed, and the index array of the four scores is then applied to
    fewer than four grids.  Selection and breeding are not reached. *)
Theorem driver_small_population_raises
        (h w generations population_size num_children : Z)
        (mh mw num_from_best num_from_random : Z) (world : world F) :
  (1 <= h)%Z -> (1 <= w)%Z -> (1 <= generations)%Z ->
  (1 <= population_size <= 3)%Z -> num_children <> 0%Z ->
  f_int (f_div (f_of_Z h) (f_of_Z 2)) = Ok mh ->
  f_int (f_div (f_of_Z w) (f_of_Z 2)) = Ok mw ->
  f_ceil (f_mul (f_div (f_of_Z population_size) (f_of_Z num_children))
                (py_float 3 4)) = Ok num_from_best ->
  f_floor (f_mul (f_div (f_of_Z population_size) (f_of_Z num_children))
                 (py_float 1 4)) = Ok num_from_random ->
  run_genetic_algorithm pnoise2 h w generations population_size
                        num_children world
  = Raise IndexError.
Proof.
  intros Hh Hw Hg Hn Hc Hmh Hmw Hbest Hrand.
  unfold run_genetic_algorithm, run_genetic_algorithm_with.
  destruct (generate_original_population_ok pnoise2 h w population_size world)
    as (d & world' & Hpop & Hlen); try lia.
  erewrite bind_ok by exact Hpop.
  unfold py_truediv.
  destruct (Z.eqb_spec num_children 0) as [E0|E0]; [contradiction|].
  erewrite bind_ok by apply lift_ok.
  rewrite Hbest. erewrite bind_ok by apply lift_ok.
  erewrite bind_ok by apply lift_ok.
  rewrite Hrand. erewrite bind_ok by apply lift_ok.
  destruct (Z.to_nat generations) as [|count] eqn:Eg; [lia|].
  cbn [generations_with]. apply bind_raise.
  unfold generation_with. apply bind_raise.
  set (n := Z.to_nat population_size) in *.
  set (population := mk_nd [n; Z.to_nat h; Z.to_nat w] d).
  assert (Hwf : well_formed population).
  { unfold well_formed, population. cbn [data shape]. rewrite Hlen.
    simpl. lia. }
  destruct (fitness_order population n (Z.to_nat h) (Z.to_nat w) mh mw
                          eq_refl Hwf)
    as (scores & Hsl & Hlen4 & _ & Hcpf); try lia;
    try (rewrite Z2Nat.id by lia; assumption).
  rewrite Hcpf. unfold take. cbn [shape data population].
  rewrite (rmap_getitem_out (mk_nd [n; Z.to_nat h; Z.to_nat w] d) n
             [Z.to_nat h; Z.to_nat w] _ 3 eq_refl); [reflexivity| |lia].
  destruct scores as [|t scores]; [simpl in Hsl; lia|].
  cbn [map concat]. apply in_or_app. left.
  inversion Hlen4 as [|? ? Ht _]; subst.
  apply (Permutation_in 3 (argsort_row_permutation t)).
  rewrite Ht. simpl. tauto.
Qed.

End DriverEdges.

(** ** The further theorems at concrete inputs *)

(** X1 at two 2x2 grids. *)
Lemma original_population_repeats_one_grid_witness :
  ((0 <= 2)%Z /\ (0 <= 2)%Z /\ (1 <= 2)%Z) /\
  exists grid population world',
    value (default_noise Demo.noise 2 2 Demo.world0) = Ok grid /\
    generate_original_population Demo.noise 2 2 2 Demo.world0
    = Ok (population, world') /\
    shape population = [Z.to_nat 2; Z.to_nat 2; Z.to_nat 2] /\
    (forall i, i < Z.to_nat 2 -> getitem population i = Ok grid) /\
    reseeds world' = reseeds Demo.world0 + Z.to_nat 2 /\
    np_random world' = np_random Demo.world0.
Proof.
  split; [lia|].
  exact (original_population_repeats_one_grid Demo.noise 2 2 2 Demo.world0
           ltac:(lia) ltac:(lia) ltac:(lia)).
Defined.

(** X2 at two 2x2 grids of zeros. *)
Lemma ranking_small_population_raises_witness :
  (shape Demo.ranked_pair = [2; 2; 2] /\ well_formed Demo.ranked_pair /\
   1 <= 2 <= 3) /\
  compute_population_fitness Demo.ranked_pair = Raise IndexError.
Proof.
  split; [repeat split; (reflexivity || lia)|].
  exact (ranking_small_population_raises Demo.ranked_pair 2 2 2 1 1
           eq_refl eq_refl ltac:(lia) ltac:(lia) ltac:(lia)
           eq_refl eq_refl).
Defined.

(** X3 at four 8x8 grids of zeros. *)
Lemma ranking_rearranges_first_four_witness :
  (shape Demo.flat_population = [4; 8; 8] /\
   well_formed Demo.flat_population) /\
  exists ranked,
    compute_population_fitness Demo.flat_population = Ok ranked /\
    shape ranked = [4; 4; 8; 8] /\
    forall i, i < 4 ->
      exists g t,
        getitem Demo.flat_population i = Ok g /\ score g = Ok t /\
        Permutation [0; 1; 2; 3] (argsort_row t) /\
        forall j, j < 4 ->
          (row <~ getitem ranked i ;; getitem row j)
          = getitem Demo.flat_population (nth j (argsort_row t) 0).
Proof.
  split; [split; reflexivity|].
  exact (ranking_rearranges_first_four Demo.flat_population 4 8 8 4 4
           eq_refl eq_refl ltac:(lia) ltac:(lia) ltac:(lia)
           eq_refl eq_refl).
Defined.

(** X4 at two ranked 2x2 grids, both taken from the top. *)
Lemma selection_without_random_picks_witness :
  (shape Demo.ranked_pair = [2; 2; 2] /\ well_formed Demo.ranked_pair /\
   Z.to_nat 2 <= 2 /\ (0 <= 0)%Z) /\
  exists selection world' picked,
    select_from_population Demo.ranked_pair 2 0 Demo.world0
    = Ok (selection, world') /\
    items selection = Ok picked /\
    Permutation (leading Demo.ranked_pair (Z.to_nat 2)) picked.
Proof.
  split; [repeat split; (reflexivity || lia)|].
  exact (selection_without_random_picks Demo.ranked_pair 2 [2; 2] 2 0
           Demo.world0 eq_refl eq_refl ltac:(lia) ltac:(lia)).
Defined.

(** X5 at two ranked grids and three picks from the top. *)
Lemma selection_beyond_population_raises_witness :
  (shape Demo.ranked_pair = [2; 2; 2] /\ (Z.of_nat 2 < 3)%Z) /\
  select_from_population Demo.ranked_pair 3 1 Demo.world0 = Raise IndexError.
Proof.
  split; [split; (reflexivity || lia)|].
  exact (selection_beyond_population_raises Demo.ranked_pair 2 [2; 2] 3 1
           Demo.world0 eq_refl ltac:(lia)).
Defined.

(** X6 at two breeders: no child asked for, then two. *)
Lemma breed_population_raises_iff_witness :
  shape Demo.ranked_pair = [2; 2; 2] /\
  breed_population Demo.ranked_pair 0 Demo.world0
  = Ok (mk_nd [0] [], Demo.world0) /\
  breed_population Demo.ranked_pair 2 Demo.world0
  = Raise (NameError "breed").
Proof.
  split; [reflexivity|]. split.
  - exact (breed_population_raises_iff Demo.ranked_pair 2 [2; 2] 0 1
             Demo.world0 eq_refl eq_refl).
  - exact (breed_population_raises_iff Demo.ranked_pair 2 [2; 2] 2 1
             Demo.world0 eq_refl eq_refl).
Defined.

(** X7 at the 1x2 grid [[0.0, 8.0]] and at the grid without a row. *)
Lemma score_raises_on_empty_grid_only_witness :
  (shape Demo.rough_individual = [1; 2] /\
   well_formed Demo.rough_individual /\
   shape Samples.empty_grid = [0; 2] /\ well_formed Samples.empty_grid) /\
  (exists t, score Demo.rough_individual = Ok t /\ length t = 4) /\
  score Samples.empty_grid = Raise ValueError.
Proof.
  split; [repeat split|]. split.
  - exact (proj2 (score_raises_on_empty_grid_only Demo.rough_individual
                    1 2 0 1 eq_refl eq_refl eq_refl eq_refl)
                 ltac:(discriminate)).
  - exact (proj1 (score_raises_on_empty_grid_only Samples.empty_grid
                    0 2 0 1 eq_refl eq_refl eq_refl eq_refl)
                 eq_refl).
Defined.

(** X8 at the 1-d array [0.0, 8.0]. *)
Lemma score_flat_array_raises_witness :
  shape Samples.flat_row = [2] /\
  score Samples.flat_row = Raise IndexError.
Proof.
  split; [reflexivity|].
  exact (score_flat_array_raises Samples.flat_row 2 1 eq_refl eq_refl).
Defined.

(** X9 at the 1x2 grid [[0.0, 8.0]]. *)
Lemma quadrant_variance_nan_on_thin_grid_witness :
  (shape Demo.rough_individual = [1; 2] /\ (1 <= 1 \/ 2 <= 1)) /\
  loc_glbl_var Demo.rough_individual = Ok S754_nan.
Proof.
  split; [split; [reflexivity|left; lia]|].
  exact (quadrant_variance_nan_on_thin_grid Demo.rough_individual 1 2 0 1
           eq_refl (or_introl (le_n 1)) eq_refl eq_refl).
Defined.

(** X10 at the first of two 1x1 parents [[1.0]]. *)
Lemma crossover_same_parent_twice_witness :
  deref Demo.parents 0 = Ok (full [1; 1] (Binary64.of_Z 1)) /\
  exists hp',
    crossover 0 0 Demo.parents = Ok ((0, 0), hp') /\
    deref hp' 0 = Ok (mk_nd [1; 1] [Binary64.of_Z 0]) /\
    forall r', r' < length Demo.parents -> r' <> 0 ->
               deref hp' r' = deref Demo.parents r'.
Proof.
  split; [reflexivity|].
  exact (crossover_same_parent_twice 0 Demo.parents
           (full [1; 1] (Binary64.of_Z 1)) eq_refl).
Defined.

(** X11 at two 1x1 parents. *)
Lemma crossover2_writes_its_parents_only_witness :
  (0 <> 1 /\
   deref Demo.parents 0 = Ok (full [1; 1] (Binary64.of_Z 1)) /\
   deref Demo.parents 1 = Ok (full [1; 1] (Binary64.of_Z 1)) /\
   1 <= 1 * 1) /\
  exists hp' c1 c2,
    crossover2 0 1 Demo.parents Demo.world0
    = Ok ((0, 1), hp', np_advance (2 * (1 * 1)) Demo.world0) /\
    length hp' = length Demo.parents /\
    deref hp' 0 = Ok c1 /\ deref hp' 1 = Ok c2 /\
    shape c1 = [1; 1] /\ shape c2 = [1; 1] /\
    well_formed c1 /\ well_formed c2 /\
    forall r, r <> 0 -> r <> 1 -> deref hp' r = deref Demo.parents r.
Proof.
  split; [repeat split; (discriminate || lia)|].
  exact (crossover2_writes_its_parents_only 0 1 Demo.parents
           (full [1; 1] (Binary64.of_Z 1)) (full [1; 1] (Binary64.of_Z 1))
           1 1 Demo.world0 ltac:(discriminate) eq_refl eq_refl eq_refl eq_refl
           eq_refl eq_refl ltac:(lia)).
Defined.

(** X12 at the empty grid and at the 1-d array, each alone in a store. *)
Lemma crossover2_degenerate_parent_raises_witness :
  (deref [Samples.flat_row] 0 = Ok Samples.flat_row /\
   deref [Samples.empty_grid] 0 = Ok Samples.empty_grid) /\
  crossover2 0 0 [Samples.flat_row] Demo.world0 = Raise IndexError /\
  crossover2 0 0 [Samples.empty_grid] Demo.world0 = Raise ValueError.
Proof.
  split; [split; reflexivity|]. split.
  - exact (proj1 (crossover2_degenerate_parent_raises 0 0
                    [Samples.flat_row] Samples.flat_row Demo.world0 eq_refl)
                 ltac:(simpl; lia)).
  - exact (proj2 (crossover2_degenerate_parent_raises 0 0
                    [Samples.empty_grid] Samples.empty_grid Demo.world0
                    eq_refl)
                 0 2 eq_refl eq_refl).
Defined.

(** X13 at two 1x1 parents [[1.0]]. *)
Lemma crossover2_single_cell_gives_nan_witness :
  (0 <> 1 /\
   deref Demo.parents 0 = Ok (full [1; 1] (Binary64.of_Z 1)) /\
   deref Demo.parents 1 = Ok (full [1; 1] (Binary64.of_Z 1))) /\
  exists hp' world',
    crossover2 0 1 Demo.parents Demo.world0 = Ok ((0, 1), hp', world') /\
    deref hp' 0 = Ok (mk_nd [1; 1] [S754_nan]) /\
    deref hp' 1 = Ok (mk_nd [1; 1] [S754_nan]).
Proof.
  split; [repeat split; discriminate|].
  exact (crossover2_single_cell_gives_nan 0 1 Demo.parents
           (full [1; 1] (Binary64.of_Z 1)) (full [1; 1] (Binary64.of_Z 1))
           Demo.world0 ltac:(discriminate) eq_refl eq_refl eq_refl eq_refl
           eq_refl eq_refl).
Defined.


(** X16 at the grid without a row. *)
Lemma mutation_of_empty_grid_raises_witness :
  data Samples.empty_grid = [] /\
  value (mutate Samples.empty_grid Demo.world0) = Raise ValueError /\
  value (mutate2 Samples.empty_grid Demo.world0) = Raise ValueError.
Proof.
  split; [reflexivity|].
  exact (mutation_of_empty_grid_raises Samples.empty_grid Demo.world0
           eq_refl).
Defined.


(** X18 at the last row of a 3x1 grid, with [CELL_LENGTH] 1. *)
Lemma analyze_cell_low_rows_see_nothing_witness :
  (shape Samples.tall_grid = [3; 1] /\ well_formed Samples.tall_grid /\
   (0 <= 1)%Z /\ (0 <= 2 < Z.of_nat 3)%Z /\ (0 <= 0 < Z.of_nat 1)%Z /\
   (Z.of_nat 1 - 1 + 1 <= 2)%Z) /\
  analyze_cell 1 Samples.tall_grid 2 0
  = Ok (zero, f_div zero (f_of_Z ((1 + 1) ^ 2))).
Proof.
  split; [repeat split; (reflexivity || lia)|].
  exact (analyze_cell_low_rows_see_nothing 1 Samples.tall_grid 3 1 2 0
           eq_refl eq_refl ltac:(lia) ltac:(lia) ltac:(lia) ltac:(lia)).
Defined.

(** X19 at the middle of a 4x4 grid of level 5, with [CELL_LENGTH] 1:
    four cells, divided by four. *)
Lemma analyze_cell_on_constant_grid_witness :
  ((0 <= 1)%Z /\ (1 <= 1)%Z /\ (1 < Z.of_nat 4)%Z /\
   (1 + 1 < Z.of_nat 4)%Z /\ (1 + 1 <= Z.of_nat 4)%Z) /\
  analyze_cell 1 (full [4; 4] (Binary64.of_Z 5)) 1 1
  = Ok (S754_zero false, Binary64.of_Z 5).
Proof.
  split; [lia|].
  destruct analyze_cell_on_constant_grid as [Hcell Hzero].
  rewrite (Hcell spec_float _ _ 1%Z 4 4 (Binary64.of_Z 5) 1%Z 1%Z) by lia.
  rewrite (Hzero (Binary64.of_Z 5) _ I). vm_compute. reflexivity.
Defined.


(** X21 at a grid with no row and two columns. *)
Lemma perlin_rand_without_cells_raises_witness :
  ((0 <= 0)%Z /\ (0 <= 2)%Z /\ (0 = 0 \/ 2 = 0)%Z) /\
  (exists grid,
      value (generate_basic_perlin_noise Demo.noise 0 2 8 (py_float 1 2)
               (f_of_Z 2) 1024 1024 0 Demo.world0) = Ok grid /\
      data grid = []) /\
  value (perlin_rand Demo.noise 0 2 8 (py_float 1 2) (f_of_Z 2)
                     1024 1024 0 Demo.world0) = Raise ValueError.
Proof.
  split; [repeat split; lia || (left; reflexivity)|].
  exact (perlin_rand_without_cells_raises Demo.noise 0 2 8 (py_float 1 2)
           (f_of_Z 2) 1024 1024 0 Demo.world0
           ltac:(lia) ltac:(lia) (or_introl eq_refl)).
Defined.

(** X22 at the 8x8 run with four individuals, two children per pair
    and no generation. *)
Lemma driver_without_generations_is_seeding_witness :
  ((0 <= 0)%Z /\ 2%Z <> 0%Z) /\
  run_genetic_algorithm Demo.noise 8 8 0 4 2 Demo.world0
  = generate_original_population Demo.noise 8 8 4 Demo.world0.
Proof.
  split; [split; [lia|discriminate]|].
  exact (driver_without_generations_is_seeding Demo.noise 8 8 0 4 2 2 0
           Demo.world0 ltac:(lia) ltac:(discriminate) eq_refl eq_refl).
Defined.

(** X23 at a run with two 8x8 individuals and one generation. *)
Lemma driver_small_population_raises_witness :
  ((1 <= 8)%Z /\ (1 <= 1)%Z /\ (1 <= 2 <= 3)%Z /\ 2%Z <> 0%Z) /\
  run_genetic_algorithm Demo.noise 8 8 1 2 2 Demo.world0 = Raise IndexError.
Proof.
  split; [repeat split; (lia || discriminate)|].
  exact (driver_small_population_raises Demo.noise 8 8 1 2 2 4 4 1 0
           Demo.world0 ltac:(lia) ltac:(lia) ltac:(lia) ltac:(lia)
           ltac:(discriminate) eq_refl eq_refl eq_refl eq_refl).
Defined.

(** X24 at the 1-d array [0.0, 8.0], with chance 100. *)
Lemma scalar_population_cannot_be_mutated_witness :
  (shape Samples.flat_row = [2] /\ well_formed Samples.flat_row /\ 0 < 2 /\
   getitem Samples.flat_row 0 = Ok (scalar_nd (Binary64.of_Z 0)) /\
   f_ltb (f_mul (py_coming Demo.world0 0) (f_of_Z 100)) (f_of_Z 100) = true) /\
  mutate_population Samples.flat_row (f_of_Z 100) Demo.world0
  = Raise TypeError.
Proof.
  split; [repeat split; (lia || reflexivity)|].
  rewrite (scalar_population_cannot_be_mutated Samples.flat_row
             (scalar_nd (Binary64.of_Z 0)) 2 0 (f_of_Z 100) Demo.world0);
    (lia || reflexivity).
Defined.
